(** * Modbus RTU state-machine generator (make/modbus_rtu_rc.py)

    A shallow embedding of the generator: the matcher model, the operation
    descriptor, the state graph built by [process_sequence], the
    constructor of [CodeGenerator] and the command-line driver, followed by
    the properties of the specification that were checked against it.
    Of the emitters, those whose outcome depends on the tree are embedded:
    the declaration of the address, the prototypes, the calls of the
    callbacks and the two identification routines.  The layout of the
    [switch] over the states ([State.to_code], [TransitionGroup.to_code],
    [Transition.to_code], [Matcher.to_code]) and the templates that
    [generate_code] fills in are text only and are left out.

    Conventions of the embedding.
    - Python integers are [Z]; text is [string] (ASCII).
    - A raised exception is a value of [Exn]; a computation that can raise
      returns [result].
    - Float literals are not represented: numeric literals are integers, so
      the only values an [f32] matcher can hold are the wildcard and lists
      (the constructor of [f32] rejects every integer literal).
    - Objects of the input tree that the generator mutates carry their
      identity (a number); the [Store] records the fields written, keyed by
      identity, so that two references to one object see the same write. *)

From stdpp Require Import gmap strings list fin_maps pretty.
From Stdlib Require Import ZArith Lia Ascii String.

Open Scope string_scope.
Open Scope list_scope.
Open Scope Z_scope.

(** ** Exceptions *)

Inductive Exn : Type :=
| ParsingException (msg : string)
| ValueError
| AttributeError
| IndexError
| KeyError
| AssertionError.

Inductive result (A : Type) : Type :=
| Ok (a : A)
| Raise (e : Exn).

Arguments Ok {A} a.
Arguments Raise {A} e.

Definition bind {A B : Type} (c : result A) (k : A -> result B) : result B :=
  match c with
  | Ok a => k a
  | Raise e => Raise e
  end.

Notation "'let*' x ':=' c 'in' k" := (bind c (fun x => k))
  (at level 10, x name, c at level 100, k at level 200).

(** ** Integral types and the matcher classes *)

(** The concrete matcher classes: [u8] ... [f32], [Crc] and
    [RuntimeDeviceAddress].  A callback parameter type is one of these
    classes as well. *)
Inductive MatcherClass : Type :=
| U8 | U16 | U32 | S8 | S16 | S32 | F32 | Crc | RuntimeDeviceAddress.

#[global] Instance MatcherClass_eq_dec : EqDecision MatcherClass.
Proof. solve_decision. Defined.

(** [_8bits.bits], [_16bits.bits], [_32bits.bits]. *)
Definition bits (c : MatcherClass) : Z :=
  match c with
  | U8 | S8 | RuntimeDeviceAddress => 8
  | U16 | S16 | Crc => 16
  | U32 | S32 | F32 => 32
  end.

(** [Integral.size]: [self.bits // 8]. *)
Definition size_of (c : MatcherClass) : Z := bits c / 8.

Definition ctype (c : MatcherClass) : string :=
  match c with
  | U8 | S8 | RuntimeDeviceAddress => "uint8_t"
  | U16 | S16 | Crc => "uint16_t"
  | U32 | S32 | F32 => "uint32_t"
  end.

Inductive Signedness : Type := Unsigned | Signed | Float.

#[global] Instance Signedness_eq_dec : EqDecision Signedness.
Proof. solve_decision. Defined.

Definition signedness (c : MatcherClass) : Signedness :=
  match c with
  | U8 | U16 | U32 | Crc | RuntimeDeviceAddress => Unsigned
  | S8 | S16 | S32 => Signed
  | F32 => Float
  end.

(** [UnsignedMatcher.check], [SignedMatcher.check] and [f32.check] on an
    integer literal. *)
Definition check (c : MatcherClass) (value : Z) : bool :=
  match signedness c with
  | Unsigned => (0 <=? value) && (value <? Z.shiftl 1 (bits c))
  | Signed =>
      (- Z.shiftl 1 (bits c - 1) <=? value) && (value <? Z.shiftl 1 (bits c - 1))
  | Float => false
  end.

(** The properties [min] and [max]; [f32] has neither. *)
Definition cls_max (c : MatcherClass) : result Z :=
  match signedness c with
  | Unsigned => Ok (Z.shiftl 1 (bits c) - 1)
  | Signed => Ok (Z.shiftl 1 (bits c - 1) - 1)
  | Float => Raise AttributeError
  end.

Definition cls_min (c : MatcherClass) : result Z :=
  match signedness c with
  | Unsigned => Ok 0
  | Signed => Ok (- Z.shiftl 1 (bits c - 1))
  | Float => Raise AttributeError
  end.

(** ** Matchers *)

(** The [value] attribute: [None], an integer, a list, or a [Range]. *)
Inductive Value : Type :=
| VNone
| VInt (v : Z)
| VList (l : list Z)
| VRange (_from _to : Z).

#[global] Instance Value_eq_dec : EqDecision Value.
Proof. solve_decision. Defined.

(** A matcher object: its class, its value and its alias.  These three are
    assigned by [Matcher.__init__] and never reassigned.  The fourth
    attribute, [pos], is written by [process_sequence] and never read; it
    lives in the [Store]. *)
Record Matcher : Type := mkMatcher {
  m_cls : MatcherClass;
  m_value : Value;
  m_alias : option string
}.

Definition m_size (m : Matcher) : Z := size_of (m_cls m).

(** A positional argument of a matcher constructor. *)
Inductive Arg : Type :=
| ANone
| AInt (v : Z)
| AList (l : list Z).

(** [Matcher.cast]. *)
Definition cast (c : MatcherClass) (a : Arg) : result Z :=
  match a with
  | AInt v => if check c v then Ok v else Raise ValueError
  | ANone | AList _ => Raise ValueError
  end.

(** [Matcher.__init__].  The elements of a list argument are passed to
    [check] but its verdict is dropped, so a list is stored as it is. *)
Definition Matcher_init (c : MatcherClass) (args : list Arg)
    (alias : option string) : result Matcher :=
  match args with
  | [] | [ANone] => Ok (mkMatcher c VNone alias)
  | [AList l] => Ok (mkMatcher c (VList l) alias)
  | [AInt v] =>
      let* v' := cast c (AInt v) in
      Ok (mkMatcher c (VInt v') alias)
  | [a; b] =>
      let* f := cast c a in
      let* t := cast c b in
      Ok (mkMatcher c (VRange f t) alias)
  | _ => Raise ValueError
  end.

(** [Matcher.__eq__]: same class, same type of value, equal values.  The
    alias does not take part. *)
Definition matcher_eqb (a b : Matcher) : bool :=
  bool_decide (m_cls a = m_cls b) && bool_decide (m_value a = m_value b).

(** [Matcher.fits]: [item] is the class of the callback parameter. *)
Definition fits (self : Matcher) (item : MatcherClass) : result bool :=
  let* v := Matcher_init item [AInt 0] None in
  if m_size self <=? m_size v then Ok true
  else
    match m_value self with
    | VRange _from _to =>
        let* lo := cls_min (m_cls v) in
        let* hi := cls_max (m_cls v) in
        Ok ((lo <=? _from) && (_to <=? hi))
    | VList l =>
        let* lo := cls_min (m_cls v) in
        let* hi := cls_max (m_cls v) in
        Ok (forallb (fun t => negb ((t <? lo) || (hi <? t))) l)
    | VNone | VInt _ => Ok true
    end.

(** ** Text helpers *)

(** [str.upper] on ASCII text. *)
Definition upper_ascii (c : ascii) : ascii :=
  if (Ascii.leb "a" c && Ascii.leb c "z")%bool
  then ascii_of_nat (nat_of_ascii c - 32)
  else c.

Fixpoint upper (s : string) : string :=
  match s with
  | EmptyString => EmptyString
  | String c s' => String (upper_ascii c) (upper s')
  end.

(** [str(n)] for an integer. *)
Definition str (n : Z) : string := pretty n.

(** [sep.join(l)]. *)
Definition join (sep : string) (l : list string) : string := String.concat sep l.

(** [sum(...)] over integers. *)
Definition sum (l : list Z) : Z := foldr Z.add 0 l.

(** [len(s)] for text and for lists. *)
Definition len (s : string) : Z := Z.of_nat (String.length s).
Definition llen {A : Type} (l : list A) : Z := Z.of_nat (List.length l).

(** ** Callback prototypes and command tuples *)

(** A parameter descriptor: a type, or a pair of a type and a name. *)
Inductive Param : Type :=
| PType (c : MatcherClass)
| PNamed (c : MatcherClass) (name : string).

Definition param_cls (p : Param) : MatcherClass :=
  match p with PType c | PNamed c _ => c end.

(** An element of a command tuple: a reference to the matcher object
    [oid], whose class, value and alias are [m], or a string. *)
Inductive Item : Type :=
| IMatcher (oid : nat) (m : Matcher)
| IStr (s : string).

Definition Command : Type := list Item.

(** An element of a capture chain. *)
Inductive ChainItem : Type :=
| CMatcher (m : Matcher)
| CStr (s : string).

Definition chain_of_item (i : Item) : ChainItem :=
  match i with
  | IMatcher _ m => CMatcher m
  | IStr s => CStr s
  end.

(** [item.size for item in chain if isinstance(item, Integral)]. *)
Definition integral_sizes (chain : list ChainItem) : list Z :=
  omap (fun i => match i with CMatcher m => Some (m_size m) | CStr _ => None end) chain.

(** ** Operation *)

(** [Operation(name, prototype, chain)] and [NoOperation()]. *)
Inductive Op : Type :=
| Operation (name : string) (prototype : list Param) (chain : list ChainItem)
| NoOperation.

(** [Matcher.__repr__]: [f"{self.ctype}({self.value})"]. *)
Definition value_repr (v : Value) : string :=
  match v with
  | VNone => "None"
  | VInt n => str n
  | VList l => "[" +:+ join ", " (str <$> l) +:+ "]"
  | VRange f t => "[" +:+ str f +:+ "-" +:+ str t +:+ "]"
  end.

Definition matcher_repr (m : Matcher) : string :=
  ctype (m_cls m) +:+ "(" +:+ value_repr (m_value m) +:+ ")".

(** The typed extraction emitted for a parameter of [param_size] bytes
    read at [offset]; no text for any other size. *)
Definition extraction (param_size offset : Z) : option string :=
  if param_size =? 1 then Some ("buffer[" +:+ str offset +:+ "]")
  else if param_size =? 2 then Some ("ntoh(" +:+ str offset +:+ ")")
  else if param_size =? 4 then Some ("ntohl(" +:+ str offset +:+ ")")
  else None.

(** The body of the loop of [Operation.to_code], for the parameter that
    [enumerate(reversed(prototype))] yields at [pos].  [rchain] is the
    working copy of the chain held in reverse, so that its head is what
    [chain.pop()] returns; [values_str] is the list built so far. *)
Definition to_code_param (name : string) (nargs : Z) (pos : Z) (param : Param)
    (rchain : list ChainItem) (values_str : list string)
    : result (list ChainItem * list string) :=
  let param_name :=
    match param with
    | PNamed _ n => "'" +:+ n +:+ "'"
    | PType _ => "argument at position " +:+ str (nargs - pos)
    end in
  let param := param_cls param in
  match rchain with
  | [] => Raise IndexError
  | chain_item :: chain =>
      let offset := sum (integral_sizes chain) in
      let* v := Matcher_init param [AInt 0] None in
      let param_size := m_size v in
      match chain_item with
      | CStr _ => Raise AttributeError
      | CMatcher chain_item =>
          let* ok := fits chain_item param in
          if negb ok then
            Raise (ParsingException
                     ("Cannot fit " +:+ matcher_repr chain_item +:+ " into "
                      +:+ param_name +:+ " of type " +:+ ctype param
                      +:+ " in " +:+ name))
          else
            let offset := offset + (m_size chain_item - param_size) in
            Ok (chain,
                match extraction param_size offset with
                | Some e => e :: values_str
                | None => values_str
                end)
      end
  end.

Fixpoint to_code_loop (name : string) (nargs : Z) (pos : Z)
    (rprototype : list Param) (rchain : list ChainItem)
    (values_str : list string) : result (list string) :=
  match rprototype with
  | [] => Ok values_str
  | param :: rest =>
      let* st := to_code_param name nargs pos param rchain values_str in
      to_code_loop name nargs (pos + 1) rest (fst st) (snd st)
  end.

(** [Operation.to_code] and [NoOperation.to_code]. *)
Definition Op_to_code (op : Op) : result string :=
  match op with
  | NoOperation => Ok "// Reply is ignored"
  | Operation name prototype chain =>
      let* values_str :=
        to_code_loop name (llen prototype) 0 (reverse prototype) (reverse chain)
          [] in
      Ok (name +:+ "(" +:+ join ", " values_str +:+ ");")
  end.

(** ** Dictionaries

    A Python [dict] keeps its keys in insertion order and several loops of
    the generator run over that order, so a dictionary is an association
    list; a well-formed one has no key twice. *)

Section Dict.
Context {K V : Type} `{EqDecision K}.

Fixpoint dict_get (d : list (K * V)) (k : K) : option V :=
  match d with
  | [] => None
  | (k', v) :: d' => if decide (k' = k) then Some v else dict_get d' k
  end.

Definition dict_in (d : list (K * V)) (k : K) : bool :=
  bool_decide (is_Some (dict_get d k)).

(** [d[k] = v]: overwrite in place, or add at the end. *)
Fixpoint dict_set (d : list (K * V)) (k : K) (v : V) : list (K * V) :=
  match d with
  | [] => [(k, v)]
  | (k', v') :: d' =>
      if decide (k' = k) then (k', v) :: d' else (k', v') :: dict_set d' k v
  end.
End Dict.

(** ** States and transitions *)

(** [Transition]: the matcher, the target state and the [set_crc] flag.
    States are referred to by their index in [CodeGenerator.states], the
    list every state is appended to when it is created. *)
Record Transition : Type := mkTransition {
  t_matcher : Matcher;
  t_next : nat;
  t_set_crc : bool
}.

(** [State]; an [OperationState] is a state that carries an operation. *)
Record State : Type := mkState {
  s_name : string;
  s_transition : list Transition;
  s_pos : Z;
  s_mode : string;
  s_op : option Op
}.

#[global] Instance State_inhabited : Inhabited State :=
  populate (mkState "" [] 0 "slave" None).

(** [State.add]. *)
Definition State_add (s : State) (t : Transition) : State :=
  mkState (s_name s) (s_transition s ++ [t]) (s_pos s) (s_mode s) (s_op s).

(** [State.next]: an alias that is [None] or empty gives way to the number
    of the transition to come. *)
Definition State_next (s : State) (alias : option string) : string :=
  let alias :=
    match alias with
    | Some (String c a) => String c a
    | Some EmptyString | None => str (llen (s_transition s) + 1)
    end in
  s_name s +:+ "_" +:+ alias.

(** [State.has]. *)
Definition has (s : State) (matcher : Matcher) : bool :=
  existsb (fun t => matcher_eqb (t_matcher t) matcher) (s_transition s).

(** [State.get_next_state_of]; [None] is the failed assertion. *)
Definition get_next_state_of (s : State) (matcher : Matcher) : option nat :=
  t_next <$> List.find (fun t => matcher_eqb (t_matcher t) matcher) (s_transition s).

(** ** The code generator *)

Record CodeGenerator : Type := mkCodeGenerator {
  states : list State;
  callbacks : list (string * list Param);
  max_buf_size : Z;
  on_ready_reply_callback : option string;
  device_address : option Z;
  identification : list (Z * string);
  slave_id : Z;
  mode : string;
  namespace : string;
  conformity_level : Z
}.

Definition set_states (g : CodeGenerator) (l : list State) : CodeGenerator :=
  mkCodeGenerator l (callbacks g) (max_buf_size g) (on_ready_reply_callback g)
    (device_address g) (identification g) (slave_id g) (mode g) (namespace g)
    (conformity_level g).

(** The state object behind an index, and [state.add(transition)]. *)
Definition state_at (g : CodeGenerator) (i : nat) : State := states g !!! i.

Definition add_transition (g : CodeGenerator) (i : nat) (t : Transition)
    : CodeGenerator :=
  set_states g (alter (fun s => State_add s t) i (states g)).

Definition append_state (g : CodeGenerator) (s : State) : CodeGenerator :=
  set_states g (states g ++ [s]).

(** The [while] loop of [new_state].  The candidates [name], [name_1],
    [name_2], ... are pairwise different, so at most [length names] of them
    are taken and the loop leaves within [length names + 1] tests;
    [new_state_loop_fresh] below proves that this many suffice. *)
Fixpoint new_state_loop (fuel : nat) (names : list string)
    (new_state_name : string) (count : Z) (alt_name : string) : string :=
  if bool_decide (alt_name ∈ names) then
    match fuel with
    | O => alt_name
    | S fuel' =>
        new_state_loop fuel' names new_state_name (count + 1)
          (new_state_name +:+ "_" +:+ str count)
    end
  else alt_name.

(** The name [new_state] settles on: the first part of its body. *)
Definition unique_name (g : CodeGenerator) (new_state_name : string) : string :=
  let names :=
    s_name <$> List.filter (fun s => String.prefix new_state_name (s_name s))
                 (states g) in
  new_state_loop (List.length names) names new_state_name 1 new_state_name.

(** [CodeGenerator.new_state]: returns the generator with the state
    appended, and the new state. *)
Definition new_state (g : CodeGenerator) (new_state_name : string) (pos : Z)
    : CodeGenerator * nat :=
  let alt_name := unique_name g new_state_name in
  (append_state g (mkState alt_name [] pos (mode g) None),
   List.length (states g)).

(** The loop of [process_sequence] over [enumerate(cmd)]: [rest] is what is
    left to visit, [state] the current state.  The writes to [matcher.pos]
    go to [sigma], which is returned also when an exception ends the
    loop. *)
Fixpoint process_loop (address_matcher : Matcher) (cmd rest : Command)
    (pos : Z) (state : nat) (g : CodeGenerator) (sigma : gmap nat Z)
    {struct rest} : gmap nat Z * result CodeGenerator :=
  match rest with
  | [] => (sigma, Ok g)
  | IStr _ :: _ => (sigma, Raise AttributeError)
  | IMatcher oid matcher :: rest' =>
      let pos := pos + m_size matcher in
      let sigma := <[oid := pos]> sigma in
      let st := state_at g state in
      if has st matcher then
        match get_next_state_of st matcher with
        | Some next => process_loop address_matcher cmd rest' pos next g sigma
        | None => (sigma, Raise AssertionError)
        end
      else
        match rest' with
        | [] => (sigma, Raise IndexError)
        | IStr _ :: _ =>
            match last cmd with
            | Some (IStr command_name) =>
                let (g1, next_state) :=
                  new_state g
                    (State_next st (Some ("_" +:+ upper command_name +:+ "__CRC")))
                    (s_pos st + m_size matcher) in
                let g2 :=
                  add_transition g1 state (mkTransition matcher next_state true) in
                let state := next_state in
                let op :=
                  if negb (command_name =? "NOTHING")%string then
                    match dict_get (callbacks g2) command_name with
                    | Some prototype =>
                        Ok (Operation command_name prototype
                              (CMatcher address_matcher ::
                               (chain_of_item <$> removelast cmd)))
                    | None => Raise KeyError
                    end
                  else Ok NoOperation in
                match op with
                | Raise e => (sigma, Raise e)
                | Ok op =>
                    let next_state := List.length (states g2) in
                    let g3 :=
                      append_state g2
                        (mkState ("RDY_TO_CALL__" +:+ upper command_name) [] 0
                           "slave" (Some op)) in
                    let crc_matcher := mkMatcher Crc VNone None in
                    (sigma,
                     Ok (add_transition g3 state
                           (mkTransition crc_matcher next_state false)))
                end
            | _ => (sigma, Raise AttributeError)
            end
        | IMatcher _ _ :: _ =>
            let (g1, next_state) :=
              new_state g (State_next st (m_alias matcher))
                (s_pos st + m_size matcher) in
            let g2 :=
              add_transition g1 state (mkTransition matcher next_state false) in
            process_loop address_matcher cmd rest' pos next_state g2 sigma
        end
  end.

(** [CodeGenerator.process_sequence]. *)
Definition process_sequence (address_matcher : Matcher) (state : nat)
    (cmd : Command) (g : CodeGenerator) (sigma : gmap nat Z)
    : gmap nat Z * result CodeGenerator :=
  match last cmd with
  | None => (sigma, Raise IndexError)
  | Some callback =>
      match callback with
      | IMatcher _ _ =>
          let cmd := cmd ++ [IStr "NOTHING"] in
          process_loop address_matcher cmd cmd 1 state g sigma
      | IStr callback =>
          if negb (dict_in (callbacks g) callback) then
            (sigma,
             Raise (ParsingException
                      ("Unknown callback " +:+ callback
                       +:+ ": Callback must be declared first")))
          else process_loop address_matcher cmd cmd 1 state g sigma
      end
  end.

(** ** Keys of the declarative tree *)

Definition is_digit (c : ascii) : bool := Ascii.leb "0" c && Ascii.leb c "9".

Definition is_hex (c : ascii) : bool :=
  is_digit c || (Ascii.leb "a" c && Ascii.leb c "f")
  || (Ascii.leb "A" c && Ascii.leb c "F").

Definition is_ident_start (c : ascii) : bool :=
  (Ascii.leb "a" c && Ascii.leb c "z") || (Ascii.leb "A" c && Ascii.leb c "Z")
  || Ascii.eqb c "_".

Definition is_ident_char (c : ascii) : bool := is_ident_start c || is_digit c.

(** The longest prefix of [s] made of characters in [p], and what follows. *)
Fixpoint span (p : ascii -> bool) (s : string) : string * string :=
  match s with
  | EmptyString => (EmptyString, EmptyString)
  | String c s' =>
      if p c then let (a, b) := span p s' in (String c a, b)
      else (EmptyString, s)
  end.

(** [s] without the prefix [p], when it starts with [p]. *)
Fixpoint strip_prefix (p s : string) : option string :=
  match p, s with
  | EmptyString, _ => Some s
  | String a p', String b s' => if Ascii.eqb a b then strip_prefix p' s' else None
  | String _ _, EmptyString => None
  end.

Definition newline : string := String (ascii_of_nat 10) EmptyString.

(** Where [$] matches: at the end, or in front of a last line feed. *)
Definition at_end (s : string) : bool :=
  (s =? "")%string || (s =? newline)%string.

(** [re.match(r"^device(@\d+)?$", key)]. *)
Definition is_sized_device_key (key : string) : bool :=
  match strip_prefix "device" key with
  | None => false
  | Some r =>
      match r with
      | String "@" r' =>
          let (ds, r'') := span is_digit r' in
          negb (ds =? "")%string && at_end r''
      | _ => at_end r
      end
  end.

(** [VALID_C_FUNCTION_NAME.match(cb)]. *)
Definition valid_c_function_name (cb : string) : bool :=
  match cb with
  | EmptyString => false
  | String c s => is_ident_start c && at_end (snd (span is_ident_char s))
  end.

(** [DEVICE_ADDR_RE] tried at the start of [s]: group 1 of the match. *)
Definition device_addr_at (s : string) : option string :=
  match strip_prefix "device@" s with
  | None => None
  | Some r =>
      let plain := fst (span is_hex r) in
      match strip_prefix "0x" r with
      | Some r' =>
          let hex := fst (span is_hex r') in
          if negb (hex =? "")%string then Some ("0x" +:+ hex)
          else if negb (plain =? "")%string then Some plain else None
      | None => if negb (plain =? "")%string then Some plain else None
      end
  end.

(** [re.search(DEVICE_ADDR_RE, key)]: the leftmost match. *)
Fixpoint device_addr_search (s : string) : option string :=
  match device_addr_at s with
  | Some g => Some g
  | None =>
      match s with
      | EmptyString => None
      | String _ s' => device_addr_search s'
      end
  end.

Definition digit_value (c : ascii) : Z :=
  if is_digit c then Z.of_nat (nat_of_ascii c) - 48
  else if Ascii.leb "a" c then Z.of_nat (nat_of_ascii c) - 87
  else Z.of_nat (nat_of_ascii c) - 55.

Fixpoint digits_value (base : Z) (acc : Z) (s : string) : Z :=
  match s with
  | EmptyString => acc
  | String c s' => digits_value base (acc * base + digit_value c) s'
  end.

Fixpoint all_chars (p : ascii -> bool) (s : string) : bool :=
  match s with
  | EmptyString => true
  | String c s' => p c && all_chars p s'
  end.

Definition is_bin (c : ascii) : bool := Ascii.eqb c "0" || Ascii.eqb c "1".

(** The limit of the interpreter on the number of digits of a decimal
    text that [int] converts ([sys.int_max_str_digits], in force since
    Python 3.11, 4300 unless configured otherwise): a longer text raises
    [ValueError].  Texts in base 2 and 16 are not limited. *)
Definition int_max_str_digits : Z := 4300.

(** [int(text, 0)] on a text made of hexadecimal digits, after [0x] or
    not, which is what group 1 of [DEVICE_ADDR_RE] holds: a [0x] or [0b]
    literal, or a decimal one without superfluous leading zero and within
    the limit on its digits. *)
Definition int_base0 (text : string) : result Z :=
  match text with
  | String "0" (String "x" r) =>
      if negb (r =? "")%string && all_chars is_hex r
      then Ok (digits_value 16 0 r) else Raise ValueError
  | String "0" (String b r) =>
      if Ascii.eqb b "b" || Ascii.eqb b "B" then
        if negb (r =? "")%string && all_chars is_bin r
        then Ok (digits_value 2 0 r) else Raise ValueError
      else if all_chars (Ascii.eqb "0") (String b r)
              && (len text <=? int_max_str_digits)
      then Ok 0
      else Raise ValueError
  | EmptyString => Raise ValueError
  | _ =>
      if all_chars is_digit text && (len text <=? int_max_str_digits)
      then Ok (digits_value 10 0 text)
      else Raise ValueError
  end.

(** ** The declarative tree and the store *)

(** A Python list of command tuples: the identity of the list object and
    what it holds when the generator is called. *)
Record ListObj : Type := mkListObj {
  l_id : nat;
  l_items : list Command
}.

(** The tree given to [CodeGenerator]: the keys the generator knows by
    name, each absent or present, and in [t_items] every other key with
    the list it maps to, in the order of the dictionary. *)
Record Tree : Type := mkTree {
  t_callbacks : option (list (string * list Param));
  t_identification : option (list (Z * string));
  t_slave_id : option Z;
  t_buffer_size : option Z;
  t_mode : option string;
  t_namespace : option string;
  t_on_received : option string;
  t_items : list (string * ListObj)
}.

(** What the generator has written into objects of the caller:
    [st_pos] the [pos] attribute of matcher objects, [st_lists] the
    contents of list objects; [st_next] is the identity the next object
    created will get. *)
Record Store : Type := mkStore {
  st_pos : gmap nat Z;
  st_lists : gmap nat (list Command);
  st_next : nat
}.

(** The current contents of a list object. *)
Definition contents (lists : gmap nat (list Command)) (l : ListObj)
    : list Command :=
  default (l_items l) (lists !! l_id l).

(** [device.append(cmd)]. *)
Definition list_append (lists : gmap nat (list Command)) (l : ListObj)
    (cmd : Command) : gmap nat (list Command) :=
  <[l_id l := contents lists l ++ [cmd]]> lists.

(** ** MEI object codes and their categories *)

Definition VENDOR_NAME : Z := 0x00.
Definition PRODUCT_CODE : Z := 0x01.
Definition MAJOR_MINOR_REVISION : Z := 0x02.
Definition VENDOR_URL : Z := 0x03.
Definition PRODUCT_NAME : Z := 0x04.
Definition MODEL_NAME : Z := 0x05.
Definition USER_APPLICATION_NAME : Z := 0x06.

Definition BASIC_DEVICE_IDENTIFICATION : Z := 0x01.
Definition REGULAR_DEVICE_IDENTIFICATION : Z := 0x02.
Definition EXTENDED_DEVICE_IDENTIFICATION : Z := 0x03.

(** The dictionary [MEI_OBJECT_CATEGORY]. *)
Definition MEI_OBJECT_CATEGORY (code : Z) : option Z :=
  if (0x00 <=? code) && (code <=? 0x02) then Some BASIC_DEVICE_IDENTIFICATION
  else if (0x03 <=? code) && (code <=? 0x06) then Some REGULAR_DEVICE_IDENTIFICATION
  else if (0x80 <=? code) && (code <=? 0x87) then Some EXTENDED_DEVICE_IDENTIFICATION
  else None.

(** ** Construction of the generator *)

Definition set_callbacks (g : CodeGenerator) (c : list (string * list Param))
    : CodeGenerator :=
  mkCodeGenerator (states g) c (max_buf_size g) (on_ready_reply_callback g)
    (device_address g) (identification g) (slave_id g) (mode g) (namespace g)
    (conformity_level g).

Definition set_device_address (g : CodeGenerator) (a : option Z)
    : CodeGenerator :=
  mkCodeGenerator (states g) (callbacks g) (max_buf_size g)
    (on_ready_reply_callback g) a (identification g) (slave_id g) (mode g)
    (namespace g) (conformity_level g).

Definition set_conformity_level (g : CodeGenerator) (l : Z) : CodeGenerator :=
  mkCodeGenerator (states g) (callbacks g) (max_buf_size g)
    (on_ready_reply_callback g) (device_address g) (identification g)
    (slave_id g) (mode g) (namespace g) l.

(** [CodeGenerator.process_callbacks], from the callbacks found so far. *)
Fixpoint process_callbacks (callback_list acc : list (string * list Param))
    : result (list (string * list Param)) :=
  match callback_list with
  | [] => Ok acc
  | (cb, proto) :: rest =>
      if negb (valid_c_function_name cb) then
        Raise (ParsingException "Callback name is not a valid C function name")
      else process_callbacks rest (dict_set acc cb proto)
  end.

(** [sum(item.size for item in cmd if isinstance(item, Integral))]. *)
Definition command_size (cmd : Command) : Z :=
  sum (integral_sizes (chain_of_item <$> cmd)).

(** The loop of [__init__] that measures the commands: only the keys that
    [^device(@\d+)?$] matches are looked at. *)
Definition measure_commands (lists : gmap nat (list Command))
    (items : list (string * ListObj)) : Z :=
  foldl (fun acc kv =>
           if is_sized_device_key (fst kv) then
             foldl (fun acc cmd => Z.max acc (command_size cmd)) acc
               (contents lists (snd kv))
           else acc)
    0 items.

(** The loop of [process_devices] over the commands of one device. *)
Fixpoint process_commands (address_matcher : Matcher) (device_state : nat)
    (value : list Command) (g : CodeGenerator) (sigma : gmap nat Z)
    : gmap nat Z * result CodeGenerator :=
  match value with
  | [] => (sigma, Ok g)
  | command :: rest =>
      match process_sequence address_matcher device_state command g sigma with
      | (sigma', Ok g') =>
          process_commands address_matcher device_state rest g' sigma'
      | (sigma', Raise e) => (sigma', Raise e)
      end
  end.

(** The branch of [process_devices] for the key [device]. *)
Definition process_runtime_device (current_state : nat) (value : list Command)
    (g : CodeGenerator) (sigma : gmap nat Z)
    : gmap nat Z * result CodeGenerator :=
  let (g1, device_state) := new_state g "DEVICE" 1 in
  let address_matcher :=
    mkMatcher RuntimeDeviceAddress VNone
      (Some (s_name (state_at g1 device_state))) in
  let g2 :=
    add_transition g1 current_state
      (mkTransition address_matcher device_state false) in
  process_commands address_matcher device_state value g2 sigma.

(** The branch of [process_devices] for a key that starts with [device@]. *)
Definition process_addressed_device (current_state : nat) (key : string)
    (value : list Command) (g : CodeGenerator) (sigma : gmap nat Z)
    : gmap nat Z * result CodeGenerator :=
  match device_addr_search key with
  | None => (sigma, Raise (ParsingException "Malformed device address"))
  | Some group =>
      match int_base0 group with
      | Raise e => (sigma, Raise e)
      | Ok address =>
          let g := set_device_address g (Some address) in
          if 254 <? address then
            (sigma, Raise (ParsingException "device address must be <= 254"))
          else
            let (g1, device_state) := new_state g ("DEVICE_" +:+ str address) 1 in
            match Matcher_init U8 [AInt address]
                    (Some (s_name (state_at g1 device_state))) with
            | Raise e => (sigma, Raise e)
            | Ok address_matcher =>
                let g2 :=
                  add_transition g1 current_state
                    (mkTransition address_matcher device_state false) in
                process_commands address_matcher device_state value g2 sigma
            end
      end
  end.

(** The loop of [process_devices] over [tree.items()]. *)
Fixpoint process_items (lists : gmap nat (list Command)) (current_state : nat)
    (items : list (string * ListObj)) (g : CodeGenerator) (sigma : gmap nat Z)
    : gmap nat Z * result CodeGenerator :=
  match items with
  | [] => (sigma, Ok g)
  | (key, value) :: rest =>
      let value := contents lists value in
      let r :=
        if (key =? "device")%string
        then process_runtime_device current_state value g sigma
        else (sigma, Ok g) in
      match r with
      | (sigma, Raise e) => (sigma, Raise e)
      | (sigma, Ok g) =>
          let r :=
            if String.prefix "device@" key
            then process_addressed_device current_state key value g sigma
            else (sigma, Ok g) in
          match r with
          | (sigma, Raise e) => (sigma, Raise e)
          | (sigma, Ok g) => process_items lists current_state rest g sigma
          end
      end
  end.

(** [CodeGenerator.process_devices]. *)
Definition process_devices (lists : gmap nat (list Command)) (tree : Tree)
    (g : CodeGenerator) (sigma : gmap nat Z)
    : gmap nat Z * result CodeGenerator :=
  let (g1, current_state) := new_state g "DEVICE_ADDRESS" 0 in
  process_items lists current_state (t_items tree) g1 sigma.

(** A command tuple made of matcher objects created on the spot, the first
    of which gets identity [n], and a callback name. *)
Definition fresh_command (n : nat) (ms : list Matcher) (callback : string)
    : Command :=
  imap (fun i m => IMatcher (n + i) m) ms ++ [IStr callback].

(** The three command tuples appended when identification is active. *)
Definition report_slave_id_matchers : list Matcher :=
  [mkMatcher U8 (VInt 0x11) (Some "REPORT_SLAVE_ID")].

Definition read_device_identification_matchers : list Matcher :=
  [mkMatcher U8 (VInt 0x2B) (Some "ENCAPSULATED_INTERFACE_TRANSPORT");
   mkMatcher U8 (VInt 0x0E) (Some "READ_DEVICE_IDENTIFICATION");
   mkMatcher U8 (VRange 0x01 0x03) (Some "READ_DEVICE_ID_CODE");
   mkMatcher U8 VNone (Some "OBJECT_ID")].

Definition diagnostics_matchers : list Matcher :=
  [mkMatcher U8 (VInt 0x08) (Some "DIAGNOSTICS");
   mkMatcher U16 VNone (Some "SUBFUNCTION");
   mkMatcher U16 VNone (Some "DATA")].

(** The loop of [__init__] over [self.identification.keys()]. *)
Fixpoint conformity_loop (mode : string) (keys : list Z) (level : Z) : result Z :=
  match keys with
  | [] => Ok level
  | k :: rest =>
      match MEI_OBJECT_CATEGORY k with
      | None =>
          Raise (ParsingException
                   ("Invalid identification key " +:+ str k +:+ " in "
                    +:+ mode +:+ " mode"))
      | Some c => conformity_loop mode rest (Z.max level c)
      end
  end.

(** The list object the identification commands go to: the one under the
    first key that starts with [device@], else the one under [device]. *)
Definition identification_device (tree : Tree) : result ListObj :=
  match List.find (fun kv => String.prefix "device@" (fst kv)) (t_items tree) with
  | Some (_, device) => Ok device
  | None =>
      match dict_get (t_items tree) "device" with
      | Some device => Ok device
      | None => Raise (ParsingException "identification requires a 'device' node")
      end
  end.

(** The block of [__init__] guarded by
    [self.mode == "slave" and PRODUCT_CODE in self.identification]. *)
Definition inject_identification (tree : Tree) (g : CodeGenerator) (s : Store)
    : Store * result CodeGenerator :=
  match identification_device tree with
  | Raise e => (s, Raise e)
  | Ok device =>
      let n := st_next s in
      let s :=
        mkStore (st_pos s)
          (list_append (st_lists s) device
             (fresh_command n report_slave_id_matchers "on_report_slave_id"))
          (n + 1) in
      let g := set_callbacks g (dict_set (callbacks g) "on_report_slave_id" []) in
      match conformity_loop (mode g) (fst <$> identification g)
              (conformity_level g) with
      | Raise e => (s, Raise e)
      | Ok level =>
          let g := set_conformity_level g level in
          let s :=
            mkStore (st_pos s)
              (list_append (st_lists s) device
                 (fresh_command (n + 1) read_device_identification_matchers
                    "on_read_device_identification"))
              (n + 5) in
          let g :=
            set_callbacks g
              (dict_set (callbacks g) "on_read_device_identification"
                 [PNamed U8 "device_id"; PNamed U8 "object_id"]) in
          let s :=
            mkStore (st_pos s)
              (list_append (st_lists s) device
                 (fresh_command (n + 5) diagnostics_matchers "on_diagnostics"))
              (n + 8) in
          let g := set_callbacks g (dict_set (callbacks g) "on_diagnostics" []) in
          (s, Ok g)
      end
  end.

(** [CodeGenerator.__init__].  The store comes back also when the
    constructor raises: what it wrote before stays written. *)
Definition CodeGenerator_init (tree : Tree) (s : Store)
    : Store * result CodeGenerator :=
  let identification := default [] (t_identification tree) in
  let slave_id := default 0xFF (t_slave_id tree) in
  match t_callbacks tree with
  | None => (s, Raise (ParsingException "Callbacks are required"))
  | Some callback_list =>
      match process_callbacks callback_list [] with
      | Raise e => (s, Raise e)
      | Ok callbacks =>
          let max_buf_size := measure_commands (st_lists s) (t_items tree) in
          let max_buf_size := max_buf_size + 4 in
          let max_buf_size := Z.max max_buf_size (default 0 (t_buffer_size tree)) in
          let mode := default "slave" (t_mode tree) in
          if negb ((mode =? "slave")%string || (mode =? "master")%string) then
            (s, Raise (ParsingException "The mode must be 'master' or 'slave'"))
          else
            let namespace := default "slave" (t_namespace tree) in
            let g :=
              mkCodeGenerator [] callbacks max_buf_size (t_on_received tree)
                None identification slave_id mode namespace 0 in
            let r :=
              if (mode =? "slave")%string && dict_in identification PRODUCT_CODE
              then inject_identification tree g s
              else (s, Ok g) in
            match r with
            | (s, Raise e) => (s, Raise e)
            | (s, Ok g) =>
                let (sigma, r) := process_devices (st_lists s) tree g (st_pos s) in
                (mkStore sigma (st_lists s) (st_next s), r)
            end
      end
  end.

(** ** Emission *)

(** [s * n] for a text [s]. *)
Fixpoint repeat_str (s : string) (n : nat) : string :=
  match n with
  | O => ""
  | S n' => s +:+ repeat_str s n'
  end.

Definition dquote : string := String (ascii_of_nat 34) EmptyString.

Section Emitter.
(** The module-level [INDENT], which [main] overrides. *)
Variable INDENT : string.

(** [CodeGenerator.get_enums_text]. *)
Definition get_enums_text (g : CodeGenerator) (indent : nat) : string :=
  let tab := repeat_str INDENT indent in
  join ("," +:+ newline) ((fun state => tab +:+ s_name state) <$> states g).

(** The identifier that [get_report_slave_id_function] packs. *)
Definition report_slave_id_text (g : CodeGenerator) : result string :=
  match dict_get (identification g) PRODUCT_CODE with
  | None => Raise KeyError
  | Some id =>
      match dict_get (identification g) MODEL_NAME with
      | Some model => Ok (id +:+ "_" +:+ model)
      | None => Ok id
      end
  end.

(** The lines that [get_report_slave_id_function] joins with the
    indentation. *)
Definition report_slave_id_lines (g : CodeGenerator) (id : string)
    : list string :=
  [""; newline +:+ "/** Answer command 17 - Report slave id */" +:+ newline;
   "inline void on_report_slave_id() {" +:+ newline;
   "    Datagram::set_size(2); // Reset the count to 2 (ID + code)" +:+ newline;
   "    Datagram::pack<uint8_t>(" +:+ str (len id + 2) +:+ "); // Byte count"
     +:+ newline;
   "    Datagram::pack<uint8_t>(" +:+ str (slave_id g) +:+ "); // slave ID"
     +:+ newline;
   "    Datagram::pack<uint8_t>(0xFF); // Status OK" +:+ newline;
   "    Datagram::pack(" +:+ dquote +:+ id +:+ dquote +:+ "); // Function code"
     +:+ newline;
   "}"].

(** [CodeGenerator.get_report_slave_id_function]. *)
Definition get_report_slave_id_function (g : CodeGenerator) (level : nat)
    : result string :=
  if conformity_level g =? 0 then Ok ""
  else
    let* id := report_slave_id_text g in
    let tab := repeat_str INDENT level in
    Ok (join tab (report_slave_id_lines g id)).
End Emitter.

(** ** The command line *)

(** The parsed arguments: [-o/--output] and [-t/--tab-size]. *)
Record Args : Type := mkArgs {
  output : option string;
  tab_size : nat
}.

(** What a run of [main] leaves behind: the texts printed on standard
    output, those printed on standard error, the files written, and the
    exception that left [main], if one did. *)
Record Outcome : Type := mkOutcome {
  printed : list string;
  printed_err : list string;
  written : list (string * string);
  uncaught : option Exn
}.

(** The exit status of the interpreter once [main] is over: an exception
    nobody caught ends it with status 1, otherwise it ends with 0. *)
Definition exit_status (o : Outcome) : Z :=
  match uncaught o with
  | Some _ => 1
  | None => 0
  end.

Section Main.
(** [CodeGenerator.generate_code], given the indentation in force.  Its
    text is not needed below, only that it returns or raises. *)
Variable generate_code : string -> CodeGenerator -> result string.

(** [Modbus.main], after [parse_args]. *)
Definition main (args : Args) (modbus : Tree) (s : Store) : Store * Outcome :=
  let INDENT := repeat_str " " (tab_size args) in
  let (s', gen) := CodeGenerator_init modbus s in
  match (let* gen := gen in generate_code INDENT gen) with
  | Raise (ParsingException e) => (s', mkOutcome ["Error: " +:+ e] [] [] None)
  | Raise e => (s', mkOutcome [] [] [] (Some e))
  | Ok generated_code =>
      match output args with
      | Some (String c f) =>
          (s', mkOutcome [] [] [(String c f, generated_code)] None)
      | Some EmptyString | None =>
          (s', mkOutcome [generated_code] [] [] None)
      end
  end.
End Main.

(** ** Notions and scenarios used in the properties *)

(** Everything of the generator but its states and its device address. *)
Definition settings (g : CodeGenerator) :=
  (callbacks g, max_buf_size g, on_ready_reply_callback g, identification g,
   slave_id g, mode g, namespace g, conformity_level g).

(** The generator as [__init__] has it in front of the identification
    block. *)
Definition generator_before_identification (tree : Tree) (s : Store)
    (callbacks : list (string * list Param)) : CodeGenerator :=
  mkCodeGenerator [] callbacks
    (Z.max (measure_commands (st_lists s) (t_items tree) + 4)
       (default 0 (t_buffer_size tree)))
    (t_on_received tree) None (default [] (t_identification tree))
    (default 0xFF (t_slave_id tree)) (default "slave" (t_mode tree))
    (default "slave" (t_namespace tree)) 0.

(** The guard of the identification block. *)
Definition identification_active (tree : Tree) : bool :=
  (default "slave" (t_mode tree) =? "slave")%string
  && dict_in (default [] (t_identification tree)) PRODUCT_CODE.

(** Scenario S5: the product code [PC] and the model name [MX]. *)
Definition s5_tree : Tree :=
  mkTree (Some []) (Some [(PRODUCT_CODE, "PC"); (MODEL_NAME, "MX")]) None None
    None None None [("device", mkListObj 0 [])].

(** The generator [g] with the identification table [i] in place of its
    own. *)
Definition set_identification (g : CodeGenerator) (i : list (Z * string))
    : CodeGenerator :=
  mkCodeGenerator (states g) (callbacks g) (max_buf_size g)
    (on_ready_reply_callback g) (device_address g) i (slave_id g) (mode g)
    (namespace g) (conformity_level g).

(** [f] applied to what a computation returns. *)
Definition result_map {A B : Type} (f : A -> B) (r : result A) : result B :=
  match r with
  | Ok a => Ok (f a)
  | Raise e => Raise e
  end.

(** The outcome [r] of a step, had the generator held the table [i]. *)
Definition with_identification (i : list (Z * string))
    (r : gmap nat Z * result CodeGenerator) : gmap nat Z * result CodeGenerator :=
  (fst r, result_map (fun g => set_identification g i) (snd r)).

(** The tree without its [identification] key. *)
Definition without_identification (tree : Tree) : Tree :=
  mkTree (t_callbacks tree) None (t_slave_id tree) (t_buffer_size tree)
    (t_mode tree) (t_namespace tree) (t_on_received tree) (t_items tree).

(** A tree that declares the vendor name only. *)
Definition vendor_only_tree : Tree :=
  mkTree (Some [("on_read", [PType U16])]) (Some [(VENDOR_NAME, "Acme")]) None
    None None None None
    [("device@1",
      mkListObj 0
        [[IMatcher 0 (mkMatcher U8 (VInt 3) None);
          IMatcher 1 (mkMatcher U16 VNone None); IStr "on_read"]])].

(** A tree without the [callbacks] key. *)
Definition no_callbacks_tree : Tree :=
  mkTree None None None None None None None [("device@1", mkListObj 0 [])].

(** The test that [Matcher.to_code] renders, as a predicate on the value
    [c] read from the frame; [device_address] is the address set at run
    time. *)
Definition accepts (device_address : Z) (m : Matcher) (c : Z) : bool :=
  match m_cls m with
  | Crc => true
  | RuntimeDeviceAddress => c =? device_address
  | _ =>
      match m_value m with
      | VRange f t =>
          if (f =? 0) && bool_decide (signedness (m_cls m) = Unsigned)
          then c <=? t else (f <=? c) && (c <=? t)
      | VList l => existsb (fun v => c =? v) l
      | VNone => true
      | VInt v => c =? v
      end
  end.

(** Scenario S4: two commands of one device that start with [u8(5)] and
    with [u8([5, 6])]. *)
Definition overlapping_tree : Tree :=
  mkTree (Some [("on_a", []); ("on_b", [])]) None None None None None None
    [("device@1",
      mkListObj 0
        [[IMatcher 0 (mkMatcher U8 (VInt 5) None); IStr "on_a"];
         [IMatcher 1 (mkMatcher U8 (VList [5; 6]) None); IStr "on_b"]])].

(** Two commands of one device that end in the same callback. *)
Definition shared_callback_tree : Tree :=
  mkTree (Some [("cb", [])]) None None None None None None
    [("device@1",
      mkListObj 0
        [[IMatcher 0 (mkMatcher U8 (VInt 3) None); IStr "cb"];
         [IMatcher 1 (mkMatcher U8 (VInt 4) None); IStr "cb"]])].

(** A device under a key in hexadecimal, with one command of five bytes. *)
Definition hex_key_command : Command :=
  [IMatcher 0 (mkMatcher U8 (VInt 3) None);
   IMatcher 1 (mkMatcher U32 VNone None); IStr "cb"].

Definition hex_key_list : ListObj := mkListObj 0 [hex_key_command].

Definition hex_key_tree : Tree :=
  mkTree (Some [("cb", [PType U32])]) None None None None None None
    [("device@0x17", hex_key_list)].

(** A device with one command of one byte, and identification. *)
Definition small_command : Command :=
  [IMatcher 0 (mkMatcher U8 (VInt 3) None); IStr "cb"].

Definition small_list : ListObj := mkListObj 0 [small_command].

Definition small_identified_tree : Tree :=
  mkTree (Some [("cb", [])]) (Some [(PRODUCT_CODE, "PC")]) None None None None
    None [("device@1", small_list)].

(** The three command tuples of the identification block, for a store
    whose next identity is [n]. *)
Definition report_slave_id_command (n : nat) : Command :=
  fresh_command n report_slave_id_matchers "on_report_slave_id".

Definition read_device_identification_command (n : nat) : Command :=
  fresh_command (n + 1) read_device_identification_matchers
    "on_read_device_identification".

Definition diagnostics_command (n : nat) : Command :=
  fresh_command (n + 5) diagnostics_matchers "on_diagnostics".

(** The names the loop of [new_state] tries, in order. *)
Definition candidate (new_state_name : string) (k : nat) : string :=
  match k with
  | O => new_state_name
  | S _ => new_state_name +:+ "_" +:+ str (Z.of_nat k)
  end.

(** The matchers a command starts with, up to its first string. *)
Fixpoint leading_matchers (cmd : Command) : list Matcher :=
  match cmd with
  | IMatcher _ m :: rest => m :: leading_matchers rest
  | _ => []
  end.

(** The states reached from [s] over one transition whose matcher equals
    [m], and the state paths from [s] along the matchers [ms]: every
    transition with an equal matcher is followed. *)
Definition successors (g : CodeGenerator) (s : nat) (m : Matcher) : list nat :=
  t_next <$>
    List.filter (fun t => matcher_eqb (t_matcher t) m)
      (s_transition (state_at g s)).

Fixpoint paths (g : CodeGenerator) (s : nat) (ms : list Matcher)
    : list (list nat) :=
  match ms with
  | [] => [[]]
  | m :: ms' =>
      flat_map (fun n => cons n <$> paths g n ms') (successors g s m)
  end.

(** The path the decoder takes: [get_next_state_of] at every step. *)
Fixpoint walk (g : CodeGenerator) (s : nat) (ms : list Matcher)
    : option (list nat) :=
  match ms with
  | [] => Some []
  | m :: ms' =>
      match get_next_state_of (state_at g s) m with
      | Some n => cons n <$> walk g n ms'
      | None => None
      end
  end.

(** Two matchers agree structurally. *)
Definition same_matcher (a b : Matcher) : Prop := matcher_eqb a b = true.

(** No two transitions of a state carry equal matchers. *)
Definition sibling_unique (l : list Transition) : Prop :=
  forall i j ti tj,
    l !! i = Some ti -> l !! j = Some tj ->
    matcher_eqb (t_matcher ti) (t_matcher tj) = true -> i = j.

(** The shape of the graph while it is built: the initial state exists,
    transitions lead to states that exist and never back to the initial
    state, and below the initial state no two sibling transitions carry
    equal matchers. *)
Record graph_ok (g : CodeGenerator) : Prop := {
  ok_root : (0 < List.length (states g))%nat;
  ok_next : forall i s t,
    states g !! i = Some s -> t ∈ s_transition s ->
    (0 < t_next t < List.length (states g))%nat;
  ok_unique : forall i s,
    states g !! i = Some s -> i <> 0%nat -> sibling_unique (s_transition s)
}.

(** [g'] has the states of [g], each with its transitions and possibly
    more behind them. *)
Definition extends (g g' : CodeGenerator) : Prop :=
  forall i s, states g !! i = Some s ->
    exists s', states g' !! i = Some s'
               /\ s_transition s `prefix_of` s_transition s'.


(** The keys under which [process_devices] finds a device. *)
Definition is_device_key (key : string) : bool :=
  (key =? "device")%string || String.prefix "device@" key.

(** Scenario S2: two commands that share [(u8(0x03), u16(0, 0xFF))] and
    part on a third byte. *)
Definition shared_prefix_list : ListObj :=
  mkListObj 0
    [[IMatcher 0 (mkMatcher U8 (VInt 3) None);
      IMatcher 1 (mkMatcher U16 (VRange 0 0xFF) None);
      IMatcher 2 (mkMatcher U8 (VInt 1) None); IStr "on_a"];
     [IMatcher 3 (mkMatcher U8 (VInt 3) None);
      IMatcher 4 (mkMatcher U16 (VRange 0 0xFF) None);
      IMatcher 5 (mkMatcher U8 (VInt 2) None); IStr "on_b"]].

Definition shared_prefix_tree : Tree :=
  mkTree (Some [("on_a", []); ("on_b", [])]) None None None None None None
    [("device@1", shared_prefix_list)].

(** ** The shape of the automaton *)

(** The matcher of the CRC tail, [Crc(None)]. *)
Definition crc_tail : Matcher := mkMatcher Crc VNone None.

(** What the constructor keeps true of the graph while it builds it.  The
    initial state is a plain state at position 0.  A transition leads to a
    state created after its source, and no two transitions lead to the same
    state.  A transition into a plain state advances the position by the
    size of its matcher; a transition into a state of a call carries the
    CRC matcher.  A state of a call sits at position 0 in slave mode, is
    named after a callback, and its operation is the no-op or carries the
    prototype declared for that callback.  Plain states have pairwise
    different names. *)
Record graph_shape (g : CodeGenerator) : Prop := {
  shape_root : exists s,
    states g !! 0%nat = Some s /\ s_pos s = 0 /\ s_op s = None;
  shape_forward : forall i s t,
    states g !! i = Some s -> t ∈ s_transition s ->
    (i < t_next t < List.length (states g))%nat;
  shape_incoming : forall i j s s' k k' t t',
    states g !! i = Some s -> states g !! j = Some s' ->
    s_transition s !! k = Some t -> s_transition s' !! k' = Some t' ->
    t_next t = t_next t' -> i = j /\ k = k';
  shape_pos : forall i s t s',
    states g !! i = Some s -> t ∈ s_transition s ->
    states g !! t_next t = Some s' -> s_op s' = None ->
    s_pos s' = s_pos s + m_size (t_matcher t);
  shape_crc : forall i s t s' op,
    states g !! i = Some s -> t ∈ s_transition s ->
    states g !! t_next t = Some s' -> s_op s' = Some op ->
    t_matcher t = crc_tail;
  shape_terminal : forall i s op,
    states g !! i = Some s -> s_op s = Some op ->
    s_pos s = 0 /\ s_mode s = "slave"
    /\ exists command_name,
         s_name s = "RDY_TO_CALL__" +:+ upper command_name
         /\ (op = NoOperation
             \/ exists prototype chain,
                  op = Operation command_name prototype chain
                  /\ dict_get (callbacks g) command_name = Some prototype);
  shape_names : forall i j s s',
    states g !! i = Some s -> states g !! j = Some s' ->
    s_op s = None -> s_op s' = None -> s_name s = s_name s' -> i = j
}.

(** The states of a call among the states of a generator. *)
Definition is_operation_state (s : State) : bool :=
  match s_op s with
  | Some _ => true
  | None => false
  end.

Definition operation_states (g : CodeGenerator) : list State :=
  List.filter is_operation_state (states g).

(** The number of commands that [process_devices] goes through: those of
    the lists under the keys of devices. *)
Fixpoint count_commands (lists : gmap nat (list Command))
    (items : list (string * ListObj)) : nat :=
  match items with
  | [] => 0
  | (key, l) :: rest =>
      ((if is_device_key key then List.length (contents lists l) else 0)
       + count_commands lists rest)%nat
  end.

(** A tree whose device key gives the address with a leading zero. *)
Definition leading_zero_tree : Tree :=
  mkTree (Some [("cb", [])]) None None None None None None
    [("device@017", mkListObj 0 [small_command])].

(** ** The other emitters *)

Definition PRIVATE_OBJECTS_0 : Z := 0x80.
Definition PRIVATE_OBJECTS_1 : Z := 0x81.
Definition PRIVATE_OBJECTS_2 : Z := 0x82.
Definition PRIVATE_OBJECTS_3 : Z := 0x83.
Definition PRIVATE_OBJECTS_4 : Z := 0x84.
Definition PRIVATE_OBJECTS_5 : Z := 0x85.
Definition PRIVATE_OBJECTS_6 : Z := 0x86.
Definition PRIVATE_OBJECTS_7 : Z := 0x87.

(** [MEI_OBJECT_CATEGORY.items()], in the order of the dictionary. *)
Definition MEI_OBJECT_CATEGORY_items : list (Z * Z) :=
  [(VENDOR_NAME, BASIC_DEVICE_IDENTIFICATION);
   (PRODUCT_CODE, BASIC_DEVICE_IDENTIFICATION);
   (MAJOR_MINOR_REVISION, BASIC_DEVICE_IDENTIFICATION);
   (VENDOR_URL, REGULAR_DEVICE_IDENTIFICATION);
   (PRODUCT_NAME, REGULAR_DEVICE_IDENTIFICATION);
   (MODEL_NAME, REGULAR_DEVICE_IDENTIFICATION);
   (USER_APPLICATION_NAME, REGULAR_DEVICE_IDENTIFICATION);
   (PRIVATE_OBJECTS_0, EXTENDED_DEVICE_IDENTIFICATION);
   (PRIVATE_OBJECTS_1, EXTENDED_DEVICE_IDENTIFICATION);
   (PRIVATE_OBJECTS_2, EXTENDED_DEVICE_IDENTIFICATION);
   (PRIVATE_OBJECTS_3, EXTENDED_DEVICE_IDENTIFICATION);
   (PRIVATE_OBJECTS_4, EXTENDED_DEVICE_IDENTIFICATION);
   (PRIVATE_OBJECTS_5, EXTENDED_DEVICE_IDENTIFICATION);
   (PRIVATE_OBJECTS_6, EXTENDED_DEVICE_IDENTIFICATION);
   (PRIVATE_OBJECTS_7, EXTENDED_DEVICE_IDENTIFICATION)].

(** [d[k]] read: a missing key raises [KeyError]. *)
Definition dict_item {K V : Type} `{EqDecision K} (d : list (K * V)) (k : K)
    : result V :=
  match dict_get d k with
  | Some v => Ok v
  | None => Raise KeyError
  end.

(** A hexadecimal digit in lower case. *)
Definition hex_digit (d : Z) : ascii :=
  if d <? 10 then ascii_of_nat (Z.to_nat (48 + d))
  else ascii_of_nat (Z.to_nat (87 + d)).

(** The hexadecimal digits of [n] in front of [acc]; [n] divisions at
    most are needed. *)
Fixpoint hex_go (fuel : nat) (n : Z) (acc : string) : string :=
  match fuel with
  | O => acc
  | S fuel' =>
      if n =? 0 then acc
      else hex_go fuel' (n / 16) (String (hex_digit (n mod 16)) acc)
  end.

(** [f"{n:02x}"] for an integer that is not negative, which the object
    codes are. *)
Definition format_02x (n : Z) : string :=
  let digits := if n =? 0 then "0" else hex_go (Z.to_nat n) n "" in
  if len digits <? 2 then "0" +:+ digits else digits.

Module Emit.
Section Text.
(** The module-level [INDENT]. *)
Variable INDENT : string.

(** [CodeGenerator.get_device_address]. *)
Definition get_device_address (g : CodeGenerator) (indent : nat) : string :=
  let tab := repeat_str INDENT indent in
  match device_address g with
  | None =>
      "///< Runtime ID. Set-up before starting the modbus" +:+ newline +:+ tab
      +:+ "inline static uint8_t device_address = 255;"
  | Some address =>
      "///< Device ID" +:+ newline +:+ tab
      +:+ "static constexpr auto device_address = uint8_t{" +:+ str address
      +:+ "};"
  end.

(** [CodeGenerator.set_device_address]. *)
Definition set_device_address (g : CodeGenerator) (indent : nat) : string :=
  match device_address g with
  | None =>
      let tab := repeat_str INDENT indent in
      "///< Set the device address" +:+ newline
      +:+ (tab +:+ "static inline void set_device_address(uint8_t new_address) {"
           +:+ newline)
      +:+ (tab +:+ INDENT +:+ "device_address = new_address;" +:+ newline)
      +:+ (tab +:+ "}")
  | Some _ => ""
  end.

(** [CodeGenerator.get_ready_reply_callback]: a callback that is [None]
    or the empty text counts as absent. *)
Definition get_ready_reply_callback (g : CodeGenerator) (indent : nat)
    : string :=
  match on_ready_reply_callback g with
  | Some (String c name) =>
      String c name +:+ "(std::string_view{(char *)buffer, cnt});"
  | Some EmptyString | None => ""
  end.

(** [State.to_code_case]. *)
Definition to_code_case (state : State) (indent : nat) : string :=
  repeat_str INDENT indent +:+ "case state_t::" +:+ s_name state +:+ ":"
  +:+ newline.

(** [CodeGenerator.get_incomplete_text]. *)
Definition get_incomplete_text (g : CodeGenerator) (indent : nat) : string :=
  foldl (fun state_code state =>
           if negb (is_operation_state state)
           then state_code +:+ to_code_case state (indent + 1)
           else state_code)
    "" (states g).

(** [OperationState.to_code]. *)
Definition OperationState_to_code (op : Op) (indent : nat) : result string :=
  let tab := repeat_str INDENT indent in
  let* code := Op_to_code op in
  Ok (tab +:+ code +:+ newline +:+ tab +:+ "break;" +:+ newline).

(** The loop of [get_callbacks_text]. *)
Fixpoint callbacks_text_loop (indent : nat) (l : list State)
    (state_code : string) : result string :=
  match l with
  | [] => Ok state_code
  | state :: rest =>
      match s_op state with
      | Some op =>
          let state_code := state_code +:+ to_code_case state (indent + 1) in
          let* code := OperationState_to_code op (indent + 2) in
          callbacks_text_loop indent rest (state_code +:+ code)
      | None => callbacks_text_loop indent rest state_code
      end
  end.

(** [CodeGenerator.get_callbacks_text]. *)
Definition get_callbacks_text (g : CodeGenerator) (indent : nat)
    : result string :=
  callbacks_text_loop indent (states g) "".

(** The inner loop of [get_prototypes], over [enumerate(proto)] from
    [cnt] on; [proto_len] is [len(proto)]. *)
Fixpoint prototype_loop (proto_len cnt : Z) (proto : list Param)
    (retval : string) : result string :=
  match proto with
  | [] => Ok retval
  | param :: rest =>
      let param_name :=
        match param with
        | PNamed _ param_name => " " +:+ param_name
        | PType _ => ""
        end in
      let comma := if 1 <? proto_len - cnt then ", " else "" in
      let* v := Matcher_init (param_cls param) [AInt 0] None in
      prototype_loop proto_len (cnt + 1) rest
        (retval +:+ (ctype (m_cls v) +:+ param_name +:+ comma))
  end.

(** The outer loop of [get_prototypes], over [self.callbacks.items()]. *)
Fixpoint prototypes_loop (tab : string) (l : list (string * list Param))
    (retval : string) : result string :=
  match l with
  | [] => Ok retval
  | (name, proto) :: rest =>
      let retval := retval +:+ (tab +:+ "void " +:+ name +:+ "(") in
      let* retval := prototype_loop (llen proto) 0 proto retval in
      let retval := retval +:+ (");" +:+ newline) in
      prototypes_loop tab rest retval
  end.

(** [CodeGenerator.get_prototypes]. *)
Definition get_prototypes (g : CodeGenerator) (indent : nat) : result string :=
  let tab := repeat_str INDENT indent in
  let* retval := prototypes_loop tab (callbacks g) "" in
  match on_ready_reply_callback g with
  | Some (String c name) =>
      Ok (retval +:+ (tab +:+ "void " +:+ String c name +:+ "(std::string_view);"))
  | Some EmptyString | None => Ok retval
  end.

(** The helper [pack] of [get_read_device_identification].  Its text
    names [key], the variable of the loop around the call, and not its own
    argument [code]. *)
Definition pack (g : CodeGenerator) (t2 : string) (key code : Z) : string :=
  let data := default "" (dict_get (identification g) code) in
  join t2
    [""; "Datagram::pack<uint8_t>(0x" +:+ format_02x key +:+ "); // Object code"
           +:+ newline;
     "Datagram::pack<uint8_t>(" +:+ str (len data)
       +:+ "); // Length of the object" +:+ newline;
     "Datagram::pack(" +:+ dquote +:+ data +:+ dquote +:+ ");" +:+ newline].

(** The loop of [get_read_device_identification] over the object codes:
    [all_objects] and [device_id_count], by category. *)
Definition collect_step (g : CodeGenerator) (t2 : string)
    (acc : list (Z * list string) * list (Z * Z)) (item : Z * Z)
    : list (Z * list string) * list (Z * Z) :=
  let (all_objects, device_id_count) := acc in
  let (key, category) := item in
  if (category <=? conformity_level g) && dict_in (identification g) key then
    let all_objects :=
      dict_set all_objects category
        (default [] (dict_get all_objects category) ++ [pack g t2 key key]) in
    let device_id_count :=
      dict_set device_id_count category
        (default 0 (dict_get device_id_count category) + 1) in
    (all_objects, device_id_count)
  else (all_objects, device_id_count).

Definition collect_objects (g : CodeGenerator) (t2 : string)
    : list (Z * list string) * list (Z * Z) :=
  foldl (collect_step g t2) ([], []) MEI_OBJECT_CATEGORY_items.

(** [CodeGenerator.get_read_device_identification]. *)
Definition get_read_device_identification (g : CodeGenerator) (level : nat)
    : result string :=
  if conformity_level g =? 0 then Ok ""
  else
    let t0 := repeat_str INDENT level in
    let t1 := repeat_str INDENT (level + 1) in
    let t2 := repeat_str INDENT (level + 2) in
    let retval :=
      join t0
        [""; "/** Answer command 43/14 */" +:+ newline;
         " inline void on_read_device_identification(uint8_t device_id, uint8_t object_id) {"
           +:+ newline;
         "    Datagram::set_size(4); // Reset the count to 4 (addr/func/mei_type/DevId)"
           +:+ newline;
         "    Datagram::pack<uint8_t>(" +:+ str (conformity_level g)
           +:+ "); // Conformity level" +:+ newline;
         "    Datagram::pack<uint8_t>(0); // No more to follow" +:+ newline
           +:+ newline +:+ "    Datagram::pack<uint8_t>(0); // Next object ID"
           +:+ newline +:+ newline] in
    let (all_objects, device_id_count) := collect_objects g t2 in
    let* retval :=
      if conformity_level g =? BASIC_DEVICE_IDENTIFICATION then
        let* basic := dict_item all_objects BASIC_DEVICE_IDENTIFICATION in
        Ok (retval
            +:+ join t1
                  ([""; "Datagram::pack<uint8_t>(0x03); // 3 objects" +:+ newline]
                   ++ basic))
      else if conformity_level g =? REGULAR_DEVICE_IDENTIFICATION then
        let* count := dict_item device_id_count REGULAR_DEVICE_IDENTIFICATION in
        let* basic := dict_item all_objects BASIC_DEVICE_IDENTIFICATION in
        let* regular := dict_item all_objects REGULAR_DEVICE_IDENTIFICATION in
        Ok (retval
            +:+ join t1
                  ([""; "if (device_id == 1) { // Device ID 1 has a fixed number of objects"
                          +:+ newline;
                    "   Datagram::pack<uint8_t>(0x03); // 3 objects" +:+ newline;
                    "} else {" +:+ newline;
                    "   Datagram::pack<uint8_t>(" +:+ str (3 + count) +:+ "); // "
                      +:+ str (3 + count) +:+ " objects" +:+ newline;
                    "}" +:+ newline +:+ newline;
                    "if (device_id == 1) {" +:+ newline]
                   ++ basic ++ ["} else {" +:+ newline] ++ regular
                   ++ ["}" +:+ newline]))
      else if conformity_level g =? EXTENDED_DEVICE_IDENTIFICATION then
        let* l1c := dict_item device_id_count BASIC_DEVICE_IDENTIFICATION in
        let* l2c := dict_item device_id_count REGULAR_DEVICE_IDENTIFICATION in
        let* l3c := dict_item device_id_count EXTENDED_DEVICE_IDENTIFICATION in
        let retval :=
          retval
          +:+ join t1
                [""; "if (device_id == 1) { // Device ID 1 has a fixed number of objects"
                       +:+ newline;
                 "   Datagram::pack<uint8_t>(" +:+ str l1c +:+ "); // " +:+ str l1c
                   +:+ " objects" +:+ newline;
                 "} else if (device_id == 2) {" +:+ newline;
                 "   Datagram::pack<uint8_t>(" +:+ str (l1c + l2c) +:+ "); // "
                   +:+ str l1c +:+ " + " +:+ str l2c +:+ " objects" +:+ newline;
                 "} else {" +:+ newline;
                 "   Datagram::pack<uint8_t>(" +:+ str (l1c + l2c + l3c)
                   +:+ "); // " +:+ str l1c +:+ " +  " +:+ str l2c +:+ " + "
                   +:+ str l3c +:+ " objects" +:+ newline;
                 "}" +:+ newline +:+ newline;
                 "if (device_id >= 1) {" +:+ newline] in
        let* basic := dict_item all_objects BASIC_DEVICE_IDENTIFICATION in
        let retval := retval +:+ join "" ("" :: basic) in
        let retval := retval +:+ (t1 +:+ "}" +:+ newline +:+ newline) in
        let retval := retval +:+ (t1 +:+ "if (device_id >= 2) {" +:+ newline) in
        let* regular := dict_item all_objects REGULAR_DEVICE_IDENTIFICATION in
        let retval := retval +:+ join "" ("" :: regular) in
        let retval := retval +:+ (t1 +:+ "}" +:+ newline +:+ newline) in
        let retval := retval +:+ (t1 +:+ "if (device_id == 3) {" +:+ newline) in
        let* extended := dict_item all_objects EXTENDED_DEVICE_IDENTIFICATION in
        let retval := retval +:+ join "" ("" :: extended) in
        let retval := retval +:+ (t1 +:+ "}" +:+ newline) in
        Ok retval
      else Ok retval in
    Ok (retval +:+ join t0 [""; "}" +:+ newline]).
End Text.
End Emit.

(** An identification table holds an object of category [c]. *)
Definition has_category (i : list (Z * string)) (c : Z) : bool :=
  existsb (fun kv => bool_decide (MEI_OBJECT_CATEGORY (fst kv) = Some c)) i.

(** A tree that declares the product code and a private object, and no
    object of the regular category. *)
Definition private_object_tree : Tree :=
  mkTree (Some [("cb", [])])
    (Some [(PRODUCT_CODE, "PC"); (PRIVATE_OBJECTS_0, "x")]) None None None None
    None [("device@1", small_list)].

(** The address matcher and the generator of a device at address 1 that
    has no command yet. *)
Definition device_1_matcher : Matcher :=
  mkMatcher U8 (VInt 1) (Some "DEVICE_1").

Definition device_1_generator : CodeGenerator :=
  mkCodeGenerator
    [mkState "DEVICE_ADDRESS" [mkTransition device_1_matcher 1 false] 0 "slave"
       None;
     mkState "DEVICE_1" [] 1 "slave" None]
    [("cb", [])] 5 None (Some 1) [] 0xFF "slave" "slave" 0.

(** A tree whose device lists the command [(u8(3), "cb")] twice. *)
Definition repeated_command_tree : Tree :=
  mkTree (Some [("cb", [])]) None None None None None None
    [("device@1",
      mkListObj 0
        [[IMatcher 0 (mkMatcher U8 (VInt 3) None); IStr "cb"];
         [IMatcher 1 (mkMatcher U8 (VInt 3) None); IStr "cb"]])].

(** The exceptions that can leave the constructor. *)
Definition constructor_exception (e : Exn) : Prop :=
  match e with
  | ParsingException _ | ValueError | AttributeError | IndexError => True
  | KeyError | AssertionError => False
  end.

(** A tree with identification that declares [on_diagnostics] itself, with
    a parameter. *)
Definition own_diagnostics_tree : Tree :=
  mkTree (Some [("cb", []); ("on_diagnostics", [PType U16])])
    (Some [(PRODUCT_CODE, "PC")]) None None None None None
    [("device@1", small_list)].

(** ** The writes of the constructor *)

(** The matcher objects a command starts with, up to its first string,
    each with its identity. *)
Fixpoint leading_items (cmd : Command) : list (nat * Matcher) :=
  match cmd with
  | IMatcher oid m :: rest => (oid, m) :: leading_items rest
  | _ => []
  end.

(** The assignments [matcher.pos = pos] of the loop of [process_sequence]
    on a command that it inserts: one for each matcher the command starts
    with, in their order, [pos] being the number of bytes up to and
    including the matcher (the address byte counted first). *)
Fixpoint write_positions (pos : Z) (rest : Command) (sigma : gmap nat Z)
    : gmap nat Z :=
  match rest with
  | IMatcher oid m :: rest' =>
      write_positions (pos + m_size m) rest' (<[oid := pos + m_size m]> sigma)
  | _ => sigma
  end.

(** The same for the commands of a device, and for the devices of a tree,
    in the order in which [process_devices] goes through them. *)
Definition written_by_commands (value : list Command) (sigma : gmap nat Z)
    : gmap nat Z :=
  foldl (fun sigma cmd => write_positions 1 cmd sigma) sigma value.

Definition written_by_items (lists : gmap nat (list Command))
    (items : list (string * ListObj)) (sigma : gmap nat Z) : gmap nat Z :=
  foldl (fun sigma kv =>
           if is_device_key (fst kv)
           then written_by_commands (contents lists (snd kv)) sigma
           else sigma)
    sigma items.


(** * Properties *)

(** ** The fit check *)

(** Every parameter type but [f32] can be instantiated with [0]. *)
Lemma param_instance (p : MatcherClass) :
  p <> F32 -> Matcher_init p [AInt 0] None = Ok (mkMatcher p (VInt 0) None).
Proof. destruct p; intros Hp; try reflexivity; contradiction. Qed.

Lemma cls_min_not_f32 (p : MatcherClass) (lo : Z) : cls_min p = Ok lo -> p <> F32.
Proof. intros H ->. discriminate H. Qed.

(** The test of the loop of [fits] over a list, as a proposition. *)
Lemma forallb_in_range (lo hi : Z) (l : list Z) :
  forallb (fun t => negb ((t <? lo) || (hi <? t))) l
  = bool_decide (Forall (fun t => lo <= t <= hi) l).
Proof.
  apply eq_true_iff_eq. rewrite bool_decide_eq_true.
  rewrite forallb_forall, List.Forall_forall.
  split; intros H t Ht; specialize (H t Ht).
  - destruct (Z.ltb_spec t lo), (Z.ltb_spec hi t); simpl in H; try discriminate; lia.
  - destruct (Z.ltb_spec t lo), (Z.ltb_spec hi t); simpl; try reflexivity; lia.
Qed.

(** [fits] on a parameter type that has a range, unfolded. *)
Lemma fits_unfold (m : Matcher) (p : MatcherClass) (lo hi : Z) :
  cls_min p = Ok lo -> cls_max p = Ok hi ->
  fits m p =
  Ok (if m_size m <=? size_of p then true
      else match m_value m with
           | VRange f t => (lo <=? f) && (t <=? hi)
           | VList l => forallb (fun t => negb ((t <? lo) || (hi <? t))) l
           | VNone | VInt _ => true
           end).
Proof.
  intros Hlo Hhi. unfold fits.
  rewrite (param_instance p (cls_min_not_f32 p lo Hlo)). simpl.
  unfold m_size at 2. simpl. rewrite Hlo, Hhi. simpl.
  destruct (m_size m <=? size_of p); [reflexivity|].
  destruct (m_value m); reflexivity.
Qed.

(** C2, as the code has it.  For a parameter type [p] with a range
    [lo..hi] (every type but [f32]): a matcher fits when [p] is at least as
    wide.  When [p] is narrower, a wildcard and a single value always fit;
    a list fits exactly when all its elements are within [lo..hi]; a range
    fits when [lo <= from] and [to <= hi], and only if [lo <= from] and
    [to <= hi + 1], where [hi + 1] is [2^pw] for an unsigned [p]. *)
Theorem fits_characterisation (m : Matcher) (p : MatcherClass) (lo hi : Z) :
  cls_min p = Ok lo -> cls_max p = Ok hi ->
  (m_size m <= size_of p -> fits m p = Ok true) /\
  (size_of p < m_size m ->
   match m_value m with
   | VNone | VInt _ => fits m p = Ok true
   | VList l => fits m p = Ok (bool_decide (Forall (fun t => lo <= t <= hi) l))
   | VRange f t =>
       (lo <= f /\ t <= hi -> fits m p = Ok true) /\
       (fits m p = Ok true -> lo <= f /\ t <= hi + 1)
   end).
Proof.
  intros Hlo Hhi. rewrite (fits_unfold m p lo hi Hlo Hhi). split.
  - intros Hle. apply Z.leb_le in Hle. rewrite Hle. reflexivity.
  - intros Hlt. apply Z.leb_gt in Hlt. rewrite Hlt.
    destruct (m_value m) as [|v|l|f t]; try reflexivity.
    + rewrite forallb_in_range. reflexivity.
    + split.
      * intros [Hf Ht]. apply Z.leb_le in Hf, Ht. rewrite Hf, Ht. reflexivity.
      * intros H. injection H as H. apply andb_true_iff in H as [Hf Ht].
        apply Z.leb_le in Hf, Ht. lia.
Qed.

(** The theorem at the matcher [u16([1, 2])] and the parameter type [u8]. *)
Lemma fits_characterisation_witness :
  cls_min U8 = Ok 0 /\ cls_max U8 = Ok 255 /\
  fits (mkMatcher U16 (VList [1; 2]) None) U8
  = Ok (bool_decide (Forall (fun t => 0 <= t <= 255) [1; 2])).
Proof.
  split; [reflexivity|]. split; [reflexivity|].
  apply (proj2 (fits_characterisation (mkMatcher U16 (VList [1; 2]) None) U8
                  0 255 eq_refl eq_refl)).
  reflexivity.
Defined.

(** The wildcard [u16()] fits a parameter of type [u8], which is narrower. *)
Lemma fits_any_narrower :
  size_of U8 < m_size (mkMatcher U16 VNone None) /\
  fits (mkMatcher U16 VNone None) U8 = Ok true.
Proof. split; reflexivity. Qed.

(** The range [u16(0, 0x100)] against [u8]: [to] is compared with the
    largest value of the parameter, 255. *)
Example fits_range_boundary :
  fits (mkMatcher U16 (VRange 0 0x100) None) U8 = Ok false
  /\ fits (mkMatcher U16 (VRange 0 0xFF) None) U8 = Ok true
  /\ fits (mkMatcher U16 (VRange 0 0x200) None) U8 = Ok false.
Proof. repeat split; reflexivity. Qed.

(** A parameter of type [f32] cannot be instantiated: the check raises. *)
Example fits_f32_parameter (m : Matcher) : fits m F32 = Raise ValueError.
Proof. reflexivity. Qed.

(** ** Offsets of the typed extractions *)

Lemma fits_true_not_f32 (m : Matcher) (p : MatcherClass) :
  fits m p = Ok true -> p <> F32.
Proof. intros H ->. discriminate H. Qed.

(** Every class is 1, 2 or 4 bytes wide, so a decoder exists. *)
Lemma extraction_defined (p : MatcherClass) (offset : Z) :
  is_Some (extraction (size_of p) offset).
Proof. destruct p; eexists; reflexivity. Qed.

Lemma sum_app (l k : list Z) : sum (l ++ k) = sum l + sum k.
Proof. unfold sum. induction l as [|x l IH]; simpl; [reflexivity|]. rewrite IH. lia. Qed.

Lemma sum_reverse (l : list Z) : sum (reverse l) = sum l.
Proof.
  induction l as [|x l IH]; [reflexivity|].
  rewrite reverse_cons, sum_app, IH. unfold sum. simpl. lia.
Qed.

Lemma integral_sizes_reverse (l : list ChainItem) :
  integral_sizes (reverse l) = reverse (integral_sizes l).
Proof.
  unfold integral_sizes. induction l as [|x l IH]; [reflexivity|].
  rewrite reverse_cons, omap_app, IH. simpl.
  destruct x; simpl; [rewrite reverse_cons|rewrite app_nil_r]; reflexivity.
Qed.

(** One round of the loop on a matcher that fits. *)
Lemma to_code_param_fits (name : string) (nargs pos : Z) (param : Param)
    (m : Matcher) (chain : list ChainItem) (values_str : list string) :
  fits m (param_cls param) = Ok true ->
  exists e,
    extraction (size_of (param_cls param))
      (sum (integral_sizes chain) + (m_size m - size_of (param_cls param)))
    = Some e /\
    to_code_param name nargs pos param (CMatcher m :: chain) values_str
    = Ok (chain, e :: values_str).
Proof.
  intros Hfit.
  destruct (extraction_defined (param_cls param)
              (sum (integral_sizes chain)
               + (m_size m - size_of (param_cls param)))) as [e He].
  exists e. split; [exact He|].
  unfold to_code_param.
  rewrite (param_instance _ (fits_true_not_f32 _ _ Hfit)). simpl.
  rewrite Hfit. simpl. unfold m_size in *. simpl. rewrite He. reflexivity.
Qed.

(** The loop, with the chain and the prototype as it holds them (both in
    reverse): round [i] pops item [i] and sums what is behind it. *)
Lemma to_code_loop_offsets (name : string) (nargs : Z)
    (rprototype : list Param) :
  forall (rchain : list ChainItem) (pos : Z) (acc : list string),
  (forall i param, rprototype !! i = Some param ->
     exists m, rchain !! i = Some (CMatcher m)
               /\ fits m (param_cls param) = Ok true) ->
  exists vs,
    to_code_loop name nargs pos rprototype rchain acc = Ok (reverse vs ++ acc)
    /\ List.length vs = List.length rprototype
    /\ forall i param m,
         rprototype !! i = Some param -> rchain !! i = Some (CMatcher m) ->
         vs !! i
         = extraction (size_of (param_cls param))
             (sum (integral_sizes (drop (S i) rchain))
              + (m_size m - size_of (param_cls param))).
Proof.
  induction rprototype as [|param rest IH]; intros rchain pos acc Hall.
  - exists []. split; [reflexivity|]. split; [reflexivity|].
    intros i p m Hp. discriminate Hp.
  - destruct (Hall 0%nat param eq_refl) as (m & Hm & Hfit).
    destruct rchain as [|item chain]; [discriminate Hm|].
    simpl in Hm. injection Hm as ->.
    destruct (to_code_param_fits name nargs pos param m chain acc Hfit)
      as (e & He & Hstep).
    destruct (IH chain (pos + 1) (e :: acc)) as (vs & Hloop & Hlen & Hvs).
    { intros i p Hp. exact (Hall (S i) p Hp). }
    exists (e :: vs). split; [|split].
    + cbn [to_code_loop]. rewrite Hstep. cbn [bind fst snd]. rewrite Hloop.
      rewrite reverse_cons, <- app_assoc. reflexivity.
    + simpl. rewrite Hlen. reflexivity.
    + intros [|i] p m' Hp Hm'; simpl in Hp, Hm'.
      * injection Hp as <-. injection Hm' as <-.
        change (drop 1 (CMatcher m :: chain)) with chain.
        rewrite He. reflexivity.
      * exact (Hvs i p m' Hp Hm').
Qed.

(** C4.  The prototype is aligned with the tail of the capture chain:
    parameter [k] goes with chain item [base + k], where [base] is the
    number of chain items in excess.  When every parameter meets a matcher
    that fits, [to_code] returns the call, with one extraction per
    parameter; the offset of parameter [k] is the sum of the sizes of the
    chain items left once its own item is popped (the items before it),
    minus the width difference (parameter minus matcher), so that the
    extraction ends on the last byte of the matched field; the decoder is
    chosen by the width of the parameter. *)
Theorem to_code_offsets (name : string) (prototype : list Param)
    (chain : list ChainItem) :
  let base := (List.length chain - List.length prototype)%nat in
  (List.length prototype <= List.length chain)%nat ->
  (forall k param, prototype !! k = Some param ->
     exists m, chain !! (base + k)%nat = Some (CMatcher m)
               /\ fits m (param_cls param) = Ok true) ->
  exists values,
    Op_to_code (Operation name prototype chain)
    = Ok (name +:+ "(" +:+ join ", " values +:+ ");")
    /\ List.length values = List.length prototype
    /\ forall k param m,
         prototype !! k = Some param ->
         chain !! (base + k)%nat = Some (CMatcher m) ->
         let remaining := take (base + k) chain in
         let param_size := size_of (param_cls param) in
         let offset :=
           sum (integral_sizes remaining) - (param_size - m_size m) in
         values !! k = extraction param_size offset
         /\ offset + param_size = sum (integral_sizes remaining) + m_size m
         /\ (param_size = 1 ->
             values !! k = Some ("buffer[" +:+ str offset +:+ "]"))
         /\ (param_size = 2 ->
             values !! k = Some ("ntoh(" +:+ str offset +:+ ")"))
         /\ (param_size = 4 ->
             values !! k = Some ("ntohl(" +:+ str offset +:+ ")")).
Proof.
  intros base Hlen Hall.
  destruct (to_code_loop_offsets name (llen prototype) (reverse prototype)
              (reverse chain) 0 []) as (vs & Hloop & Hvlen & Hvs).
  { intros i param Hi. apply reverse_lookup_Some in Hi as [Hi Hlt].
    destruct (Hall _ _ Hi) as (m & Hm & Hfit). exists m. split; [|exact Hfit].
    apply reverse_lookup_Some. split; [|lia].
    rewrite <- Hm. f_equal. unfold base. lia. }
  rewrite length_reverse in Hvlen.
  exists (reverse vs). split; [|split].
  - unfold Op_to_code. rewrite Hloop, app_nil_r. reflexivity.
  - rewrite length_reverse. exact Hvlen.
  - intros k param m Hk Hm remaining param_size offset.
    assert (Hklt : (k < List.length prototype)%nat)
      by (apply lookup_lt_is_Some; eauto).
    assert (Hval : reverse vs !! k = extraction param_size offset).
    { rewrite reverse_lookup by lia. rewrite Hvlen.
      rewrite (Hvs (List.length prototype - S k)%nat param m).
      - unfold offset, remaining, param_size. f_equal.
        rewrite drop_reverse, integral_sizes_reverse, sum_reverse.
        replace (List.length chain - S (List.length prototype - S k))%nat
          with (base + k)%nat by (unfold base; lia).
        lia.
      - apply reverse_lookup_Some. split; [|lia].
        rewrite <- Hk. f_equal. lia.
      - apply reverse_lookup_Some. split; [|lia].
        rewrite <- Hm. f_equal. unfold base. lia. }
    split; [exact Hval|]. split; [unfold offset; lia|].
    rewrite Hval. unfold extraction.
    repeat split; intros ->; reflexivity.
Qed.

(** The theorem at the operation of a device at address 1 with the command
    [(u8(0x03), u16(0, 0xFF), "on_read")] and the callback
    [on_read: [u16]]: the call is [on_read(ntoh(2));]. *)
Lemma to_code_offsets_witness :
  exists values,
    Op_to_code
      (Operation "on_read" [PType U16]
         [CMatcher (mkMatcher U8 (VInt 1) (Some "DEVICE_1"));
          CMatcher (mkMatcher U8 (VInt 3) None);
          CMatcher (mkMatcher U16 (VRange 0 0xFF) None)])
    = Ok ("on_read" +:+ "(" +:+ join ", " values +:+ ");")
    /\ values !! 0%nat = Some "ntoh(2)".
Proof.
  destruct (to_code_offsets "on_read" [PType U16]
              [CMatcher (mkMatcher U8 (VInt 1) (Some "DEVICE_1"));
               CMatcher (mkMatcher U8 (VInt 3) None);
               CMatcher (mkMatcher U16 (VRange 0 0xFF) None)])
    as (values & Hcode & _ & Hoff).
  - simpl. lia.
  - intros [|k] param Hk; [|discriminate Hk]. injection Hk as <-.
    eexists. split; reflexivity.
  - exists values. split; [exact Hcode|].
    destruct (Hoff 0%nat (PType U16) (mkMatcher U16 (VRange 0 0xFF) None)
                eq_refl eq_refl) as (_ & _ & _ & H2 & _).
    exact (H2 eq_refl).
Defined.

(** A parameter narrower than its field reads the last byte of the field:
    a [u16] field behind the address and the function code, given to a
    [u8] parameter, is read at offset 3. *)
Example to_code_narrower_parameter :
  Op_to_code
    (Operation "cb" [PType U8]
       [CMatcher (mkMatcher U8 (VInt 1) None);
        CMatcher (mkMatcher U8 (VInt 6) None);
        CMatcher (mkMatcher U16 (VInt 7) None)])
  = Ok "cb(buffer[3]);".
Proof. reflexivity. Qed.

(** ** What building the graph leaves alone *)

Lemma process_loop_settings (address_matcher : Matcher) (cmd rest : Command) :
  forall pos state g sigma sigma' g',
  process_loop address_matcher cmd rest pos state g sigma = (sigma', Ok g') ->
  settings g' = settings g.
Proof.
  induction rest as [|[oid m|s] rest IH]; intros pos state g sigma sigma' g' H;
    cbn [process_loop] in H.
  - injection H as _ <-. reflexivity.
  - destruct (has (state_at g state) m).
    + destruct (get_next_state_of (state_at g state) m); [eauto|discriminate H].
    + destruct rest as [|[oid' m'|s'] rest'].
      * discriminate H.
      * unfold new_state in H. apply IH in H. exact H.
      * destruct (last cmd) as [[|command_name]|]; try discriminate H.
        unfold new_state in H.
        destruct (negb (command_name =? "NOTHING")%string).
        -- cbn [add_transition append_state set_states callbacks fst snd] in H.
           destruct (dict_get (callbacks g) command_name); [|discriminate H].
           injection H as _ <-. reflexivity.
        -- injection H as _ <-. reflexivity.
  - discriminate H.
Qed.

Lemma process_sequence_settings (address_matcher : Matcher) (state : nat)
    (cmd : Command) (g : CodeGenerator) (sigma sigma' : gmap nat Z)
    (g' : CodeGenerator) :
  process_sequence address_matcher state cmd g sigma = (sigma', Ok g') ->
  settings g' = settings g.
Proof.
  unfold process_sequence. intros H.
  destruct (last cmd) as [[oid m|callback]|]; [| |discriminate H].
  - eapply process_loop_settings, H.
  - destruct (negb (dict_in (callbacks g) callback)); [discriminate H|].
    eapply process_loop_settings, H.
Qed.

Lemma process_commands_settings (address_matcher : Matcher) (device_state : nat)
    (value : list Command) :
  forall g sigma sigma' g',
  process_commands address_matcher device_state value g sigma = (sigma', Ok g') ->
  settings g' = settings g.
Proof.
  induction value as [|command rest IH]; intros g sigma sigma' g' H;
    cbn [process_commands] in H.
  - injection H as _ <-. reflexivity.
  - destruct (process_sequence address_matcher device_state command g sigma)
      as [sigma1 [g1|e]] eqn:Hseq; [|discriminate H].
    apply IH in H. rewrite H. eapply process_sequence_settings, Hseq.
Qed.

Lemma process_items_settings (lists : gmap nat (list Command))
    (current_state : nat) (items : list (string * ListObj)) :
  forall g sigma sigma' g',
  process_items lists current_state items g sigma = (sigma', Ok g') ->
  settings g' = settings g.
Proof.
  induction items as [|[key value] rest IH]; intros g sigma sigma' g' H;
    cbn [process_items] in H.
  - injection H as _ <-. reflexivity.
  - destruct (if (key =? "device")%string
              then process_runtime_device current_state (contents lists value)
                     g sigma
              else (sigma, Ok g)) as [sigma1 [g1|e]] eqn:H1; [|discriminate H].
    assert (Hg1 : settings g1 = settings g).
    { destruct (key =? "device")%string.
      - unfold process_runtime_device, new_state in H1.
        apply process_commands_settings in H1. exact H1.
      - injection H1 as _ <-. reflexivity. }
    destruct (if String.prefix "device@" key
              then process_addressed_device current_state key
                     (contents lists value) g1 sigma1
              else (sigma1, Ok g1)) as [sigma2 [g2|e]] eqn:H2; [|discriminate H].
    assert (Hg2 : settings g2 = settings g1).
    { destruct (String.prefix "device@" key).
      - unfold process_addressed_device in H2.
        destruct (device_addr_search key); [|discriminate H2].
        destruct (int_base0 s) as [address|]; [|discriminate H2].
        destruct (254 <? address); [discriminate H2|].
        unfold new_state in H2.
        destruct (Matcher_init U8 [AInt address] _); [|discriminate H2].
        apply process_commands_settings in H2. exact H2.
      - injection H2 as _ <-. reflexivity. }
    apply IH in H. congruence.
Qed.

Lemma process_devices_settings (lists : gmap nat (list Command)) (tree : Tree)
    (g : CodeGenerator) (sigma sigma' : gmap nat Z) (g' : CodeGenerator) :
  process_devices lists tree g sigma = (sigma', Ok g') ->
  settings g' = settings g.
Proof.
  unfold process_devices, new_state. intros H.
  apply process_items_settings in H. exact H.
Qed.

(** ** The constructor, step by step *)

(** A constructor that returns went through these steps. *)
Lemma CodeGenerator_init_Ok (tree : Tree) (s s' : Store) (g : CodeGenerator) :
  CodeGenerator_init tree s = (s', Ok g) ->
  exists callback_list callbacks s1 g1,
    t_callbacks tree = Some callback_list
    /\ process_callbacks callback_list [] = Ok callbacks
    /\ (if identification_active tree
        then inject_identification tree
               (generator_before_identification tree s callbacks) s
        else (s, Ok (generator_before_identification tree s callbacks)))
       = (s1, Ok g1)
    /\ process_devices (st_lists s1) tree g1 (st_pos s1) = (st_pos s', Ok g)
    /\ st_lists s' = st_lists s1 /\ st_next s' = st_next s1.
Proof.
  unfold CodeGenerator_init. intros H.
  destruct (t_callbacks tree) as [callback_list|]; [|discriminate H].
  destruct (process_callbacks callback_list []) as [callbacks|] eqn:Hcb;
    [|discriminate H].
  destruct (negb _); [discriminate H|].
  fold (generator_before_identification tree s callbacks) in H.
  fold (identification_active tree) in H.
  destruct (if identification_active tree then _ else _)
    as [s1 [g1|e]] eqn:Hid; [|discriminate H].
  destruct (process_devices (st_lists s1) tree g1 (st_pos s1))
    as [sigma r] eqn:Hdev.
  injection H as <- ->.
  exists callback_list, callbacks, s1, g1. repeat split; assumption.
Qed.

Lemma inject_identification_settings (tree : Tree) (g : CodeGenerator)
    (s s' : Store) (g' : CodeGenerator) :
  inject_identification tree g s = (s', Ok g') ->
  identification g' = identification g /\ slave_id g' = slave_id g
  /\ mode g' = mode g /\ max_buf_size g' = max_buf_size g
  /\ states g' = states g.
Proof.
  unfold inject_identification. intros H.
  destruct (identification_device tree); [|discriminate H].
  cbn [set_callbacks mode identification conformity_level] in H.
  destruct (conformity_loop _ _ _); [|discriminate H].
  injection H as _ <-. repeat split.
Qed.

(** The identification table and the slave id of a generator are those of
    the tree, and a conformity level other than 0 means that the
    identification block ran. *)
Lemma CodeGenerator_init_identification (tree : Tree) (s s' : Store)
    (g : CodeGenerator) :
  CodeGenerator_init tree s = (s', Ok g) ->
  identification g = default [] (t_identification tree)
  /\ slave_id g = default 0xFF (t_slave_id tree)
  /\ (conformity_level g <> 0 -> identification_active tree = true).
Proof.
  intros H.
  destruct (CodeGenerator_init_Ok _ _ _ _ H)
    as (cl & cbs & s1 & g1 & _ & _ & Hid & Hdev & _).
  apply process_devices_settings in Hdev.
  unfold settings in Hdev. injection Hdev as _ _ _ Hident Hslave _ _ Hlevel.
  rewrite Hident, Hslave, Hlevel.
  destruct (identification_active tree).
  - apply inject_identification_settings in Hid as (-> & -> & _).
    repeat split.
  - injection Hid as _ <-. repeat split. intros Hne. exfalso. apply Hne. reflexivity.
Qed.

(** ** The reply to function 17 *)

(** C9.  For a generator the constructor returned with identification
    active (a conformity level other than 0), the product code is declared
    and the routine for function 17 is, joined by the indentation: the
    heading, [set_size(2)], then the packing of the byte count
    [2 + len(id)], of the slave id of the tree (255 when it gives none), of
    [0xFF] and of the text [id], where [id] is the product code, followed
    by [_] and the model name exactly when a model name is declared. *)
Theorem report_slave_id_reply (INDENT : string) (tree : Tree) (s s' : Store)
    (g : CodeGenerator) (level : nat) :
  CodeGenerator_init tree s = (s', Ok g) ->
  conformity_level g <> 0 ->
  exists product_code,
    dict_get (default [] (t_identification tree)) PRODUCT_CODE = Some product_code
    /\ let id :=
         match dict_get (default [] (t_identification tree)) MODEL_NAME with
         | Some model_name => product_code +:+ "_" +:+ model_name
         | None => product_code
         end in
       get_report_slave_id_function INDENT g level
       = Ok (join (repeat_str INDENT level)
               [""; newline +:+ "/** Answer command 17 - Report slave id */"
                      +:+ newline;
                "inline void on_report_slave_id() {" +:+ newline;
                "    Datagram::set_size(2); // Reset the count to 2 (ID + code)"
                  +:+ newline;
                "    Datagram::pack<uint8_t>(" +:+ str (2 + len id)
                  +:+ "); // Byte count" +:+ newline;
                "    Datagram::pack<uint8_t>("
                  +:+ str (default 0xFF (t_slave_id tree))
                  +:+ "); // slave ID" +:+ newline;
                "    Datagram::pack<uint8_t>(0xFF); // Status OK" +:+ newline;
                "    Datagram::pack(" +:+ dquote +:+ id +:+ dquote
                  +:+ "); // Function code" +:+ newline;
                "}"]).
Proof.
  intros Hinit Hlevel.
  destruct (CodeGenerator_init_identification _ _ _ _ Hinit)
    as (Hident & Hslave & Hactive).
  specialize (Hactive Hlevel). unfold identification_active in Hactive.
  apply andb_true_iff in Hactive as [_ Hpc].
  apply bool_decide_eq_true in Hpc as [product_code Hpc].
  exists product_code. split; [exact Hpc|].
  unfold get_report_slave_id_function, report_slave_id_text.
  destruct (Z.eqb_spec (conformity_level g) 0) as [H0|_]; [contradiction|].
  rewrite Hident, Hpc.
  destruct (dict_get (default [] (t_identification tree)) MODEL_NAME)
    as [model_name|]; cbn [bind]; unfold report_slave_id_lines;
    rewrite Hslave, (Z.add_comm 2); reflexivity.
Qed.

(** The theorem on scenario S5: the byte count is 7 and the text [PC_MX]. *)
Lemma report_slave_id_reply_witness :
  exists s' g,
    CodeGenerator_init s5_tree (mkStore ∅ ∅ 0) = (s', Ok g)
    /\ conformity_level g = 2
    /\ get_report_slave_id_function "    " g 1
       = Ok (join "    "
               [""; newline +:+ "/** Answer command 17 - Report slave id */"
                      +:+ newline;
                "inline void on_report_slave_id() {" +:+ newline;
                "    Datagram::set_size(2); // Reset the count to 2 (ID + code)"
                  +:+ newline;
                "    Datagram::pack<uint8_t>(7); // Byte count" +:+ newline;
                "    Datagram::pack<uint8_t>(255); // slave ID" +:+ newline;
                "    Datagram::pack<uint8_t>(0xFF); // Status OK" +:+ newline;
                "    Datagram::pack(" +:+ dquote +:+ "PC_MX" +:+ dquote
                  +:+ "); // Function code" +:+ newline;
                "}"]).
Proof.
  destruct (CodeGenerator_init s5_tree (mkStore ∅ ∅ 0)) as [s' [g|e]] eqn:Hinit;
    [|vm_compute in Hinit; discriminate Hinit].
  exists s', g. split; [reflexivity|].
  assert (Hlevel : conformity_level g = 2)
    by (vm_compute in Hinit; injection Hinit as _ <-; reflexivity).
  split; [exact Hlevel|].
  destruct (report_slave_id_reply "    " s5_tree _ _ g 1 Hinit) as (pc & Hpc & Htext).
  - rewrite Hlevel. discriminate.
  - injection Hpc as <-. exact Htext.
Defined.

(** ** Identification without a product code *)

(** Building the graph does not look at the identification table. *)
Lemma process_loop_identification (address_matcher : Matcher)
    (cmd rest : Command) (i : list (Z * string)) :
  forall pos state g sigma,
  process_loop address_matcher cmd rest pos state (set_identification g i) sigma
  = with_identification i
      (process_loop address_matcher cmd rest pos state g sigma).
Proof.
  induction rest as [|[oid m|s] rest IH]; intros pos state g sigma;
    cbn [process_loop]; try reflexivity.
  change (state_at (set_identification g i) state) with (state_at g state).
  destruct (has (state_at g state) m).
  - destruct (get_next_state_of (state_at g state) m); [apply IH|reflexivity].
  - destruct rest as [|[oid' m'|s'] rest']; try reflexivity.
    + unfold new_state.
      change (unique_name (set_identification g i)) with (unique_name g).
      apply (IH (pos + m_size m) (List.length (states g))
               (add_transition
                  (append_state g
                     (mkState (unique_name g (State_next (state_at g state) (m_alias m)))
                        [] (s_pos (state_at g state) + m_size m) (mode g) None))
                  state
                  (mkTransition m (List.length (states g)) false))).
    + destruct (last cmd) as [[|command_name]|]; try reflexivity.
      unfold new_state.
      cbn [add_transition append_state set_states set_identification callbacks
             states mode fst snd].
      destruct (negb (command_name =? "NOTHING")%string); [|reflexivity].
      destruct (dict_get (callbacks g) command_name); reflexivity.
Qed.

Lemma process_sequence_identification (address_matcher : Matcher) (state : nat)
    (cmd : Command) (i : list (Z * string)) (g : CodeGenerator)
    (sigma : gmap nat Z) :
  process_sequence address_matcher state cmd (set_identification g i) sigma
  = with_identification i (process_sequence address_matcher state cmd g sigma).
Proof.
  unfold process_sequence.
  destruct (last cmd) as [[oid m|callback]|]; try reflexivity.
  - apply process_loop_identification.
  - change (callbacks (set_identification g i)) with (callbacks g).
    destruct (negb (dict_in (callbacks g) callback)); [reflexivity|].
    apply process_loop_identification.
Qed.

Lemma process_commands_identification (address_matcher : Matcher)
    (device_state : nat) (value : list Command) (i : list (Z * string)) :
  forall g sigma,
  process_commands address_matcher device_state value (set_identification g i)
    sigma
  = with_identification i
      (process_commands address_matcher device_state value g sigma).
Proof.
  induction value as [|command rest IH]; intros g sigma;
    cbn [process_commands]; [reflexivity|].
  rewrite process_sequence_identification.
  destruct (process_sequence address_matcher device_state command g sigma)
    as [sigma1 [g1|e]]; cbn; [apply IH|reflexivity].
Qed.

Lemma process_items_identification (lists : gmap nat (list Command))
    (current_state : nat) (items : list (string * ListObj))
    (i : list (Z * string)) :
  forall g sigma,
  process_items lists current_state items (set_identification g i) sigma
  = with_identification i (process_items lists current_state items g sigma).
Proof.
  induction items as [|[key value] rest IH]; intros g sigma;
    cbn [process_items]; [reflexivity|].
  assert (H1 :
    (if (key =? "device")%string
     then process_runtime_device current_state (contents lists value)
            (set_identification g i) sigma
     else (sigma, Ok (set_identification g i)))
    = with_identification i
        (if (key =? "device")%string
         then process_runtime_device current_state (contents lists value) g sigma
         else (sigma, Ok g))).
  { destruct (key =? "device")%string; [|reflexivity].
    unfold process_runtime_device, new_state.
    apply (process_commands_identification _ _ _ i
             (add_transition (append_state g _) current_state _)). }
  rewrite H1. clear H1.
  destruct (if (key =? "device")%string then _ else _) as [sigma1 [g1|e]];
    cbn [with_identification result_map fst snd]; [|reflexivity].
  assert (H2 :
    (if String.prefix "device@" key
     then process_addressed_device current_state key (contents lists value)
            (set_identification g1 i) sigma1
     else (sigma1, Ok (set_identification g1 i)))
    = with_identification i
        (if String.prefix "device@" key
         then process_addressed_device current_state key (contents lists value)
                g1 sigma1
         else (sigma1, Ok g1))).
  { destruct (String.prefix "device@" key); [|reflexivity].
    unfold process_addressed_device.
    destruct (device_addr_search key); [|reflexivity].
    destruct (int_base0 s) as [address|]; [|reflexivity].
    destruct (254 <? address); [reflexivity|].
    unfold new_state.
    cbn [set_device_address set_identification states mode append_state
           set_states state_at].
    destruct (Matcher_init U8 [AInt address] _); [|reflexivity].
    apply (process_commands_identification _ _ _ i
             (add_transition
                (append_state (set_device_address g1 (Some address)) _)
                current_state _)). }
  rewrite H2. clear H2.
  destruct (if String.prefix "device@" key then _ else _) as [sigma2 [g2|e]];
    cbn [with_identification result_map fst snd]; [apply IH|reflexivity].
Qed.

Lemma process_devices_identification (lists : gmap nat (list Command))
    (tree : Tree) (i : list (Z * string)) (g : CodeGenerator)
    (sigma : gmap nat Z) :
  process_devices lists tree (set_identification g i) sigma
  = with_identification i (process_devices lists tree g sigma).
Proof.
  unfold process_devices, new_state.
  apply (process_items_identification lists _ _ i (append_state g _)).
Qed.

(** C7, as the code has it.  An identification table that lacks the
    product code is no error: the constructor does what it does on the
    tree without the [identification] key, writes the same to the objects
    of the caller, raises what it raises there, and returns the same
    generator but for the table it keeps; the conformity level stays 0 and
    the routine for function 17 is empty. *)
Theorem identification_without_product_code (INDENT : string) (tree : Tree)
    (s : Store) (level : nat) :
  dict_get (default [] (t_identification tree)) PRODUCT_CODE = None ->
  let r := CodeGenerator_init tree s in
  let r' := CodeGenerator_init (without_identification tree) s in
  fst r = fst r'
  /\ snd r
     = result_map
         (fun g => set_identification g (default [] (t_identification tree)))
         (snd r')
  /\ forall g, snd r = Ok g ->
       conformity_level g = 0
       /\ get_report_slave_id_function INDENT g level = Ok "".
Proof.
  intros Hpc r r'.
  assert (Hactive : identification_active tree = false).
  { unfold identification_active, dict_in. rewrite Hpc. apply andb_false_r. }
  assert (Hrr' : fst r = fst r' /\
                 snd r = result_map
                   (fun g => set_identification g
                               (default [] (t_identification tree))) (snd r')).
  { subst r r'. unfold CodeGenerator_init.
    cbn [without_identification t_callbacks t_identification t_slave_id
           t_buffer_size t_mode t_namespace t_on_received t_items].
    destruct (t_callbacks tree) as [callback_list|]; [|split; reflexivity].
    destruct (process_callbacks callback_list []) as [callbacks|];
      [|split; reflexivity].
    destruct (negb _); [split; reflexivity|].
    fold (identification_active tree). rewrite Hactive, andb_false_r.
    match goal with
    | |- context [process_devices _ (without_identification tree) ?g0 _] =>
        set (g' := g0)
    end.
    match goal with
    | |- context [process_devices _ tree ?g0 _] =>
        change g0
          with (set_identification g' (default [] (t_identification tree)))
    end.
    change (process_devices (st_lists s) (without_identification tree) g'
              (st_pos s))
      with (process_devices (st_lists s) tree g' (st_pos s)).
    rewrite process_devices_identification.
    destruct (process_devices _ tree _ _) as [sigma res].
    split; reflexivity. }
  destruct Hrr' as [Hfst Hsnd]. split; [exact Hfst|]. split; [exact Hsnd|].
  intros g Hg.
  destruct (CodeGenerator_init tree s) as [s' res] eqn:Hinit.
  subst r. cbn [snd] in Hg. subst res.
  destruct (CodeGenerator_init_identification _ _ _ _ Hinit) as (_ & _ & Hlevel).
  assert (H0 : conformity_level g = 0).
  { destruct (Z.eq_dec (conformity_level g) 0) as [H0|Hne]; [exact H0|].
    specialize (Hlevel Hne). congruence. }
  split; [exact H0|].
  unfold get_report_slave_id_function. rewrite H0. reflexivity.
Qed.

(** The tree declares an identification table without the product code,
    and the constructor returns a generator. *)
Lemma identification_without_product_code_accepted :
  t_identification vendor_only_tree = Some [(VENDOR_NAME, "Acme")]
  /\ dict_get [(VENDOR_NAME, "Acme")] PRODUCT_CODE = None
  /\ exists s' g,
       CodeGenerator_init vendor_only_tree (mkStore ∅ ∅ 2) = (s', Ok g).
Proof.
  split; [reflexivity|]. split; [reflexivity|].
  eexists. eexists. vm_compute. reflexivity.
Qed.

(** The theorem on that tree. *)
Lemma identification_without_product_code_witness :
  exists g,
    snd (CodeGenerator_init vendor_only_tree (mkStore ∅ ∅ 2)) = Ok g
    /\ conformity_level g = 0
    /\ get_report_slave_id_function "    " g 1 = Ok "".
Proof.
  destruct (identification_without_product_code "    " vendor_only_tree
              (mkStore ∅ ∅ 2) 1 eq_refl) as (_ & _ & H).
  destruct (snd (CodeGenerator_init vendor_only_tree (mkStore ∅ ∅ 2)))
    as [g|e] eqn:Hg; [|vm_compute in Hg; discriminate Hg].
  exists g. split; [reflexivity|]. exact (H g eq_refl).
Defined.

(** ** The command line *)

(** C6, as the code has it.  [main] prints nothing on standard error.
    When the build raises a [ParsingException], [main] prints the one line
    [Error: <message>] on standard output, writes no file, and returns, so
    that the exit status is 0; when the build succeeds the text goes to the
    file named by [--output], or to standard output, and the exit status
    is 0. *)
Theorem main_outcome (generate_code : string -> CodeGenerator -> result string)
    (args : Args) (modbus : Tree) (s : Store) :
  let o := snd (main generate_code args modbus s) in
  let build :=
    let* gen := snd (CodeGenerator_init modbus s) in
    generate_code (repeat_str " " (tab_size args)) gen in
  printed_err o = []
  /\ (forall message, build = Raise (ParsingException message) ->
        printed o = ["Error: " +:+ message] /\ written o = []
        /\ exit_status o = 0)
  /\ (forall generated_code, build = Ok generated_code ->
        exit_status o = 0
        /\ match output args with
           | Some (String c f) =>
               written o = [(String c f, generated_code)] /\ printed o = []
           | _ => written o = [] /\ printed o = [generated_code]
           end).
Proof.
  intros o build. subst o build. unfold main.
  destruct (CodeGenerator_init modbus s) as [s' gen]. cbn [snd].
  destruct (let* gen0 := gen in generate_code (repeat_str " " (tab_size args)) gen0)
    as [generated_code|e].
  - split; [destruct (output args) as [[|c f]|]; reflexivity|].
    split; [intros message H; discriminate H|].
    intros text H. injection H as <-.
    destruct (output args) as [[|c f]|]; repeat split.
  - split; [destruct e; reflexivity|].
    split; [|intros text H; discriminate H].
    intros message H. injection H as ->. repeat split.
Qed.

(** The theorem on that tree, whatever [generate_code] is. *)
Lemma main_outcome_witness :
  let o :=
    snd (main (fun _ _ => Ok "") (mkArgs None 4) no_callbacks_tree
           (mkStore ∅ ∅ 0)) in
  printed o = ["Error: Callbacks are required"] /\ written o = []
  /\ exit_status o = 0.
Proof.
  exact (proj1 (proj2 (main_outcome (fun _ _ => Ok "") (mkArgs None 4)
                         no_callbacks_tree (mkStore ∅ ∅ 0)))
           "Callbacks are required" eq_refl).
Defined.

(** The build of that tree fails; the message is printed on standard
    output, nothing is printed on standard error, and the exit status
    is 0. *)
Lemma main_error_on_stdout_status_0 :
  snd (CodeGenerator_init no_callbacks_tree (mkStore ∅ ∅ 0))
  = Raise (ParsingException "Callbacks are required")
  /\ let o :=
       snd (main (fun _ _ => Ok "") (mkArgs None 4) no_callbacks_tree
              (mkStore ∅ ∅ 0)) in
     printed o = ["Error: Callbacks are required"]
     /\ printed_err o = []
     /\ exit_status o = 0.
Proof. repeat split. Qed.

(** X3.  An exception other than [ParsingException] leaves [main]: nothing
    is printed by [main], no file is written, and the exit status is 1. *)
Lemma main_other_exception
    (generate_code : string -> CodeGenerator -> result string)
    (args : Args) (modbus : Tree) (s : Store) (e : Exn) :
  (let* gen := snd (CodeGenerator_init modbus s) in
   generate_code (repeat_str " " (tab_size args)) gen) = Raise e ->
  (forall message, e <> ParsingException message) ->
  let o := snd (main generate_code args modbus s) in
  uncaught o = Some e /\ printed o = [] /\ written o = []
  /\ exit_status o = 1.
Proof.
  intros H Hne o. subst o. unfold main.
  destruct (CodeGenerator_init modbus s) as [s' gen]. cbn [snd] in *.
  rewrite H. destruct e; try (repeat split; fail).
  exfalso. exact (Hne msg eq_refl).
Qed.

(** The theorem on the tree with the key [device@017]: [int("017", 0)]
    raises [ValueError], which leaves [main]. *)
Lemma main_other_exception_witness :
  snd (CodeGenerator_init leading_zero_tree (mkStore ∅ ∅ 0)) = Raise ValueError
  /\ let o :=
       snd (main (fun _ _ => Ok "") (mkArgs None 4) leading_zero_tree
              (mkStore ∅ ∅ 0)) in
     uncaught o = Some ValueError /\ exit_status o = 1.
Proof.
  split; [reflexivity|].
  destruct (main_other_exception (fun _ _ => Ok "") (mkArgs None 4)
              leading_zero_tree (mkStore ∅ ∅ 0) ValueError eq_refl)
    as (Huncaught & _ & _ & Hstatus).
  - intros message H. discriminate H.
  - split; [exact Huncaught|exact Hstatus].
Defined.

(** ** Overlapping sibling transitions *)

(** C1, on scenario S4.  The constructor returns a generator: the state of
    the device has the two transitions side by side, to different states,
    although the byte 5 passes the test of both. *)
Theorem overlapping_siblings_accepted :
  exists s' g,
    CodeGenerator_init overlapping_tree (mkStore ∅ ∅ 2) = (s', Ok g)
    /\ s_transition (state_at g 1)
       = [mkTransition (mkMatcher U8 (VInt 5) None) 2 true;
          mkTransition (mkMatcher U8 (VList [5; 6]) None) 4 true]
    /\ accepts 0 (mkMatcher U8 (VInt 5) None) 5 = true
    /\ accepts 0 (mkMatcher U8 (VList [5; 6]) None) 5 = true.
Proof.
  eexists. eexists. split; [vm_compute; reflexivity|]. repeat split.
Qed.

(** ** Names of the states *)

(** C8, on two commands with one callback.  The constructor returns a
    generator whose states, in the order of the enumeration, are named as
    below: [RDY_TO_CALL__CB] comes twice, in the list of states and in the
    text of the enumeration. *)
Theorem terminal_state_names_collide :
  exists s' g,
    CodeGenerator_init shared_callback_tree (mkStore ∅ ∅ 2) = (s', Ok g)
    /\ s_name <$> states g
       = ["DEVICE_ADDRESS"; "DEVICE_1"; "DEVICE_1__CB__CRC"; "RDY_TO_CALL__CB";
          "DEVICE_1__CB__CRC_1"; "RDY_TO_CALL__CB"]
    /\ ~ NoDup (s_name <$> states g)
    /\ get_enums_text "" g 0
       = join ("," +:+ newline)
           ["DEVICE_ADDRESS"; "DEVICE_1"; "DEVICE_1__CB__CRC"; "RDY_TO_CALL__CB";
            "DEVICE_1__CB__CRC_1"; "RDY_TO_CALL__CB"].
Proof.
  eexists. eexists. split; [vm_compute; reflexivity|].
  split; [reflexivity|]. split; [|reflexivity].
  intros H. cbn in H. rewrite !NoDup_cons in H.
  destruct H as (_ & _ & _ & H & _). apply H. set_solver.
Qed.

(** ** Size of the buffer *)

(** C5, on these two trees.  Under the key [device@0x17] the command
    measures 5 bytes and is built into the graph, yet the buffer is 4
    bytes: the key is not among those measured.  With identification the
    diagnostics command, which the constructor appends to the list of the
    device, measures 5 bytes and the buffer is 5 bytes: the commands are
    measured before the block appends. *)
Theorem buffer_size_misses_commands :
  (exists s' g,
     CodeGenerator_init hex_key_tree (mkStore ∅ ∅ 2) = (s', Ok g)
     /\ contents (st_lists s') hex_key_list = [hex_key_command]
     /\ s_name <$> states g
        = ["DEVICE_ADDRESS"; "DEVICE_23"; "DEVICE_23_1";
           "DEVICE_23_1__CB__CRC"; "RDY_TO_CALL__CB"]
     /\ command_size hex_key_command + 4 = 9
     /\ max_buf_size g = 4)
  /\ (exists s' g,
        CodeGenerator_init small_identified_tree (mkStore ∅ ∅ 1) = (s', Ok g)
        /\ contents (st_lists s') small_list
           = [small_command;
              fresh_command 1 report_slave_id_matchers "on_report_slave_id";
              fresh_command 2 read_device_identification_matchers
                "on_read_device_identification";
              fresh_command 6 diagnostics_matchers "on_diagnostics"]
        /\ command_size (fresh_command 6 diagnostics_matchers "on_diagnostics")
           + 4 = 9
        /\ max_buf_size g = 5).
Proof.
  split.
  - do 2 eexists. split; [vm_compute; reflexivity|]. repeat split.
  - do 2 eexists. split; [vm_compute; reflexivity|]. repeat split.
Qed.

(** ** What the constructor writes into the tree *)

(** The loop of [process_sequence] writes the [pos] of the matchers it
    visits and of no other object, also when it raises. *)
Lemma process_loop_pos (address_matcher : Matcher) (cmd rest : Command) :
  forall pos state g sigma (oid : nat),
  fst (process_loop address_matcher cmd rest pos state g sigma) !! oid
  = sigma !! oid
  \/ exists m, IMatcher oid m ∈ rest.
Proof.
  induction rest as [|[oid0 m0|s0] rest IH]; intros pos state g sigma oid;
    cbn [process_loop]; [left; reflexivity| |left; reflexivity].
  destruct (decide (oid0 = oid)) as [->|Hne].
  { right. exists m0. apply list_elem_of_here. }
  assert (Hnext : forall pos' state' g',
    fst (process_loop address_matcher cmd rest pos' state' g'
           (<[oid0 := pos + m_size m0]> sigma)) !! oid = sigma !! oid
    \/ exists m, IMatcher oid m ∈ IMatcher oid0 m0 :: rest).
  { intros pos' state' g'.
    destruct (IH pos' state' g' (<[oid0 := pos + m_size m0]> sigma) oid)
      as [H|[m H]].
    - left. rewrite H. apply lookup_insert_ne. exact Hne.
    - right. exists m. apply list_elem_of_further. exact H. }
  assert (Hhere :
    (<[oid0 := pos + m_size m0]> sigma : gmap nat Z) !! oid = sigma !! oid)
    by (apply lookup_insert_ne; exact Hne).
  destruct (has (state_at g state) m0).
  - destruct (get_next_state_of (state_at g state) m0); [apply Hnext|].
    left. exact Hhere.
  - destruct rest as [|[oid' m'|s'] rest'].
    + left. exact Hhere.
    + unfold new_state. apply Hnext.
    + destruct (last cmd) as [[|command_name]|]; try (left; exact Hhere).
      unfold new_state.
      destruct (negb (command_name =? "NOTHING")%string).
      * destruct (dict_get _ command_name); left; exact Hhere.
      * left. exact Hhere.
Qed.

Lemma process_sequence_pos (address_matcher : Matcher) (state : nat)
    (cmd : Command) (g : CodeGenerator) (sigma : gmap nat Z) (oid : nat) :
  fst (process_sequence address_matcher state cmd g sigma) !! oid = sigma !! oid
  \/ exists m, IMatcher oid m ∈ cmd.
Proof.
  unfold process_sequence.
  destruct (last cmd) as [[oid0 m0|callback]|]; [| |left; reflexivity].
  - destruct (process_loop_pos address_matcher (cmd ++ [IStr "NOTHING"])
                (cmd ++ [IStr "NOTHING"]) 1 state g sigma oid) as [H|[m H]];
      [left; exact H|].
    right. exists m. apply elem_of_app in H as [H|H]; [exact H|].
    apply list_elem_of_singleton in H. discriminate H.
  - destruct (negb (dict_in (callbacks g) callback)); [left; reflexivity|].
    apply process_loop_pos.
Qed.

Lemma process_commands_pos (address_matcher : Matcher) (device_state : nat)
    (value : list Command) :
  forall g sigma (oid : nat),
  fst (process_commands address_matcher device_state value g sigma) !! oid
  = sigma !! oid
  \/ exists cmd m, cmd ∈ value /\ IMatcher oid m ∈ cmd.
Proof.
  induction value as [|command rest IH]; intros g sigma oid;
    cbn [process_commands]; [left; reflexivity|].
  pose proof (process_sequence_pos address_matcher device_state command g
                sigma oid) as Hseq.
  destruct (process_sequence address_matcher device_state command g sigma)
    as [sigma1 [g1|e]]; cbn [fst] in Hseq.
  - destruct (IH g1 sigma1 oid) as [H|(cmd & m & Hcmd & Hm)].
    + rewrite H. destruct Hseq as [Hseq|[m Hm]]; [left; exact Hseq|].
      right. exists command, m. split; [apply list_elem_of_here|exact Hm].
    + right. exists cmd, m. split; [apply list_elem_of_further|]; assumption.
  - destruct Hseq as [Hseq|[m Hm]]; [left; exact Hseq|].
    right. exists command, m. split; [apply list_elem_of_here|exact Hm].
Qed.

Lemma process_items_pos (lists : gmap nat (list Command)) (current_state : nat)
    (items : list (string * ListObj)) :
  forall g sigma (oid : nat),
  fst (process_items lists current_state items g sigma) !! oid = sigma !! oid
  \/ exists key l cmd m,
       (key, l) ∈ items /\ cmd ∈ contents lists l /\ IMatcher oid m ∈ cmd.
Proof.
  induction items as [|[key value] rest IH]; intros g sigma oid;
    cbn [process_items]; [left; reflexivity|].
  assert (Hhere : forall cmd m,
    cmd ∈ contents lists value -> IMatcher oid m ∈ cmd ->
    exists key' l cmd' m',
      (key', l) ∈ (key, value) :: rest /\ cmd' ∈ contents lists l
      /\ IMatcher oid m' ∈ cmd').
  { intros cmd m Hcmd Hm. exists key, value, cmd, m.
    split; [apply list_elem_of_here|]. split; assumption. }
  assert (H1 : forall r,
    r = (if (key =? "device")%string
         then process_runtime_device current_state (contents lists value) g sigma
         else (sigma, Ok g)) ->
    fst r !! oid = sigma !! oid
    \/ exists cmd m, cmd ∈ contents lists value /\ IMatcher oid m ∈ cmd).
  { intros r ->. destruct (key =? "device")%string; [|left; reflexivity].
    unfold process_runtime_device, new_state. apply process_commands_pos. }
  specialize (H1 _ eq_refl).
  destruct (if (key =? "device")%string then _ else _) as [sigma1 [g1|e]];
    cbn [fst] in H1.
  2:{ destruct H1 as [H1|(cmd & m & Hcmd & Hm)]; [left; exact H1|].
      right. eapply Hhere; eassumption. }
  assert (H2 : forall r,
    r = (if String.prefix "device@" key
         then process_addressed_device current_state key (contents lists value)
                g1 sigma1
         else (sigma1, Ok g1)) ->
    fst r !! oid = sigma1 !! oid
    \/ exists cmd m, cmd ∈ contents lists value /\ IMatcher oid m ∈ cmd).
  { intros r ->. destruct (String.prefix "device@" key); [|left; reflexivity].
    unfold process_addressed_device.
    destruct (device_addr_search key); [|left; reflexivity].
    destruct (int_base0 s) as [address|]; [|left; reflexivity].
    destruct (254 <? address); [left; reflexivity|].
    unfold new_state.
    destruct (Matcher_init U8 [AInt address] _); [|left; reflexivity].
    apply process_commands_pos. }
  specialize (H2 _ eq_refl).
  destruct (if String.prefix "device@" key then _ else _) as [sigma2 [g2|e]];
    cbn [fst] in H2.
  - destruct (IH g2 sigma2 oid) as [H|(key' & l & cmd & m & Hl & Hcmd & Hm)].
    + rewrite H.
      destruct H2 as [H2|(cmd & m & Hcmd & Hm)];
        [|right; eapply Hhere; eassumption].
      rewrite H2.
      destruct H1 as [H1|(cmd & m & Hcmd & Hm)];
        [left; exact H1|right; eapply Hhere; eassumption].
    + right. exists key', l, cmd, m.
      split; [apply list_elem_of_further; exact Hl|]. split; assumption.
  - cbn [fst].
    destruct H2 as [H2|(cmd & m & Hcmd & Hm)];
      [|right; eapply Hhere; eassumption].
    rewrite H2.
    destruct H1 as [H1|(cmd & m & Hcmd & Hm)];
      [left; exact H1|right; eapply Hhere; eassumption].
Qed.

Lemma process_devices_pos (lists : gmap nat (list Command)) (tree : Tree)
    (g : CodeGenerator) (sigma : gmap nat Z) (oid : nat) :
  fst (process_devices lists tree g sigma) !! oid = sigma !! oid
  \/ exists key l cmd m,
       (key, l) ∈ t_items tree /\ cmd ∈ contents lists l /\ IMatcher oid m ∈ cmd.
Proof. unfold process_devices, new_state. apply process_items_pos. Qed.

(** The identification block writes no [pos]; it leaves the lists alone
    when it finds no device, and else appends to the list of that device
    the first command (when a key of the table is invalid) or the three. *)
Lemma inject_identification_store (tree : Tree) (g : CodeGenerator) (s : Store) :
  let s' := fst (inject_identification tree g s) in
  st_pos s' = st_pos s
  /\ (st_lists s' = st_lists s
      \/ exists device added,
           identification_device tree = Ok device
           /\ (added = [report_slave_id_command (st_next s)]
               \/ added = [report_slave_id_command (st_next s);
                           read_device_identification_command (st_next s);
                           diagnostics_command (st_next s)])
           /\ st_lists s'
              = <[l_id device := contents (st_lists s) device ++ added]>
                  (st_lists s)).
Proof.
  unfold inject_identification.
  destruct (identification_device tree) as [device|e]; [|split; [|left]; reflexivity].
  cbn [st_pos st_lists st_next mode set_callbacks identification conformity_level].
  destruct (conformity_loop _ _ _) as [level|e]; cbn [fst st_pos st_lists].
  - split; [reflexivity|]. right. exists device. eexists.
    split; [reflexivity|]. split; [right; reflexivity|].
    unfold list_append, contents. rewrite !lookup_insert_eq. cbn [default].
    unfold id. rewrite !insert_insert_eq, <- !app_assoc. reflexivity.
  - split; [reflexivity|]. right. exists device. eexists.
    split; [reflexivity|]. split; [left; reflexivity|]. reflexivity.
Qed.

(** What the constructor leaves alone, whatever its outcome. *)
Lemma CodeGenerator_init_frame (tree : Tree) (s : Store) :
  let s' := fst (CodeGenerator_init tree s) in
  (identification_active tree = false -> st_lists s' = st_lists s)
  /\ (st_lists s' = st_lists s
      \/ exists device added,
           identification_active tree = true
           /\ identification_device tree = Ok device
           /\ (added = [report_slave_id_command (st_next s)]
               \/ added = [report_slave_id_command (st_next s);
                           read_device_identification_command (st_next s);
                           diagnostics_command (st_next s)])
           /\ st_lists s'
              = <[l_id device := contents (st_lists s) device ++ added]>
                  (st_lists s))
  /\ (forall oid : nat,
        st_pos s' !! oid = st_pos s !! oid
        \/ exists key l cmd m,
             (key, l) ∈ t_items tree /\ cmd ∈ contents (st_lists s') l
             /\ IMatcher oid m ∈ cmd).
Proof.
  unfold CodeGenerator_init.
  destruct (t_callbacks tree) as [callback_list|];
    [|cbn; split; [|split]; auto].
  destruct (process_callbacks callback_list []) as [callbacks|];
    [|cbn; split; [|split]; auto].
  destruct (negb _); [cbn; split; [|split]; auto|].
  fold (generator_before_identification tree s callbacks).
  fold (identification_active tree).
  pose proof (inject_identification_store tree
                (generator_before_identification tree s callbacks) s)
    as [Hpos Hlists].
  destruct (identification_active tree).
  - destruct (inject_identification tree _ s) as [s1 [g1|e]];
      cbn [fst] in Hpos, Hlists.
    + pose proof (process_devices_pos (st_lists s1) tree g1 (st_pos s1)) as Hdev.
      destruct (process_devices (st_lists s1) tree g1 (st_pos s1)) as [sigma r].
      cbn [fst st_pos st_lists] in *.
      split; [discriminate|]. split.
      * destruct Hlists as [H|(device & added & Hd & Ha & H)]; [left; exact H|].
        right. exists device, added. repeat split; assumption.
      * intros oid. rewrite <- Hpos. apply Hdev.
    + cbn [fst]. split; [discriminate|]. split.
      * destruct Hlists as [H|(device & added & Hd & Ha & H)]; [left; exact H|].
        right. exists device, added. repeat split; assumption.
      * intros oid. left. rewrite Hpos. reflexivity.
  - pose proof (process_devices_pos (st_lists s) tree
                  (generator_before_identification tree s callbacks) (st_pos s))
      as Hdev.
    destruct (process_devices (st_lists s) tree _ (st_pos s)) as [sigma r].
    cbn [fst st_pos st_lists] in *.
    split; [reflexivity|]. split; [left; reflexivity|]. exact Hdev.
Qed.

(** The identification block, once it has found the device: it appends
    the three commands when every key of the table is known, and the first
    one alone, before it raises, when a key is not. *)
Lemma inject_identification_lists (tree : Tree) (g : CodeGenerator) (s : Store)
    (device : ListObj) :
  identification_device tree = Ok device ->
  let r := inject_identification tree g s in
  st_pos (fst r) = st_pos s
  /\ match conformity_loop (mode g) (fst <$> identification g)
             (conformity_level g) with
     | Ok _ =>
         (exists g', snd r = Ok g')
         /\ st_lists (fst r)
            = <[l_id device :=
                  contents (st_lists s) device
                  ++ [report_slave_id_command (st_next s);
                      read_device_identification_command (st_next s);
                      diagnostics_command (st_next s)]]> (st_lists s)
     | Raise e =>
         snd r = Raise e
         /\ st_lists (fst r)
            = <[l_id device :=
                  contents (st_lists s) device
                  ++ [report_slave_id_command (st_next s)]]> (st_lists s)
     end.
Proof.
  intros Hdevice r. subst r. unfold inject_identification. rewrite Hdevice.
  cbn [st_pos st_lists st_next mode set_callbacks identification conformity_level].
  destruct (conformity_loop _ _ _) as [level|e]; cbn [fst snd st_pos st_lists].
  - split; [reflexivity|]. split; [eexists; reflexivity|].
    unfold list_append, contents. rewrite !lookup_insert_eq. cbn [default].
    unfold id. rewrite !insert_insert_eq, <- !app_assoc. reflexivity.
  - split; [reflexivity|]. split; reflexivity.
Qed.

(** The loop of [process_sequence], when it ends without raising, has
    written the [pos] of every matcher the command starts with. *)
Lemma process_loop_writes (address_matcher : Matcher) (cmd rest : Command) :
  forall pos state g sigma sigma' g',
  process_loop address_matcher cmd rest pos state g sigma = (sigma', Ok g') ->
  sigma' = write_positions pos rest sigma.
Proof.
  induction rest as [|[oid m|text] rest IH];
    intros pos state g sigma sigma' g' H; cbn [process_loop] in H.
  - injection H as <- _. reflexivity.
  - cbn [write_positions].
    destruct (has (state_at g state) m).
    + destruct (get_next_state_of (state_at g state) m); [|discriminate H].
      exact (IH _ _ _ _ _ _ H).
    + destruct rest as [|[oid' m'|text] rest'].
      * discriminate H.
      * unfold new_state in H. exact (IH _ _ _ _ _ _ H).
      * destruct (last cmd) as [[oid' m'|command_name]|]; try discriminate H.
        unfold new_state in H.
        destruct (negb (command_name =? "NOTHING")%string).
        -- destruct (dict_get _ command_name); [|discriminate H].
           injection H as <- _. reflexivity.
        -- injection H as <- _. reflexivity.
  - discriminate H.
Qed.

Lemma write_positions_app_str (cmd : Command) (text : string) :
  forall pos sigma,
  write_positions pos (cmd ++ [IStr text]) sigma = write_positions pos cmd sigma.
Proof.
  induction cmd as [|[oid m|text'] cmd IH]; intros pos sigma;
    [reflexivity| |reflexivity].
  change ((IMatcher oid m :: cmd) ++ [IStr text])
    with (IMatcher oid m :: (cmd ++ [IStr text])).
  cbn [write_positions]. apply IH.
Qed.

Lemma process_sequence_writes (address_matcher : Matcher) (state : nat)
    (cmd : Command) (g : CodeGenerator) (sigma sigma' : gmap nat Z)
    (g' : CodeGenerator) :
  process_sequence address_matcher state cmd g sigma = (sigma', Ok g') ->
  sigma' = write_positions 1 cmd sigma.
Proof.
  unfold process_sequence. intros H.
  destruct (last cmd) as [[oid m|callback]|]; [| |discriminate H].
  - apply process_loop_writes in H. rewrite H. apply write_positions_app_str.
  - destruct (negb (dict_in (callbacks g) callback)); [discriminate H|].
    exact (process_loop_writes _ _ _ _ _ _ _ _ _ H).
Qed.

Lemma process_commands_writes (address_matcher : Matcher) (device_state : nat)
    (value : list Command) :
  forall g sigma sigma' g',
  process_commands address_matcher device_state value g sigma = (sigma', Ok g') ->
  sigma' = written_by_commands value sigma.
Proof.
  unfold written_by_commands.
  induction value as [|command rest IH]; intros g sigma sigma' g' H;
    cbn [process_commands] in H.
  - injection H as <- _. reflexivity.
  - destruct (process_sequence address_matcher device_state command g sigma)
      as [sigma1 [g1|e]] eqn:Hseq; [|discriminate H].
    apply process_sequence_writes in Hseq. subst sigma1.
    cbn [foldl]. exact (IH _ _ _ _ H).
Qed.

Lemma process_items_writes (lists : gmap nat (list Command))
    (current_state : nat) (items : list (string * ListObj)) :
  forall g sigma sigma' g',
  process_items lists current_state items g sigma = (sigma', Ok g') ->
  sigma' = written_by_items lists items sigma.
Proof.
  unfold written_by_items.
  induction items as [|[key value] rest IH]; intros g sigma sigma' g' H;
    cbn [process_items] in H.
  - injection H as <- _. reflexivity.
  - cbn [foldl fst snd]. unfold is_device_key.
    destruct (String.eqb_spec key "device") as [->|Hkey].
    + change (String.prefix "device@" "device") with false in *.
      cbn [orb].
      destruct (process_runtime_device current_state _ g sigma)
        as [sigma1 [g1|e]] eqn:H1; [|discriminate H].
      unfold process_runtime_device, new_state in H1.
      apply process_commands_writes in H1. subst sigma1.
      exact (IH _ _ _ _ H).
    + cbn [orb]. destruct (String.prefix "device@" key).
      * destruct (process_addressed_device current_state key _ g sigma)
          as [sigma2 [g2|e]] eqn:H2; [|discriminate H].
        unfold process_addressed_device in H2.
        destruct (device_addr_search key); [|discriminate H2].
        destruct (int_base0 s) as [address|]; [|discriminate H2].
        destruct (254 <? address); [discriminate H2|].
        unfold new_state in H2.
        destruct (Matcher_init U8 [AInt address] _); [|discriminate H2].
        apply process_commands_writes in H2. subst sigma2.
        exact (IH _ _ _ _ H).
      * exact (IH _ _ _ _ H).
Qed.

Lemma write_positions_keeps (cmd : Command) (oid : nat) :
  forall pos (sigma : gmap nat Z),
  is_Some (sigma !! oid) -> is_Some (write_positions pos cmd sigma !! oid).
Proof.
  induction cmd as [|[oid0 m0|text] cmd IH]; intros pos sigma H;
    [exact H| |exact H].
  cbn [write_positions]. apply IH. apply lookup_insert_is_Some.
  destruct (decide (oid0 = oid)) as [Heq|Hne]; [left; exact Heq|].
  right. split; [exact Hne|exact H].
Qed.

Lemma write_positions_sets (cmd : Command) (oid : nat) (m : Matcher) :
  forall pos (sigma : gmap nat Z),
  (oid, m) ∈ leading_items cmd ->
  is_Some (write_positions pos cmd sigma !! oid).
Proof.
  induction cmd as [|[oid0 m0|text] cmd IH]; intros pos sigma H;
    cbn [leading_items] in H; try (apply elem_of_nil in H; contradiction).
  cbn [write_positions]. apply elem_of_cons in H as [Heq|H].
  - injection Heq as -> ->. apply write_positions_keeps.
    rewrite lookup_insert_eq. eexists. reflexivity.
  - apply IH. exact H.
Qed.

Lemma written_by_commands_keeps (value : list Command) (oid : nat) :
  forall sigma : gmap nat Z,
  is_Some (sigma !! oid) -> is_Some (written_by_commands value sigma !! oid).
Proof.
  unfold written_by_commands.
  induction value as [|cmd rest IH]; intros sigma H; [exact H|].
  cbn [foldl]. apply IH, write_positions_keeps, H.
Qed.

Lemma written_by_commands_sets (value : list Command) (cmd : Command)
    (oid : nat) (m : Matcher) :
  forall sigma : gmap nat Z,
  cmd ∈ value -> (oid, m) ∈ leading_items cmd ->
  is_Some (written_by_commands value sigma !! oid).
Proof.
  induction value as [|c rest IH]; intros sigma Hcmd Hm;
    [apply elem_of_nil in Hcmd; contradiction|].
  change (written_by_commands (c :: rest) sigma)
    with (written_by_commands rest (write_positions 1 c sigma)).
  apply elem_of_cons in Hcmd as [->|Hcmd].
  - apply written_by_commands_keeps, (write_positions_sets _ _ m), Hm.
  - apply IH; assumption.
Qed.

Lemma written_by_items_keeps (lists : gmap nat (list Command))
    (items : list (string * ListObj)) (oid : nat) :
  forall sigma : gmap nat Z,
  is_Some (sigma !! oid) -> is_Some (written_by_items lists items sigma !! oid).
Proof.
  unfold written_by_items.
  induction items as [|[key l] rest IH]; intros sigma H; [exact H|].
  cbn [foldl fst snd]. apply IH.
  destruct (is_device_key key); [|exact H].
  apply written_by_commands_keeps, H.
Qed.

Lemma written_by_items_sets (lists : gmap nat (list Command))
    (items : list (string * ListObj)) (key : string) (l : ListObj)
    (cmd : Command) (oid : nat) (m : Matcher) :
  forall sigma : gmap nat Z,
  (key, l) ∈ items -> is_device_key key = true -> cmd ∈ contents lists l ->
  (oid, m) ∈ leading_items cmd ->
  is_Some (written_by_items lists items sigma !! oid).
Proof.
  induction items as [|[key0 l0] rest IH]; intros sigma Hl Hkey Hcmd Hm;
    [apply elem_of_nil in Hl; contradiction|].
  change (written_by_items lists ((key0, l0) :: rest) sigma)
    with (written_by_items lists rest
            (if is_device_key key0
             then written_by_commands (contents lists l0) sigma
             else sigma)).
  apply elem_of_cons in Hl as [Heq|Hl].
  - injection Heq as <- <-. rewrite Hkey.
    apply written_by_items_keeps, (written_by_commands_sets _ cmd _ m);
      assumption.
  - apply IH; assumption.
Qed.

(** C10, as the code has it.  The constructor is not pure.
    What it leaves alone: it writes to no list object when identification
    is not active; it changes the [pos] of a matcher object only if the
    object is in a command of a list of the tree.
    What it writes.  When it returns a generator and identification is
    active, it has appended the three identification commands, behind the
    commands already there, to the list under the first [device@] key
    (else under [device]); when it gets as far as that list and then meets
    an unknown key of the identification table, it has appended the first
    of them before it raises.  When it returns a generator, it has
    assigned [pos] for every matcher that a command of a device starts
    with, in the order of the tree: the [pos] attributes are then as these
    assignments leave them, so every such matcher object has a [pos], the
    number of bytes up to and including the matcher. *)
Theorem CodeGenerator_init_effects (tree : Tree) (s : Store) :
  let r := CodeGenerator_init tree s in
  let s' := fst r in
  let identification_commands :=
    [report_slave_id_command (st_next s);
     read_device_identification_command (st_next s);
     diagnostics_command (st_next s)] in
  (identification_active tree = false -> st_lists s' = st_lists s)
  /\ (st_lists s' = st_lists s
      \/ exists device added,
           identification_active tree = true
           /\ identification_device tree = Ok device
           /\ (added = [report_slave_id_command (st_next s)]
               \/ added = identification_commands)
           /\ st_lists s'
              = <[l_id device := contents (st_lists s) device ++ added]>
                  (st_lists s))
  /\ (forall oid : nat,
        st_pos s' !! oid = st_pos s !! oid
        \/ exists key l cmd m,
             (key, l) ∈ t_items tree /\ cmd ∈ contents (st_lists s') l
             /\ IMatcher oid m ∈ cmd)
  /\ (forall g,
        snd r = Ok g -> identification_active tree = true ->
        exists device,
          identification_device tree = Ok device
          /\ st_lists s'
             = <[l_id device :=
                   contents (st_lists s) device ++ identification_commands]>
                 (st_lists s))
  /\ (forall callback_list callbacks device e,
        t_callbacks tree = Some callback_list ->
        process_callbacks callback_list [] = Ok callbacks ->
        identification_active tree = true ->
        identification_device tree = Ok device ->
        conformity_loop (default "slave" (t_mode tree))
          (fst <$> default [] (t_identification tree)) 0 = Raise e ->
        snd r = Raise e
        /\ st_lists s'
           = <[l_id device :=
                 contents (st_lists s) device
                 ++ [report_slave_id_command (st_next s)]]> (st_lists s))
  /\ (forall g,
        snd r = Ok g ->
        st_pos s' = written_by_items (st_lists s') (t_items tree) (st_pos s)
        /\ forall key l cmd oid m,
             (key, l) ∈ t_items tree -> is_device_key key = true ->
             cmd ∈ contents (st_lists s') l -> (oid, m) ∈ leading_items cmd ->
             is_Some (st_pos s' !! oid)).
Proof.
  intros r s' identification_commands.
  destruct (CodeGenerator_init_frame tree s) as (Hinactive & Hlists & Hpos).
  split; [exact Hinactive|]. split; [exact Hlists|]. split; [exact Hpos|].
  split; [|split].
  - intros g Hg Hactive.
    destruct (CodeGenerator_init tree s) as [s0 res] eqn:Hinit.
    subst r s'. cbn [fst snd] in *. subst res.
    destruct (CodeGenerator_init_Ok _ _ _ _ Hinit)
      as (cl & cbs & s1 & g1 & _ & _ & Hid & _ & Hl & _).
    rewrite Hactive in Hid. rewrite Hl.
    destruct (identification_device tree) as [device|e] eqn:Hdevice.
    2:{ unfold inject_identification in Hid. rewrite Hdevice in Hid.
        discriminate Hid. }
    exists device. split; [reflexivity|].
    pose proof (inject_identification_lists tree
                  (generator_before_identification tree s cbs) s device Hdevice)
      as [_ Hcase].
    rewrite Hid in Hcase. cbn [fst snd] in Hcase.
    destruct (conformity_loop _ _ _) as [level|e].
    + exact (proj2 Hcase).
    + destruct Hcase as [Hraise _]. discriminate Hraise.
  - intros callback_list callbacks device e Hcl Hcbs Hactive Hdevice Hloop.
    subst r s'. unfold CodeGenerator_init. rewrite Hcl, Hcbs.
    pose proof Hactive as Hmode. unfold identification_active in Hmode.
    apply andb_true_iff in Hmode as [Hmode _].
    fold (generator_before_identification tree s callbacks).
    fold (identification_active tree). rewrite Hactive, Hmode. cbn [orb negb].
    pose proof (inject_identification_lists tree
                  (generator_before_identification tree s callbacks) s device
                  Hdevice) as [_ Hcase].
    cbn [generator_before_identification mode identification conformity_level]
      in Hcase.
    rewrite Hloop in Hcase. destruct Hcase as [Hraise Hl].
    destruct (inject_identification tree _ s) as [s1 res].
    cbn [fst snd] in *. subst res. split; [reflexivity|exact Hl].
  - intros g Hg.
    destruct (CodeGenerator_init tree s) as [s0 res] eqn:Hinit.
    subst r s'. cbn [fst snd] in *. subst res.
    destruct (CodeGenerator_init_Ok _ _ _ _ Hinit)
      as (cl & cbs & s1 & g1 & _ & _ & Hid & Hdev & Hl & _).
    assert (Hpos1 : st_pos s1 = st_pos s).
    { destruct (identification_active tree).
      - pose proof (inject_identification_store tree
                      (generator_before_identification tree s cbs) s) as [H _].
        rewrite Hid in H. exact H.
      - injection Hid as <- _. reflexivity. }
    unfold process_devices, new_state in Hdev.
    apply process_items_writes in Hdev. rewrite Hl, <- Hpos1.
    split; [exact Hdev|].
    intros key l cmd oid m Hin Hkey Hcmd Hm. rewrite Hdev.
    exact (written_by_items_sets _ _ key l cmd oid m _ Hin Hkey Hcmd Hm).
Qed.

(** On the tree with one short command and identification, the list of the
    device holds four commands after the constructor where it held one, and
    the matcher of the first command has got a [pos]. *)
Lemma constructor_mutates_tree :
  let s := mkStore ∅ ∅ 1 in
  let s' := fst (CodeGenerator_init small_identified_tree s) in
  contents (st_lists s) small_list = [small_command]
  /\ contents (st_lists s') small_list
     = [small_command; report_slave_id_command 1;
        read_device_identification_command 1; diagnostics_command 1]
  /\ contents (st_lists s') small_list <> contents (st_lists s) small_list
  /\ st_pos s !! 0%nat = None
  /\ st_pos s' !! 0%nat = Some 2.
Proof.
  cbv zeta.
  assert (H : contents
                (st_lists (fst (CodeGenerator_init small_identified_tree
                                  (mkStore ∅ ∅ 1)))) small_list
              = [small_command; report_slave_id_command 1;
                 read_device_identification_command 1; diagnostics_command 1])
    by (vm_compute; reflexivity).
  split; [reflexivity|]. split; [exact H|]. split; [rewrite H; discriminate|].
  split; [reflexivity|]. vm_compute. reflexivity.
Qed.

(** The theorem on that tree: the constructor returns a generator; the
    three commands were appended to the list of the device, and the
    matcher of its command has a [pos]. *)
Lemma CodeGenerator_init_effects_witness :
  let s := mkStore ∅ ∅ 1 in
  let r := CodeGenerator_init small_identified_tree s in
  (exists g, snd r = Ok g)
  /\ (exists device,
        identification_device small_identified_tree = Ok device
        /\ st_lists (fst r)
           = <[l_id device :=
                 contents ∅ device
                 ++ [report_slave_id_command 1;
                     read_device_identification_command 1;
                     diagnostics_command 1]]> ∅)
  /\ is_Some (st_pos (fst r) !! 0%nat).
Proof.
  cbv zeta.
  destruct (snd (CodeGenerator_init small_identified_tree (mkStore ∅ ∅ 1)))
    as [g|e] eqn:Hg; [|vm_compute in Hg; discriminate Hg].
  destruct (CodeGenerator_init_effects small_identified_tree (mkStore ∅ ∅ 1))
    as (_ & _ & _ & Happended & _ & Hwritten).
  split; [exists g; reflexivity|]. split.
  - exact (Happended g Hg eq_refl).
  - apply (proj2 (Hwritten g Hg) "device@1" small_list small_command 0%nat
             (mkMatcher U8 (VInt 3) None)).
    + apply list_elem_of_here.
    + reflexivity.
    + vm_compute. apply list_elem_of_here.
    + apply list_elem_of_here.
Defined.

(** ** Names given by [new_state] *)

Lemma append_empty_r (s : string) : s +:+ "" = s.
Proof.
  induction s as [|c s IH]; [reflexivity|].
  change (String c (s +:+ "") = String c s). rewrite IH. reflexivity.
Qed.

Lemma prefix_append (a x : string) : String.prefix a (a +:+ x) = true.
Proof.
  induction a as [|c a IH]; [destruct x; reflexivity|].
  change (String.prefix (String c a) (String c (a +:+ x)) = true).
  cbn [String.prefix]. destruct (ascii_dec c c); [exact IH|contradiction].
Qed.

Lemma candidate_prefix (new_state_name : string) (k : nat) :
  String.prefix new_state_name (candidate new_state_name k) = true.
Proof.
  destruct k; simpl.
  - rewrite <- (append_empty_r new_state_name) at 2. apply prefix_append.
  - apply prefix_append.
Qed.

Lemma candidate_inj (new_state_name : string) : Inj eq eq (candidate new_state_name).
Proof.
  intros [|j] [|k] H; simpl in H.
  - reflexivity.
  - rewrite <- (append_empty_r new_state_name) in H at 1.
    apply String.app_inj in H. discriminate H.
  - rewrite <- (append_empty_r new_state_name) in H at 2.
    apply String.app_inj in H. discriminate H.
  - do 2 apply String.app_inj in H. unfold str in H.
    apply (inj pretty) in H. lia.
Qed.

(** The loop returns a candidate that is free, unless every candidate it
    can reach with its fuel is taken. *)
Lemma new_state_loop_spec (names : list string) (new_state_name : string)
    (fuel : nat) :
  forall j,
  let r :=
    new_state_loop fuel names new_state_name (Z.of_nat (S j))
      (candidate new_state_name j) in
  (exists k, r = candidate new_state_name k)
  /\ (r ∉ names
      \/ forall k, (j <= k <= j + fuel)%nat -> candidate new_state_name k ∈ names).
Proof.
  induction fuel as [|fuel IH]; intros j; cbn [new_state_loop].
  - destruct (decide (candidate new_state_name j ∈ names)) as [Hin|Hout].
    + rewrite (bool_decide_eq_true_2 _ Hin). split; [eauto|].
      right. intros k Hk. replace k with j by lia. exact Hin.
    + rewrite (bool_decide_eq_false_2 _ Hout). split; [eauto|]. left. exact Hout.
  - destruct (decide (candidate new_state_name j ∈ names)) as [Hin|Hout].
    + rewrite (bool_decide_eq_true_2 _ Hin).
      replace (Z.of_nat (S j) + 1) with (Z.of_nat (S (S j))) by lia.
      change (new_state_name +:+ "_" +:+ str (Z.of_nat (S j)))
        with (candidate new_state_name (S j)).
      destruct (IH (S j)) as [Hk [Hfree|Htaken]].
      * split; [exact Hk|]. left. exact Hfree.
      * split; [exact Hk|]. right. intros k Hk'.
        destruct (decide (k = j)) as [->|Hne]; [exact Hin|].
        apply Htaken. lia.
    + rewrite (bool_decide_eq_false_2 _ Hout). split; [eauto|]. left. exact Hout.
Qed.

(** The loop of [new_state] leaves with a name no state has: the fuel
    given to [new_state_loop] is enough. *)
Lemma unique_name_fresh (g : CodeGenerator) (new_state_name : string) :
  unique_name g new_state_name ∉ s_name <$> states g.
Proof.
  unfold unique_name.
  set (names := s_name <$> List.filter _ (states g)).
  destruct (new_state_loop_spec names new_state_name (List.length names) 0%nat)
    as [[k Hk] Hfree].
  cbn [candidate] in Hk, Hfree. change (Z.of_nat 1) with 1 in Hk, Hfree.
  destruct Hfree as [Hfree|Htaken].
  - intros Hin. apply Hfree. rewrite Hk in *. subst names.
    apply list_elem_of_fmap in Hin as (st & Hname & Hst).
    apply list_elem_of_fmap. exists st. split; [exact Hname|].
    apply list_elem_of_In, filter_In. split; [apply list_elem_of_In; exact Hst|].
    rewrite <- Hname. apply candidate_prefix.
  - exfalso.
    assert (Hsub : candidate new_state_name <$> seq 0 (S (List.length names))
                   ⊆+ names).
    { apply NoDup_submseteq.
      - apply (NoDup_fmap_2 _ (Inj0 := candidate_inj new_state_name)), NoDup_seq.
      - intros x Hx. apply list_elem_of_fmap in Hx as (k' & -> & Hk').
        apply elem_of_seq in Hk'. apply Htaken. lia. }
    apply submseteq_length in Hsub.
    rewrite length_fmap, length_seq in Hsub. lia.
Qed.

(** X1.  [new_state] appends one state, without transition, under a name
    that no state has yet, and returns it: the loop over the candidate
    names always leaves with a free one. *)
Lemma new_state_spec (g : CodeGenerator) (new_state_name : string) (pos : Z) :
  let r := new_state g new_state_name pos in
  states (fst r)
  = states g ++ [mkState (unique_name g new_state_name) [] pos (mode g) None]
  /\ snd r = List.length (states g)
  /\ s_name (state_at (fst r) (snd r)) ∉ s_name <$> states g.
Proof.
  cbn. split; [reflexivity|]. split; [reflexivity|].
  unfold state_at. cbn [states set_states append_state].
  rewrite list_lookup_total_middle by reflexivity. cbn [s_name].
  apply unique_name_fresh.
Qed.

(** ** Prefix sharing *)

Lemma matcher_eqb_true (a b : Matcher) :
  matcher_eqb a b = true <-> m_cls a = m_cls b /\ m_value a = m_value b.
Proof.
  unfold matcher_eqb. rewrite andb_true_iff, !bool_decide_eq_true. reflexivity.
Qed.

Lemma matcher_eqb_congr (a b x : Matcher) :
  same_matcher a b -> matcher_eqb x a = matcher_eqb x b.
Proof.
  intros H. apply matcher_eqb_true in H as [Hc Hv].
  unfold matcher_eqb. rewrite Hc, Hv. reflexivity.
Qed.

Lemma extends_refl (g : CodeGenerator) : extends g g.
Proof. intros i s H. exists s. split; [exact H|reflexivity]. Qed.

Lemma extends_trans (g1 g2 g3 : CodeGenerator) :
  extends g1 g2 -> extends g2 g3 -> extends g1 g3.
Proof.
  intros H12 H23 i s H. destruct (H12 i s H) as (s2 & H2 & Hp2).
  destruct (H23 i s2 H2) as (s3 & H3 & Hp3).
  exists s3. split; [exact H3|]. etransitivity; eassumption.
Qed.

Lemma extends_length (g g' : CodeGenerator) :
  extends g g' -> (List.length (states g) <= List.length (states g'))%nat.
Proof.
  intros H. destruct (states g) as [|s0 l] eqn:Hs using rev_ind; [simpl; lia|].
  clear IHl. rewrite length_app. simpl.
  destruct (H (List.length l) s0) as (s' & Hs' & _).
  { rewrite Hs. apply list_lookup_middle. reflexivity. }
  apply lookup_lt_Some in Hs'. lia.
Qed.

Lemma state_at_lookup (g : CodeGenerator) (i : nat) :
  (i < List.length (states g))%nat -> states g !! i = Some (state_at g i).
Proof. intros H. apply list_lookup_lookup_total_lt. exact H. Qed.

Lemma extends_append_state (g : CodeGenerator) (st : State) :
  extends g (append_state g st).
Proof.
  intros i s H. exists s. split; [|reflexivity].
  cbn. apply lookup_app_l_Some. exact H.
Qed.

Lemma extends_add_transition (g : CodeGenerator) (i : nat) (t : Transition) :
  extends g (add_transition g i t).
Proof.
  intros j s H. cbn [add_transition set_states states].
  destruct (decide (i = j)) as [->|Hne].
  - exists (State_add s t). split.
    + rewrite list_lookup_alter, H.
      destruct (decide (j = j)); [reflexivity|contradiction].
    + cbn. apply prefix_app_r. reflexivity.
  - exists s. split; [|reflexivity].
    rewrite list_lookup_alter_ne by exact Hne. exact H.
Qed.

Lemma matcher_eqb_sym (a b : Matcher) : matcher_eqb a b = matcher_eqb b a.
Proof.
  apply eq_true_iff_eq. rewrite !matcher_eqb_true. intuition congruence.
Qed.


Lemma has_false (s : State) (m : Matcher) (t : Transition) :
  has s m = false -> t ∈ s_transition s -> matcher_eqb (t_matcher t) m = false.
Proof.
  unfold has. intros H Ht. destruct (matcher_eqb (t_matcher t) m) eqn:E; [|done].
  assert (existsb (fun t => matcher_eqb (t_matcher t) m) (s_transition s) = true).
  { apply existsb_exists. exists t. split; [apply list_elem_of_In; exact Ht|exact E]. }
  congruence.
Qed.

(** What [get_next_state_of] finds stays found when transitions are added
    behind. *)
Lemma find_prefix {A : Type} (f : A -> bool) (l l' : list A) (x : A) :
  l `prefix_of` l' -> List.find f l = Some x -> List.find f l' = Some x.
Proof.
  intros [k ->]. induction l as [|a l IH]; simpl; [discriminate|].
  destruct (f a); [done|exact IH].
Qed.

Lemma find_app_none {A : Type} (f : A -> bool) (l k : list A) :
  List.find f l = None -> List.find f (l ++ k) = List.find f k.
Proof.
  induction l as [|a l IH]; simpl; [done|]. destruct (f a); [discriminate|exact IH].
Qed.

Lemma has_get_next_state_of (s : State) (m : Matcher) :
  has s m = false <-> get_next_state_of s m = None.
Proof.
  unfold has, get_next_state_of.
  induction (s_transition s) as [|t l IH]; simpl; [done|].
  destruct (matcher_eqb (t_matcher t) m); simpl; [split; discriminate|exact IH].
Qed.

Lemma get_next_state_of_add (s : State) (t : Transition) :
  has s (t_matcher t) = false ->
  get_next_state_of (State_add s t) (t_matcher t) = Some (t_next t).
Proof.
  intros H. apply has_get_next_state_of in H.
  unfold get_next_state_of in *. cbn [State_add s_transition].
  destruct (List.find _ (s_transition s)) eqn:E; [discriminate H|].
  rewrite (find_app_none _ _ _ E). simpl.
  assert (Hrefl : matcher_eqb (t_matcher t) (t_matcher t) = true)
    by (apply matcher_eqb_true; done).
  rewrite Hrefl. reflexivity.
Qed.

Lemma get_next_state_of_in (s : State) (m : Matcher) (n : nat) :
  get_next_state_of s m = Some n ->
  exists t, t ∈ s_transition s /\ t_next t = n
            /\ matcher_eqb (t_matcher t) m = true.
Proof.
  unfold get_next_state_of. intros H.
  destruct (List.find _ (s_transition s)) as [t|] eqn:E; [|discriminate H].
  injection H as <-. apply find_some in E as [Hin Hm].
  exists t. split; [apply list_elem_of_In; exact Hin|]. split; [reflexivity|exact Hm].
Qed.

Lemma get_next_state_of_extends (g g' : CodeGenerator) (i : nat) (m : Matcher)
    (n : nat) :
  extends g g' -> (i < List.length (states g))%nat ->
  get_next_state_of (state_at g i) m = Some n ->
  get_next_state_of (state_at g' i) m = Some n.
Proof.
  intros Hext Hi H.
  destruct (Hext i _ (state_at_lookup g i Hi)) as (s' & Hs' & Hp).
  unfold state_at at 1. rewrite (list_lookup_total_correct _ _ _ Hs').
  unfold get_next_state_of in *.
  destruct (List.find _ (s_transition (state_at g i))) as [t|] eqn:E;
    [|discriminate H].
  rewrite (find_prefix _ _ _ _ Hp E). exact H.
Qed.

Lemma get_next_state_of_same (s : State) (a b : Matcher) :
  same_matcher a b -> get_next_state_of s a = get_next_state_of s b.
Proof.
  intros H. unfold get_next_state_of. f_equal.
  induction (s_transition s) as [|t l IH]; simpl; [done|].
  rewrite (matcher_eqb_congr a b _ H), IH. reflexivity.
Qed.

(** Adding states and transitions keeps the graph in shape. *)
Lemma graph_ok_append_state (g : CodeGenerator) (st : State) :
  graph_ok g -> s_transition st = [] -> graph_ok (append_state g st).
Proof.
  intros [Hroot Hnext Huniq] Hst. split; cbn [append_state set_states states].
  - rewrite length_app. lia.
  - intros i s t Hs Ht. rewrite length_app. cbn.
    apply lookup_app_Some in Hs as [Hs|[_ Hs]].
    + specialize (Hnext i s t Hs Ht). lia.
    + apply list_lookup_singleton_Some in Hs as [_ <-].
      rewrite Hst in Ht. apply elem_of_nil in Ht. contradiction.
  - intros i s Hs Hi. apply lookup_app_Some in Hs as [Hs|[_ Hs]].
    + exact (Huniq i s Hs Hi).
    + apply list_lookup_singleton_Some in Hs as [_ <-]. rewrite Hst.
      intros a b ta tb Ha. discriminate Ha.
Qed.

Lemma sibling_unique_snoc (l : list Transition) (t : Transition) :
  sibling_unique l ->
  (forall t', t' ∈ l -> matcher_eqb (t_matcher t') (t_matcher t) = false) ->
  sibling_unique (l ++ [t]).
Proof.
  intros Hl Hnew a b ta tb Ha Hb Heq.
  apply lookup_app_Some in Ha as [Ha|[Hla Ha]];
    apply lookup_app_Some in Hb as [Hb|[Hlb Hb]].
  - exact (Hl a b ta tb Ha Hb Heq).
  - apply list_lookup_singleton_Some in Hb as [_ <-].
    rewrite (Hnew ta) in Heq; [discriminate Heq|].
    apply list_elem_of_lookup. eauto.
  - apply list_lookup_singleton_Some in Ha as [_ <-].
    rewrite matcher_eqb_sym, (Hnew tb) in Heq; [discriminate Heq|].
    apply list_elem_of_lookup. eauto.
  - apply list_lookup_singleton_Some in Ha as [Ha _].
    apply list_lookup_singleton_Some in Hb as [Hb _]. lia.
Qed.

Lemma graph_ok_add_transition (g : CodeGenerator) (i : nat) (t : Transition) :
  graph_ok g ->
  (0 < t_next t < List.length (states g))%nat ->
  i = 0%nat \/ has (state_at g i) (t_matcher t) = false ->
  graph_ok (add_transition g i t).
Proof.
  intros [Hroot Hnext Huniq] Ht Hi.
  split; cbn [add_transition set_states states]; rewrite ?length_alter.
  - exact Hroot.
  - intros j s t' Hs Ht'. rewrite list_lookup_alter in Hs.
    destruct (decide (i = j)) as [->|Hne].
    + destruct (states g !! j) as [s0|] eqn:Hs0; [|discriminate Hs].
      injection Hs as <-. cbn in Ht'.
      apply elem_of_app in Ht' as [Ht'|Ht'].
      * exact (Hnext j s0 t' Hs0 Ht').
      * apply list_elem_of_singleton in Ht' as ->. exact Ht.
    + exact (Hnext j s t' Hs Ht').
  - intros j s Hs Hj. rewrite list_lookup_alter in Hs.
    destruct (decide (i = j)) as [->|Hne].
    + destruct (states g !! j) as [s0|] eqn:Hs0; [|discriminate Hs].
      injection Hs as <-. cbn [State_add s_transition].
      destruct Hi as [->|Hhas]; [contradiction|].
      unfold state_at in Hhas. rewrite (list_lookup_total_correct _ _ _ Hs0) in Hhas.
      apply sibling_unique_snoc; [exact (Huniq j s0 Hs0 Hj)|].
      intros t' Ht'. exact (has_false s0 _ t' Hhas Ht').
    + exact (Huniq j s Hs Hj).
Qed.

Lemma state_at_append_state (g : CodeGenerator) (st : State) (i : nat) :
  (i < List.length (states g))%nat -> state_at (append_state g st) i = state_at g i.
Proof.
  intros Hi. unfold state_at. cbn. apply lookup_total_app_l. exact Hi.
Qed.

Lemma state_at_add_transition (g : CodeGenerator) (i : nat) (t : Transition) :
  (i < List.length (states g))%nat ->
  state_at (add_transition g i t) i = State_add (state_at g i) t.
Proof.
  intros Hi. unfold state_at. cbn [add_transition set_states states].
  apply list_lookup_total_correct. rewrite list_lookup_alter.
  destruct (decide (i = i)); [|contradiction].
  rewrite (list_lookup_lookup_total_lt _ _ Hi). reflexivity.
Qed.

(** A path of the decoder stays its path when the graph grows. *)
Lemma walk_extends (g g' : CodeGenerator) (ms : list Matcher) :
  graph_ok g -> extends g g' ->
  forall s p, (s < List.length (states g))%nat ->
  walk g s ms = Some p -> walk g' s ms = Some p.
Proof.
  intros Hok Hext. induction ms as [|m ms IH]; intros s p Hs H; [exact H|].
  cbn [walk] in *.
  destruct (get_next_state_of (state_at g s) m) as [n|] eqn:Hn; [|discriminate H].
  rewrite (get_next_state_of_extends g g' s m n Hext Hs Hn).
  destruct (walk g n ms) as [p'|] eqn:Hp'; [|discriminate H].
  apply get_next_state_of_in in Hn as (t & Ht & <- & _).
  pose proof (ok_next g Hok s _ t (state_at_lookup g s Hs) Ht) as Hlt.
  rewrite (IH (t_next t) p' (proj2 Hlt) Hp'). exact H.
Qed.

Lemma walk_prefix (g : CodeGenerator) (ms ms' : list Matcher) :
  forall s p, walk g s (ms ++ ms') = Some p -> exists p', walk g s ms = Some p'.
Proof.
  induction ms as [|m ms IH]; intros s p H; [eexists; reflexivity|].
  cbn [walk app] in *. change ((m :: ms) ++ ms') with (m :: (ms ++ ms')) in H.
  cbn [walk] in H.
  destruct (get_next_state_of (state_at g s) m) as [n|]; [|discriminate H].
  destruct (walk g n (ms ++ ms')) as [q|] eqn:Hq; [|discriminate H].
  destruct (IH n q Hq) as [p' Hp']. rewrite Hp'. eexists. reflexivity.
Qed.

Lemma walk_same (g : CodeGenerator) (ms1 ms2 : list Matcher) :
  Forall2 same_matcher ms1 ms2 -> forall s, walk g s ms1 = walk g s ms2.
Proof.
  induction 1 as [|a b ms1 ms2 Hab _ IH]; intros s; [reflexivity|].
  cbn [walk]. rewrite (get_next_state_of_same _ a b Hab).
  destruct (get_next_state_of (state_at g s) b); [|reflexivity].
  rewrite IH. reflexivity.
Qed.



Lemma leading_matchers_app_str (cmd : Command) (s : string) :
  leading_matchers (cmd ++ [IStr s]) = leading_matchers cmd.
Proof.
  induction cmd as [|[oid m|s'] cmd IH]; [reflexivity| |reflexivity].
  cbn. rewrite IH. reflexivity.
Qed.

(** Inserting a command keeps the graph in shape and the states and
    transitions it had, and leaves a path along the matchers the command
    starts with. *)
Lemma process_loop_sharing (address_matcher : Matcher) (cmd rest : Command) :
  forall pos state g sigma sigma' g',
  graph_ok g -> (0 < state < List.length (states g))%nat ->
  process_loop address_matcher cmd rest pos state g sigma = (sigma', Ok g') ->
  graph_ok g' /\ extends g g'
  /\ exists p, walk g' state (leading_matchers rest) = Some p.
Proof.
  induction rest as [|[oid m|s] rest IH];
    intros pos state g sigma sigma' g' Hok Hstate H; cbn [process_loop] in H.
  - injection H as _ <-. split; [exact Hok|]. split; [apply extends_refl|].
    eexists. reflexivity.
  - destruct (has (state_at g state) m) eqn:Hhas.
    + destruct (get_next_state_of (state_at g state) m) as [next|] eqn:Hnext;
        [|discriminate H].
      destruct (get_next_state_of_in _ _ _ Hnext) as (t & Ht & <- & _).
      pose proof (ok_next g Hok state _ t
                    (state_at_lookup g state (proj2 Hstate)) Ht) as Hlt.
      destruct (IH _ _ _ _ _ _ Hok Hlt H) as (Hok' & Hext & p & Hp).
      split; [exact Hok'|]. split; [exact Hext|].
      exists (t_next t :: p). cbn [leading_matchers walk].
      rewrite (get_next_state_of_extends g g' state m _ Hext (proj2 Hstate) Hnext).
      rewrite Hp. reflexivity.
    + destruct rest as [|[oid' m'|s'] rest']; [discriminate H| |].
      * unfold new_state in H.
        set (st := mkState _ [] _ (mode g) None) in H.
        set (t := mkTransition m (List.length (states g)) false) in H.
        assert (Hok1 : graph_ok (append_state g st))
          by (apply graph_ok_append_state; [exact Hok|reflexivity]).
        assert (Hlen1 : List.length (states (append_state g st))
                        = S (List.length (states g)))
          by (cbn; rewrite length_app; cbn; lia).
        assert (Hok2 : graph_ok (add_transition (append_state g st) state t)).
        { apply graph_ok_add_transition; [exact Hok1|cbn [t t_next]; lia|].
          right. rewrite state_at_append_state by lia. exact Hhas. }
        assert (Hlen2 : List.length (states (add_transition (append_state g st)
                                               state t))
                        = S (List.length (states g)))
          by (cbn [add_transition set_states states]; rewrite length_alter;
              exact Hlen1).
        assert (Hnew : (0 < List.length (states g)
                        < List.length (states (add_transition (append_state g st)
                                                 state t)))%nat) by lia.
        destruct (IH _ _ _ _ _ _ Hok2 Hnew H) as (Hok' & Hext & p & Hp).
        assert (Hext2 : extends g (add_transition (append_state g st) state t))
          by (eapply extends_trans;
              [apply extends_append_state|apply extends_add_transition]).
        split; [exact Hok'|]. split; [eapply extends_trans; eassumption|].
        exists (List.length (states g) :: p).
        change (leading_matchers (IMatcher oid m :: IMatcher oid' m' :: rest'))
          with (m :: leading_matchers (IMatcher oid' m' :: rest')).
        cbn [walk].
        rewrite (get_next_state_of_extends _ g' state m (List.length (states g))
                   Hext); [|lia|].
        -- rewrite Hp. reflexivity.
        -- rewrite state_at_add_transition by lia.
           rewrite state_at_append_state by lia.
           apply (get_next_state_of_add (state_at g state) t). exact Hhas.
      * destruct (last cmd) as [[|command_name]|]; try discriminate H.
        unfold new_state in H.
        set (st := mkState _ [] _ (mode g) None) in H.
        set (t := mkTransition m (List.length (states g)) true) in H.
        set (g2 := add_transition (append_state g st) state t) in H.
        assert (Hok1 : graph_ok (append_state g st))
          by (apply graph_ok_append_state; [exact Hok|reflexivity]).
        assert (Hlen1 : List.length (states (append_state g st))
                        = S (List.length (states g)))
          by (cbn; rewrite length_app; cbn; lia).
        assert (Hok2 : graph_ok g2).
        { apply graph_ok_add_transition; [exact Hok1|cbn [t t_next]; lia|].
          right. rewrite state_at_append_state by lia. exact Hhas. }
        assert (Hlen2 : List.length (states g2) = S (List.length (states g)))
          by (cbn [g2 add_transition set_states states]; rewrite length_alter;
              exact Hlen1).
        assert (Hext2 : extends g g2)
          by (eapply extends_trans;
              [apply extends_append_state|apply extends_add_transition]).
        assert (Hfinal : forall op,
          let g3 :=
            append_state g2
              (mkState ("RDY_TO_CALL__" +:+ upper command_name) [] 0 "slave"
                 (Some op)) in
          let g4 :=
            add_transition g3 (List.length (states g))
              (mkTransition (mkMatcher Crc VNone None)
                 (List.length (states g2)) false) in
          graph_ok g4 /\ extends g g4
          /\ exists p, walk g4 state [m] = Some p).
        { intros op g3 g4.
          assert (Hok3 : graph_ok g3)
            by (apply graph_ok_append_state; [exact Hok2|reflexivity]).
          assert (Hlen3 : List.length (states g3) = S (S (List.length (states g))))
            by (cbn [g3 append_state set_states states]; rewrite length_app, Hlen2;
                cbn; lia).
          assert (Hok4 : graph_ok g4).
          { apply graph_ok_add_transition; [exact Hok3|cbn [t_next]; lia|].
            right. unfold g3. rewrite state_at_append_state by lia.
            unfold g2. unfold state_at.
            cbn [add_transition append_state set_states states].
            rewrite list_lookup_total_alter_ne by lia.
            rewrite list_lookup_total_middle by reflexivity. reflexivity. }
          assert (Hext4 : extends g2 g4)
            by (eapply extends_trans;
                [apply extends_append_state|apply extends_add_transition]).
          split; [exact Hok4|]. split; [eapply extends_trans; eassumption|].
          exists [List.length (states g)]. cbn [walk].
          rewrite (get_next_state_of_extends g2 g4 state m
                     (List.length (states g)) Hext4); [reflexivity|lia|].
          unfold g2. rewrite state_at_add_transition by lia.
          rewrite state_at_append_state by lia.
          apply (get_next_state_of_add (state_at g state) t). exact Hhas. }
        destruct (negb (command_name =? "NOTHING")%string).
        -- destruct (dict_get (callbacks g2) command_name) as [prototype|];
             [|discriminate H].
           injection H as _ <-. apply Hfinal.
        -- injection H as _ <-. apply Hfinal.
  - discriminate H.
Qed.

Lemma process_sequence_sharing (address_matcher : Matcher) (state : nat)
    (cmd : Command) (g : CodeGenerator) (sigma sigma' : gmap nat Z)
    (g' : CodeGenerator) :
  graph_ok g -> (0 < state < List.length (states g))%nat ->
  process_sequence address_matcher state cmd g sigma = (sigma', Ok g') ->
  graph_ok g' /\ extends g g'
  /\ exists p, walk g' state (leading_matchers cmd) = Some p.
Proof.
  unfold process_sequence. intros Hok Hstate H.
  destruct (last cmd) as [[oid m|callback]|]; [| |discriminate H].
  - rewrite <- (leading_matchers_app_str cmd "NOTHING").
    eapply process_loop_sharing; eassumption.
  - destruct (negb (dict_in (callbacks g) callback)); [discriminate H|].
    eapply process_loop_sharing; eassumption.
Qed.

Lemma process_commands_sharing (address_matcher : Matcher) (device_state : nat)
    (value : list Command) :
  forall g sigma sigma' g',
  graph_ok g -> (0 < device_state < List.length (states g))%nat ->
  process_commands address_matcher device_state value g sigma = (sigma', Ok g') ->
  graph_ok g' /\ extends g g'
  /\ forall cmd, cmd ∈ value ->
       exists p, walk g' device_state (leading_matchers cmd) = Some p.
Proof.
  induction value as [|command rest IH]; intros g sigma sigma' g' Hok Hd H;
    cbn [process_commands] in H.
  - injection H as _ <-. split; [exact Hok|]. split; [apply extends_refl|].
    intros cmd Hcmd. apply elem_of_nil in Hcmd. contradiction.
  - destruct (process_sequence address_matcher device_state command g sigma)
      as [sigma1 [g1|e]] eqn:Hseq; [|discriminate H].
    destruct (process_sequence_sharing _ _ _ _ _ _ _ Hok Hd Hseq)
      as (Hok1 & Hext1 & p1 & Hp1).
    assert (Hd1 : (0 < device_state < List.length (states g1))%nat)
      by (pose proof (extends_length _ _ Hext1); lia).
    destruct (IH _ _ _ _ Hok1 Hd1 H) as (Hok' & Hext' & Hrest).
    split; [exact Hok'|]. split; [eapply extends_trans; eassumption|].
    intros cmd Hcmd. apply elem_of_cons in Hcmd as [->|Hcmd].
    + exists p1. eapply walk_extends; [exact Hok1|exact Hext'|lia|exact Hp1].
    + apply Hrest. exact Hcmd.
Qed.









(** Scenario S2 evaluated: the two commands go through the states 2 and 3
    for the shared matchers and part behind them. *)
Example prefix_sharing_s2 :
  exists s' g,
    CodeGenerator_init shared_prefix_tree (mkStore ∅ ∅ 6) = (s', Ok g)
    /\ s_name <$> states g
       = ["DEVICE_ADDRESS"; "DEVICE_1"; "DEVICE_1_1"; "DEVICE_1_1_1";
          "DEVICE_1_1_1__ON_A__CRC"; "RDY_TO_CALL__ON_A";
          "DEVICE_1_1_1__ON_B__CRC"; "RDY_TO_CALL__ON_B"]
    /\ paths g 1 [mkMatcher U8 (VInt 3) None; mkMatcher U16 (VRange 0 0xFF) None]
       = [[2; 3]%nat].
Proof. do 2 eexists. split; [vm_compute; reflexivity|]. split; reflexivity. Qed.

(** ** The commands that the buffer does cover *)

Lemma foldl_max_bounds (f : Command -> Z) (l : list Command) :
  forall acc,
  acc <= foldl (fun acc cmd => Z.max acc (f cmd)) acc l
  /\ forall cmd, cmd ∈ l -> f cmd <= foldl (fun acc cmd => Z.max acc (f cmd)) acc l.
Proof.
  induction l as [|x l IH]; intros acc; cbn [foldl].
  - split; [lia|]. intros cmd H. apply elem_of_nil in H. contradiction.
  - destruct (IH (Z.max acc (f x))) as [Hacc Hl]. split; [lia|].
    intros cmd H. apply elem_of_cons in H as [->|H]; [lia|apply Hl; exact H].
Qed.

Lemma measure_commands_bounds (lists : gmap nat (list Command))
    (items : list (string * ListObj)) :
  forall acc,
  let step := fun acc (kv : string * ListObj) =>
    if is_sized_device_key (fst kv) then
      foldl (fun acc cmd => Z.max acc (command_size cmd)) acc
        (contents lists (snd kv))
    else acc in
  acc <= foldl step acc items
  /\ forall key l cmd,
       (key, l) ∈ items -> is_sized_device_key key = true ->
       cmd ∈ contents lists l -> command_size cmd <= foldl step acc items.
Proof.
  induction items as [|[k v] items IH]; intros acc step; cbn [foldl].
  - split; [lia|]. intros key l cmd H. apply elem_of_nil in H. contradiction.
  - destruct (IH (step acc (k, v))) as [Hacc Hl]. fold step in Hacc, Hl.
    assert (Hstep : acc <= step acc (k, v)).
    { unfold step. cbn [fst snd]. destruct (is_sized_device_key k); [|lia].
      apply foldl_max_bounds. }
    split; [lia|].
    intros key l cmd H Hkey Hcmd. apply elem_of_cons in H as [Heq|H].
    + injection Heq as -> ->.
      assert (command_size cmd <= step acc (k, v)); [|lia].
      unfold step. cbn [fst snd]. rewrite Hkey.
      apply foldl_max_bounds. exact Hcmd.
    + exact (Hl key l cmd H Hkey Hcmd).
Qed.

(** X2.  The part of the buffer sizing that holds: the buffer is at least
    the floor of the tree, and it covers, with four more bytes, every
    command that stood under a key of the form [device] or
    [device@<decimal>] when the constructor was called. *)
Lemma buffer_size_covers_measured (tree : Tree) (s s' : Store)
    (g : CodeGenerator) :
  CodeGenerator_init tree s = (s', Ok g) ->
  default 0 (t_buffer_size tree) <= max_buf_size g
  /\ forall key l cmd,
       (key, l) ∈ t_items tree -> is_sized_device_key key = true ->
       cmd ∈ contents (st_lists s) l -> command_size cmd + 4 <= max_buf_size g.
Proof.
  intros Hinit.
  destruct (CodeGenerator_init_Ok _ _ _ _ Hinit)
    as (cl & cbs & s1 & g1 & _ & _ & Hid & Hdev & _).
  apply process_devices_settings in Hdev.
  unfold settings in Hdev. injection Hdev as _ Hbuf _ _ _ _ _ _.
  assert (Hg1 : max_buf_size g1
                = Z.max (measure_commands (st_lists s) (t_items tree) + 4)
                    (default 0 (t_buffer_size tree))).
  { destruct (identification_active tree).
    - apply inject_identification_settings in Hid as (_ & _ & _ & -> & _).
      reflexivity.
    - injection Hid as _ <-. reflexivity. }
  rewrite Hbuf, Hg1. split; [lia|].
  intros key l cmd Hl Hkey Hcmd.
  pose proof (proj2 (measure_commands_bounds (st_lists s) (t_items tree) 0)
                key l cmd Hl Hkey Hcmd) as H.
  unfold measure_commands. lia.
Qed.

(** The theorem on scenario S2: the commands are four bytes long, the
    buffer is eight bytes at least. *)
Lemma buffer_size_covers_measured_witness :
  exists s' g,
    CodeGenerator_init shared_prefix_tree (mkStore ∅ ∅ 6) = (s', Ok g)
    /\ 8 <= max_buf_size g.
Proof.
  destruct (CodeGenerator_init shared_prefix_tree (mkStore ∅ ∅ 6))
    as [s' [g|e]] eqn:Hinit; [|vm_compute in Hinit; discriminate Hinit].
  exists s', g. split; [reflexivity|].
  apply (proj2 (buffer_size_covers_measured _ _ _ _ Hinit) "device@1"
           shared_prefix_list
           [IMatcher 0 (mkMatcher U8 (VInt 3) None);
            IMatcher 1 (mkMatcher U16 (VRange 0 0xFF) None);
            IMatcher 2 (mkMatcher U8 (VInt 1) None); IStr "on_a"]).
  - apply list_elem_of_here.
  - reflexivity.
  - apply list_elem_of_here.
Defined.

(** ** The shape of the automaton *)

Lemma lookup_append_state (g : CodeGenerator) (st : State) (j : nat) (s : State) :
  states (append_state g st) !! j = Some s ->
  states g !! j = Some s \/ (j = List.length (states g) /\ s = st).
Proof.
  cbn. intros H. apply lookup_app_Some in H as [H|[Hj H]]; [left; exact H|].
  apply list_lookup_singleton_Some in H as [Hj' <-]. right. split; [lia|reflexivity].
Qed.

Lemma lookup_add_transition (g : CodeGenerator) (i : nat) (t : Transition)
    (j : nat) (s' : State) :
  states (add_transition g i t) !! j = Some s' ->
  exists s,
    states g !! j = Some s /\ s_name s' = s_name s /\ s_pos s' = s_pos s
    /\ s_mode s' = s_mode s /\ s_op s' = s_op s
    /\ ((j <> i /\ s' = s)
        \/ (j = i /\ s_transition s' = s_transition s ++ [t])).
Proof.
  cbn [add_transition set_states states]. rewrite list_lookup_alter.
  destruct (decide (i = j)) as [->|Hne]; intros H.
  - destruct (states g !! j) as [s|]; [|discriminate H]. injection H as <-.
    exists s. repeat split. right. split; reflexivity.
  - exists s'. repeat split; [exact H|]. left. split; [congruence|reflexivity].
Qed.

(** The transitions of a state after [add_transition] are those it had,
    or those and the new one. *)
Lemma transition_add_transition (g : CodeGenerator) (i : nat) (t : Transition)
    (j : nat) (s' : State) (t' : Transition) :
  states (add_transition g i t) !! j = Some s' -> t' ∈ s_transition s' ->
  exists s, states g !! j = Some s /\ s_name s' = s_name s
            /\ s_pos s' = s_pos s /\ s_op s' = s_op s
            /\ (t' ∈ s_transition s \/ (j = i /\ t' = t)).
Proof.
  intros H Ht'. apply lookup_add_transition in H
    as (s & Hs & Hn & Hp & _ & Ho & [[_ ->]|[-> Htr]]).
  - exists s. repeat split; try assumption. left. exact Ht'.
  - exists s. repeat split; try assumption. rewrite Htr in Ht'.
    apply elem_of_app in Ht' as [Ht'|Ht']; [left; exact Ht'|].
    apply list_elem_of_singleton in Ht'. right. split; [reflexivity|exact Ht'].
Qed.

Lemma graph_shape_append_plain (g : CodeGenerator) (name : string) (pos : Z)
    (md : string) :
  graph_shape g -> name ∉ (s_name <$> states g) ->
  graph_shape (append_state g (mkState name [] pos md None)).
Proof.
  intros [Hroot Hfwd Hinc Hpos Hcrc Hterm Hnames] Hfresh.
  assert (Hlen : List.length (states (append_state g (mkState name [] pos md None)))
                 = S (List.length (states g)))
    by (cbn; rewrite length_app; cbn; lia).
  assert (Hold : forall i s t,
    states (append_state g (mkState name [] pos md None)) !! i = Some s ->
    t ∈ s_transition s -> states g !! i = Some s).
  { intros i s t Hs Ht. apply lookup_append_state in Hs as [Hs|[_ ->]]; [exact Hs|].
    apply elem_of_nil in Ht. contradiction. }
  split.
  - destruct Hroot as (s & Hs & Hp & Ho). exists s. split; [|split; assumption].
    cbn. apply lookup_app_l_Some. exact Hs.
  - intros i s t Hs Ht. rewrite Hlen.
    pose proof (Hfwd i s t (Hold i s t Hs Ht) Ht). lia.
  - intros i j s s' k k' t t' Hs Hs' Hk Hk' Heq.
    apply (Hinc i j s s' k k' t t'); try assumption.
    + apply (Hold i s t Hs). apply list_elem_of_lookup. eauto.
    + apply (Hold j s' t' Hs'). apply list_elem_of_lookup. eauto.
  - intros i s t s' Hs Ht Hs' Hop.
    pose proof (Hold i s t Hs Ht) as Hs0. pose proof (Hfwd i s t Hs0 Ht) as Hlt.
    apply lookup_append_state in Hs' as [Hs'|[Hj _]]; [|lia].
    exact (Hpos i s t s' Hs0 Ht Hs' Hop).
  - intros i s t s' op Hs Ht Hs' Hop.
    pose proof (Hold i s t Hs Ht) as Hs0. pose proof (Hfwd i s t Hs0 Ht) as Hlt.
    apply lookup_append_state in Hs' as [Hs'|[Hj _]]; [|lia].
    exact (Hcrc i s t s' op Hs0 Ht Hs' Hop).
  - intros i s op Hs Hop.
    apply lookup_append_state in Hs as [Hs|[_ ->]]; [|discriminate Hop].
    exact (Hterm i s op Hs Hop).
  - intros i j s s' Hs Hs' Ho Ho' Heq.
    apply lookup_append_state in Hs as [Hs|[Hi ->]];
      apply lookup_append_state in Hs' as [Hs'|[Hj ->]].
    + exact (Hnames i j s s' Hs Hs' Ho Ho' Heq).
    + exfalso. apply Hfresh. cbn in Heq. rewrite <- Heq.
      apply list_elem_of_fmap. exists s. split; [reflexivity|].
      apply list_elem_of_lookup. eauto.
    + exfalso. apply Hfresh. cbn in Heq. rewrite Heq.
      apply list_elem_of_fmap. exists s'. split; [reflexivity|].
      apply list_elem_of_lookup. eauto.
    + lia.
Qed.

Lemma graph_shape_append_operation (g : CodeGenerator) (command_name : string)
    (op : Op) :
  graph_shape g ->
  op = NoOperation
  \/ (exists prototype chain,
        op = Operation command_name prototype chain
        /\ dict_get (callbacks g) command_name = Some prototype) ->
  graph_shape
    (append_state g
       (mkState ("RDY_TO_CALL__" +:+ upper command_name) [] 0 "slave" (Some op))).
Proof.
  intros [Hroot Hfwd Hinc Hpos Hcrc Hterm Hnames] Hop.
  set (st := mkState ("RDY_TO_CALL__" +:+ upper command_name) [] 0 "slave"
               (Some op)).
  assert (Hlen : List.length (states (append_state g st))
                 = S (List.length (states g)))
    by (cbn; rewrite length_app; cbn; lia).
  assert (Hold : forall i s t,
    states (append_state g st) !! i = Some s -> t ∈ s_transition s ->
    states g !! i = Some s).
  { intros i s t Hs Ht. apply lookup_append_state in Hs as [Hs|[_ ->]]; [exact Hs|].
    apply elem_of_nil in Ht. contradiction. }
  split.
  - destruct Hroot as (s & Hs & Hp & Ho). exists s. split; [|split; assumption].
    cbn. apply lookup_app_l_Some. exact Hs.
  - intros i s t Hs Ht. rewrite Hlen.
    pose proof (Hfwd i s t (Hold i s t Hs Ht) Ht). lia.
  - intros i j s s' k k' t t' Hs Hs' Hk Hk' Heq.
    apply (Hinc i j s s' k k' t t'); try assumption.
    + apply (Hold i s t Hs). apply list_elem_of_lookup. eauto.
    + apply (Hold j s' t' Hs'). apply list_elem_of_lookup. eauto.
  - intros i s t s' Hs Ht Hs' Hop'.
    pose proof (Hold i s t Hs Ht) as Hs0. pose proof (Hfwd i s t Hs0 Ht) as Hlt.
    apply lookup_append_state in Hs' as [Hs'|[Hj _]]; [|lia].
    exact (Hpos i s t s' Hs0 Ht Hs' Hop').
  - intros i s t s' op' Hs Ht Hs' Hop'.
    pose proof (Hold i s t Hs Ht) as Hs0. pose proof (Hfwd i s t Hs0 Ht) as Hlt.
    apply lookup_append_state in Hs' as [Hs'|[Hj _]]; [|lia].
    exact (Hcrc i s t s' op' Hs0 Ht Hs' Hop').
  - intros i s op' Hs Hop'.
    apply lookup_append_state in Hs as [Hs|[_ ->]].
    + exact (Hterm i s op' Hs Hop').
    + cbn in Hop'. injection Hop' as <-. cbn. repeat split.
      exists command_name. split; [reflexivity|exact Hop].
  - intros i j s s' Hs Hs' Ho Ho' Heq.
    apply lookup_append_state in Hs as [Hs|[_ ->]]; [|discriminate Ho].
    apply lookup_append_state in Hs' as [Hs'|[_ ->]]; [|discriminate Ho'].
    exact (Hnames i j s s' Hs Hs' Ho Ho' Heq).
Qed.

Lemma graph_shape_add_transition (g : CodeGenerator) (i : nat)
    (t : Transition) (si sn : State) :
  graph_shape g ->
  states g !! i = Some si -> states g !! t_next t = Some sn ->
  (i < t_next t)%nat ->
  (forall j s t', states g !! j = Some s -> t' ∈ s_transition s ->
                  t_next t' <> t_next t) ->
  (s_op sn = None -> s_pos sn = s_pos si + m_size (t_matcher t)) ->
  (forall op, s_op sn = Some op -> t_matcher t = crc_tail) ->
  graph_shape (add_transition g i t).
Proof.
  intros [Hroot Hfwd Hinc Hpos Hcrc Hterm Hnames] Hsi Hsn Hlt Hnew Hp Hc.
  assert (Hlen : List.length (states (add_transition g i t))
                 = List.length (states g))
    by (cbn [add_transition set_states states]; apply length_alter).
  assert (Htarget : forall j s',
    states (add_transition g i t) !! j = Some s' ->
    exists s, states g !! j = Some s /\ s_pos s' = s_pos s /\ s_op s' = s_op s).
  { intros j s' H. apply lookup_add_transition in H
      as (s & Hs & _ & Hps & _ & Hos & _). eauto. }
  split.
  - destruct Hroot as (s & Hs & Hps & Hos).
    destruct (lookup_lt_is_Some_2 (states (add_transition g i t)) 0) as [s' Hs'].
    { rewrite Hlen. apply lookup_lt_Some in Hs. exact Hs. }
    exists s'. split; [exact Hs'|].
    apply lookup_add_transition in Hs' as (s0 & Hs0 & _ & Hp0 & _ & Ho0 & _).
    rewrite Hs in Hs0. injection Hs0 as <-. split; congruence.
  - intros j s t' Hs Ht'. rewrite Hlen.
    apply (transition_add_transition g i t j s t' Hs) in Ht'
      as (s0 & Hs0 & _ & _ & _ & [Ht'|[-> ->]]).
    + exact (Hfwd j s0 t' Hs0 Ht').
    + split; [exact Hlt|]. apply lookup_lt_Some in Hsn. exact Hsn.
  - intros j1 j2 s1 s2 k1 k2 t1 t2 Hs1 Hs2 Hk1 Hk2 Heq.
    apply lookup_add_transition in Hs1
      as (a1 & Ha1 & _ & _ & _ & _ & Hc1).
    apply lookup_add_transition in Hs2
      as (a2 & Ha2 & _ & _ & _ & _ & Hc2).
    assert (Hcase : forall j s a k t0,
      states g !! j = Some a ->
      ((j <> i /\ s = a) \/ (j = i /\ s_transition s = s_transition a ++ [t])) ->
      s_transition s !! k = Some t0 ->
      s_transition a !! k = Some t0
      \/ (j = i /\ k = List.length (s_transition a) /\ t0 = t)).
    { intros j s a k t0 Ha [[_ ->]|[-> Htr]] Hk; [left; exact Hk|].
      rewrite Htr in Hk. apply lookup_app_Some in Hk as [Hk|[Hge Hk]];
        [left; exact Hk|].
      apply list_lookup_singleton_Some in Hk as [Hk <-].
      right. repeat split. lia. }
    destruct (Hcase _ _ _ _ _ Ha1 Hc1 Hk1) as [Ho1|(-> & -> & ->)];
      destruct (Hcase _ _ _ _ _ Ha2 Hc2 Hk2) as [Ho2|(-> & -> & ->)].
    + exact (Hinc j1 j2 a1 a2 k1 k2 t1 t2 Ha1 Ha2 Ho1 Ho2 Heq).
    + exfalso. apply (Hnew j1 a1 t1 Ha1); [|exact Heq].
      apply list_elem_of_lookup. eauto.
    + exfalso. apply (Hnew j2 a2 t2 Ha2); [|symmetry; exact Heq].
      apply list_elem_of_lookup. eauto.
    + rewrite Ha1 in Ha2. injection Ha2 as <-. split; reflexivity.
  - intros j s t' s' Hs Ht' Hs' Hop.
    apply (transition_add_transition g i t j s t' Hs) in Ht'
      as (s0 & Hs0 & _ & Hps0 & _ & [Ht'|[-> ->]]);
      destruct (Htarget _ _ Hs') as (s0' & Hs0' & Hps' & Hos').
    + rewrite Hps', Hps0. apply (Hpos j s0 t' s0' Hs0 Ht' Hs0'). congruence.
    + rewrite Hs0 in Hsi. injection Hsi as ->.
      rewrite Hs0' in Hsn. injection Hsn as ->.
      rewrite Hps', Hps0. apply Hp. congruence.
  - intros j s t' s' op Hs Ht' Hs' Hop.
    apply (transition_add_transition g i t j s t' Hs) in Ht'
      as (s0 & Hs0 & _ & _ & _ & [Ht'|[-> ->]]);
      destruct (Htarget _ _ Hs') as (s0' & Hs0' & _ & Hos').
    + apply (Hcrc j s0 t' s0' op Hs0 Ht' Hs0'). congruence.
    + rewrite Hs0' in Hsn. injection Hsn as ->.
      apply (Hc op). congruence.
  - intros j s op Hs Hop.
    apply lookup_add_transition in Hs as (s0 & Hs0 & Hn & Hps & Hm & Hos & _).
    rewrite Hn, Hps, Hm. apply (Hterm j s0 op Hs0). congruence.
  - intros j1 j2 s1 s2 Hs1 Hs2 Ho1 Ho2 Heq.
    apply lookup_add_transition in Hs1 as (a1 & Ha1 & Hn1 & _ & _ & Hop1 & _).
    apply lookup_add_transition in Hs2 as (a2 & Ha2 & Hn2 & _ & _ & Hop2 & _).
    apply (Hnames j1 j2 a1 a2 Ha1 Ha2); congruence.
Qed.

(** A new plain state behind [state], entered on [m]. *)
Lemma graph_shape_new_transition (g : CodeGenerator) (state : nat) (m : Matcher)
    (flag : bool) (name : string) :
  graph_shape g -> (state < List.length (states g))%nat ->
  name ∉ (s_name <$> states g) ->
  graph_shape
    (add_transition
       (append_state g
          (mkState name [] (s_pos (state_at g state) + m_size m) (mode g) None))
       state (mkTransition m (List.length (states g)) flag)).
Proof.
  intros Hshape Hstate Hfresh.
  set (st := mkState name [] (s_pos (state_at g state) + m_size m) (mode g) None).
  apply (graph_shape_add_transition _ _ _ (state_at g state) st).
  - apply graph_shape_append_plain; assumption.
  - cbn. apply lookup_app_l_Some, state_at_lookup. exact Hstate.
  - cbn. apply list_lookup_middle. reflexivity.
  - cbn. exact Hstate.
  - intros j s t' Hs Ht'. cbn [t_next].
    apply lookup_append_state in Hs as [Hs|[_ ->]].
    + pose proof (shape_forward g Hshape j s t' Hs Ht'). lia.
    + apply elem_of_nil in Ht'. contradiction.
  - intros _. reflexivity.
  - intros op Hop. discriminate Hop.
Qed.

(** The state of a call behind the state [crc], entered on the CRC. *)
Lemma graph_shape_call_transition (g : CodeGenerator) (crc : nat)
    (command_name : string) (op : Op) :
  graph_shape g -> (crc < List.length (states g))%nat ->
  op = NoOperation
  \/ (exists prototype chain,
        op = Operation command_name prototype chain
        /\ dict_get (callbacks g) command_name = Some prototype) ->
  graph_shape
    (add_transition
       (append_state g
          (mkState ("RDY_TO_CALL__" +:+ upper command_name) [] 0 "slave"
             (Some op)))
       crc (mkTransition crc_tail (List.length (states g)) false)).
Proof.
  intros Hshape Hcrc Hop.
  set (st := mkState ("RDY_TO_CALL__" +:+ upper command_name) [] 0 "slave"
               (Some op)).
  apply (graph_shape_add_transition _ _ _ (state_at g crc) st).
  - apply graph_shape_append_operation; assumption.
  - cbn. apply lookup_app_l_Some, state_at_lookup. exact Hcrc.
  - cbn. apply list_lookup_middle. reflexivity.
  - cbn. exact Hcrc.
  - intros j s t' Hs Ht'. cbn [t_next].
    apply lookup_append_state in Hs as [Hs|[_ ->]].
    + pose proof (shape_forward g Hshape j s t' Hs Ht'). lia.
    + apply elem_of_nil in Ht'. contradiction.
  - intros Hnone. discriminate Hnone.
  - intros op' _. reflexivity.
Qed.

Lemma filter_alter_length {A : Type} (p : A -> bool) (f : A -> A) (l : list A) :
  (forall x, p (f x) = p x) ->
  forall i, List.length (List.filter p (alter f i l)) = List.length (List.filter p l).
Proof.
  intros Hp. induction l as [|x l IH]; intros [|i]; cbn; try reflexivity.
  - rewrite Hp. destruct (p x); reflexivity.
  - destruct (p x); cbn; rewrite IH; reflexivity.
Qed.

Lemma operation_states_add_transition (g : CodeGenerator) (i : nat)
    (t : Transition) :
  List.length (operation_states (add_transition g i t))
  = List.length (operation_states g).
Proof.
  unfold operation_states. cbn [add_transition set_states states].
  apply filter_alter_length. intros x. reflexivity.
Qed.

Lemma operation_states_append (g : CodeGenerator) (st : State) :
  List.length (operation_states (append_state g st))
  = (List.length (operation_states g)
     + (if is_operation_state st then 1 else 0))%nat.
Proof.
  unfold operation_states. cbn [append_state set_states states].
  rewrite List.filter_app, length_app. cbn.
  destruct (is_operation_state st); reflexivity.
Qed.

Lemma last_cons_str (x : Item) (rest : list Item) (name : string) :
  rest <> [] -> last (x :: rest) = Some (IStr name) -> last rest = Some (IStr name).
Proof.
  intros Hne H. rewrite last_cons in H.
  destruct (last rest) as [y|] eqn:E; [exact H|].
  apply last_None in E. contradiction.
Qed.

(** Inserting a command keeps the shape, changes nothing of the generator
    but its states, drops no state, and adds exactly one state of a
    call. *)
Lemma process_loop_shape (address_matcher : Matcher) (cmd rest : Command) :
  forall pos state g sigma sigma' g',
  graph_shape g -> (state < List.length (states g))%nat ->
  (exists name, last rest = Some (IStr name)) ->
  process_loop address_matcher cmd rest pos state g sigma = (sigma', Ok g') ->
  graph_shape g' /\ g' = set_states g (states g')
  /\ (List.length (states g) <= List.length (states g'))%nat
  /\ List.length (operation_states g') = S (List.length (operation_states g)).
Proof.
  induction rest as [|[oid m|s] rest IH];
    intros pos state g sigma sigma' g' Hshape Hstate [name Hlast] H;
    cbn [process_loop] in H.
  - discriminate Hlast.
  - destruct (has (state_at g state) m) eqn:Hhas.
    + destruct (get_next_state_of (state_at g state) m) as [next|] eqn:Hnext;
        [|discriminate H].
      destruct (get_next_state_of_in _ _ _ Hnext) as (t & Ht & <- & _).
      pose proof (shape_forward g Hshape state _ t
                    (state_at_lookup g state Hstate) Ht) as Hlt.
      apply (IH _ _ _ _ _ _ Hshape (proj2 Hlt)) in H; [exact H|].
      exists name. apply (last_cons_str (IMatcher oid m)); [|exact Hlast].
      intros ->. discriminate Hlast.
    + destruct rest as [|[oid' m'|s'] rest']; [discriminate H| |].
      * unfold new_state in H.
        set (nm := unique_name g (State_next (state_at g state) (m_alias m))) in H.
        pose proof (graph_shape_new_transition g state m false nm Hshape Hstate
                      (unique_name_fresh g _)) as Hshape2.
        set (g2 := add_transition _ state (mkTransition m _ false)) in *.
        assert (Hlen2 : List.length (states g2) = S (List.length (states g)))
          by (cbn [g2 add_transition set_states states append_state];
              rewrite length_alter, length_app; cbn; lia).
        assert (Hnew : (List.length (states g) < List.length (states g2))%nat)
          by lia.
        apply (IH _ _ _ _ _ _ Hshape2 Hnew) in H as (Hs' & Hframe & Hlen & Hops).
        2:{ exists name. apply (last_cons_str (IMatcher oid m)); [done|exact Hlast]. }
        split; [exact Hs'|]. split; [rewrite Hframe; reflexivity|].
        split; [lia|]. rewrite Hops. f_equal.
        unfold g2. rewrite operation_states_add_transition, operation_states_append.
        cbn. lia.
      * destruct (last cmd) as [[|command_name]|]; try discriminate H.
        unfold new_state in H.
        set (nm := unique_name g _) in H.
        pose proof (graph_shape_new_transition g state m true nm Hshape Hstate
                      (unique_name_fresh g _)) as Hshape2.
        set (g2 := add_transition _ state (mkTransition m _ true)) in *.
        assert (Hlen2 : List.length (states g2) = S (List.length (states g)))
          by (cbn [g2 add_transition set_states states append_state];
              rewrite length_alter, length_app; cbn; lia).
        assert (Hops2 : List.length (operation_states g2)
                        = List.length (operation_states g)).
        { unfold g2. rewrite operation_states_add_transition,
            operation_states_append. cbn. lia. }
        assert (Hfinal : forall op,
          op = NoOperation
          \/ (exists prototype chain,
                op = Operation command_name prototype chain
                /\ dict_get (callbacks g2) command_name = Some prototype) ->
          let g4 :=
            add_transition
              (append_state g2
                 (mkState ("RDY_TO_CALL__" +:+ upper command_name) [] 0 "slave"
                    (Some op)))
              (List.length (states g))
              (mkTransition (mkMatcher Crc VNone None) (List.length (states g2))
                 false) in
          graph_shape g4 /\ g4 = set_states g (states g4)
          /\ (List.length (states g) <= List.length (states g4))%nat
          /\ List.length (operation_states g4)
             = S (List.length (operation_states g))).
        { intros op Hop g4.
          split; [apply graph_shape_call_transition; [exact Hshape2|lia|exact Hop]|].
          split; [reflexivity|]. split.
          - cbn [g4 add_transition set_states states append_state].
            rewrite length_alter, length_app. lia.
          - unfold g4. rewrite operation_states_add_transition,
              operation_states_append, Hops2. cbn. lia. }
        destruct (negb (command_name =? "NOTHING")%string).
        -- destruct (dict_get (callbacks g2) command_name) as [prototype|] eqn:Hcb;
             [|discriminate H].
           injection H as _ <-. apply Hfinal. right. eauto.
        -- injection H as _ <-. apply Hfinal. left. reflexivity.
  - discriminate H.
Qed.

Lemma process_sequence_shape (address_matcher : Matcher) (state : nat)
    (cmd : Command) (g : CodeGenerator) (sigma sigma' : gmap nat Z)
    (g' : CodeGenerator) :
  graph_shape g -> (state < List.length (states g))%nat ->
  process_sequence address_matcher state cmd g sigma = (sigma', Ok g') ->
  graph_shape g' /\ g' = set_states g (states g')
  /\ (List.length (states g) <= List.length (states g'))%nat
  /\ List.length (operation_states g') = S (List.length (operation_states g))
  /\ forall callback, last cmd = Some (IStr callback) ->
       dict_in (callbacks g) callback = true.
Proof.
  unfold process_sequence. intros Hshape Hstate H.
  destruct (last cmd) as [[oid m|callback]|] eqn:Hlast; [| |discriminate H].
  - assert (Hend : exists name,
              last (cmd ++ [IStr "NOTHING"]) = Some (IStr name))
      by (exists "NOTHING"; rewrite last_snoc; reflexivity).
    destruct (process_loop_shape _ _ _ _ _ _ _ _ _ Hshape Hstate Hend H)
      as (H1 & H2 & H3 & H4).
    split; [exact H1|]. split; [exact H2|]. split; [exact H3|].
    split; [exact H4|]. intros callback Hc. discriminate Hc.
  - destruct (dict_in (callbacks g) callback) eqn:Hin; [|discriminate H].
    assert (Hend : exists name, last cmd = Some (IStr name)) by eauto.
    destruct (process_loop_shape _ _ _ _ _ _ _ _ _ Hshape Hstate Hend H)
      as (H1 & H2 & H3 & H4).
    split; [exact H1|]. split; [exact H2|]. split; [exact H3|].
    split; [exact H4|]. intros callback' Hc.
    injection Hc as <-. exact Hin.
Qed.

Lemma process_commands_shape (address_matcher : Matcher) (device_state : nat)
    (value : list Command) :
  forall g sigma sigma' g',
  graph_shape g -> (device_state < List.length (states g))%nat ->
  process_commands address_matcher device_state value g sigma = (sigma', Ok g') ->
  graph_shape g' /\ g' = set_states g (states g')
  /\ (List.length (states g) <= List.length (states g'))%nat
  /\ List.length (operation_states g')
     = (List.length (operation_states g) + List.length value)%nat
  /\ forall cmd callback, cmd ∈ value -> last cmd = Some (IStr callback) ->
       dict_in (callbacks g) callback = true.
Proof.
  induction value as [|command rest IH]; intros g sigma sigma' g' Hshape Hd H;
    cbn [process_commands] in H.
  - injection H as _ <-. split; [exact Hshape|]. split; [destruct g; reflexivity|].
    split; [lia|]. split; [cbn; lia|].
    intros cmd callback Hcmd. apply elem_of_nil in Hcmd. contradiction.
  - destruct (process_sequence address_matcher device_state command g sigma)
      as [sigma1 [g1|e]] eqn:Hseq; [|discriminate H].
    destruct (process_sequence_shape _ _ _ _ _ _ _ Hshape Hd Hseq)
      as (Hs1 & Hf1 & Hl1 & Ho1 & Hc1).
    assert (Hd1 : (device_state < List.length (states g1))%nat) by lia.
    destruct (IH _ _ _ _ Hs1 Hd1 H) as (Hs' & Hf' & Hl' & Ho' & Hc').
    split; [exact Hs'|]. split; [rewrite Hf', Hf1; reflexivity|].
    split; [lia|]. split; [rewrite Ho', Ho1; cbn; lia|].
    intros cmd callback Hcmd Hlast. apply elem_of_cons in Hcmd as [->|Hcmd].
    + exact (Hc1 callback Hlast).
    + specialize (Hc' cmd callback Hcmd Hlast). rewrite Hf1 in Hc'. exact Hc'.
Qed.

(** The end that the two branches of [process_devices] share, for an
    address matcher of one byte. *)
Lemma device_shape (address_matcher : Matcher) (value : list Command)
    (g : CodeGenerator) (name md : string) (sigma sigma' : gmap nat Z)
    (g' : CodeGenerator) :
  graph_shape g -> name ∉ (s_name <$> states g) -> m_size address_matcher = 1 ->
  process_commands address_matcher (List.length (states g)) value
    (add_transition (append_state g (mkState name [] 1 md None)) 0
       (mkTransition address_matcher (List.length (states g)) false)) sigma
  = (sigma', Ok g') ->
  graph_shape g' /\ g' = set_states g (states g')
  /\ (List.length (states g) <= List.length (states g'))%nat
  /\ List.length (operation_states g')
     = (List.length (operation_states g) + List.length value)%nat
  /\ forall cmd callback, cmd ∈ value -> last cmd = Some (IStr callback) ->
       dict_in (callbacks g) callback = true.
Proof.
  intros Hshape Hfresh Hsize H.
  destruct (shape_root g Hshape) as (root & Hroot & Hrpos & Hrop).
  assert (H0 : (0 < List.length (states g))%nat)
    by (apply lookup_lt_Some in Hroot; exact Hroot).
  set (st := mkState name [] 1 md None) in *.
  assert (Hshape2 : graph_shape
            (add_transition (append_state g st) 0
               (mkTransition address_matcher (List.length (states g)) false))).
  { apply (graph_shape_add_transition _ _ _ root st).
    - apply graph_shape_append_plain; assumption.
    - cbn. apply lookup_app_l_Some. exact Hroot.
    - cbn. apply list_lookup_middle. reflexivity.
    - cbn. exact H0.
    - intros j s t' Hs Ht'. cbn [t_next].
      apply lookup_append_state in Hs as [Hs|[_ ->]].
      + pose proof (shape_forward g Hshape j s t' Hs Ht'). lia.
      + apply elem_of_nil in Ht'. contradiction.
    - intros _. cbn [st s_pos t_matcher]. rewrite Hrpos, Hsize. reflexivity.
    - intros op Hop. discriminate Hop. }
  assert (Hd : (List.length (states g)
                < List.length
                    (states
                       (add_transition (append_state g st) 0
                          (mkTransition address_matcher (List.length (states g))
                             false))))%nat).
  { cbn [add_transition set_states states append_state].
    rewrite length_alter, length_app. cbn. lia. }
  destruct (process_commands_shape _ _ _ _ _ _ _ Hshape2 Hd H)
    as (Hs' & Hf' & Hl' & Ho' & Hc').
  split; [exact Hs'|]. split; [rewrite Hf'; reflexivity|].
  cbn [add_transition set_states states append_state] in Hl'.
  rewrite length_alter, length_app in Hl'. split; [lia|].
  rewrite operation_states_add_transition, operation_states_append in Ho'.
  cbn in Ho'. split; [lia|]. exact Hc'.
Qed.

Lemma graph_shape_set_device_address (g : CodeGenerator) (a : option Z) :
  graph_shape g -> graph_shape (set_device_address g a).
Proof. intros []. split; assumption. Qed.

(** An exact matcher that the constructor accepted holds a value of its
    class. *)
Lemma Matcher_init_exact (c : MatcherClass) (v : Z) (alias : option string)
    (m : Matcher) :
  Matcher_init c [AInt v] alias = Ok m ->
  m = mkMatcher c (VInt v) alias /\ check c v = true.
Proof.
  cbn. destruct (check c v); cbn; intros H; [|discriminate H].
  injection H as <-. split; reflexivity.
Qed.

Lemma process_runtime_device_shape (value : list Command) (g : CodeGenerator)
    (sigma sigma' : gmap nat Z) (g' : CodeGenerator) :
  graph_shape g ->
  process_runtime_device 0 value g sigma = (sigma', Ok g') ->
  graph_shape g' /\ g' = set_states g (states g')
  /\ (List.length (states g) <= List.length (states g'))%nat
  /\ List.length (operation_states g')
     = (List.length (operation_states g) + List.length value)%nat
  /\ forall cmd callback, cmd ∈ value -> last cmd = Some (IStr callback) ->
       dict_in (callbacks g) callback = true.
Proof.
  unfold process_runtime_device, new_state. intros Hshape H.
  eapply device_shape in H; [exact H|exact Hshape| |reflexivity].
  apply unique_name_fresh.
Qed.

Lemma process_addressed_device_shape (key : string) (value : list Command)
    (g : CodeGenerator) (sigma sigma' : gmap nat Z) (g' : CodeGenerator) :
  graph_shape g ->
  process_addressed_device 0 key value g sigma = (sigma', Ok g') ->
  exists group address,
    device_addr_search key = Some group /\ int_base0 group = Ok address
    /\ 0 <= address <= 254
    /\ graph_shape g'
    /\ g' = set_states (set_device_address g (Some address)) (states g')
    /\ (List.length (states g) <= List.length (states g'))%nat
    /\ List.length (operation_states g')
       = (List.length (operation_states g) + List.length value)%nat
    /\ forall cmd callback, cmd ∈ value -> last cmd = Some (IStr callback) ->
         dict_in (callbacks g) callback = true.
Proof.
  unfold process_addressed_device. intros Hshape H.
  destruct (device_addr_search key) as [group|] eqn:Hgroup; [|discriminate H].
  destruct (int_base0 group) as [address|] eqn:Haddress; [|discriminate H].
  destruct (Z.ltb_spec 254 address) as [|Hle]; [discriminate H|].
  unfold new_state in H.
  destruct (Matcher_init U8 [AInt address] _) as [address_matcher|] eqn:Hm;
    [|discriminate H].
  apply Matcher_init_exact in Hm as [-> Hcheck].
  exists group, address. split; [reflexivity|]. split; [exact Haddress|].
  split.
  { unfold check in Hcheck. cbn in Hcheck.
    apply andb_true_iff in Hcheck as [H0 _]. apply Z.leb_le in H0. lia. }
  eapply (device_shape _ _ (set_device_address g (Some address))) in H.
  - exact H.
  - apply graph_shape_set_device_address. exact Hshape.
  - apply unique_name_fresh.
  - reflexivity.
Qed.

Lemma prefix_device_at_not_device (key : string) :
  (key =? "device")%string = true -> String.prefix "device@" key = false.
Proof. intros H. apply String.eqb_eq in H. subst key. reflexivity. Qed.

(** The loop of [process_devices] keeps the shape; it adds one state of a
    call for every command of every device; every command that names a
    callback names a declared one; and the device address is left alone
    when no key starts with [device@], and is else the address of the last
    such key, between 0 and 254. *)
Lemma process_items_shape (lists : gmap nat (list Command))
    (items : list (string * ListObj)) :
  forall g sigma sigma' g',
  graph_shape g ->
  process_items lists 0 items g sigma = (sigma', Ok g') ->
  graph_shape g'
  /\ (List.length (states g) <= List.length (states g'))%nat
  /\ List.length (operation_states g')
     = (List.length (operation_states g) + count_commands lists items)%nat
  /\ (forall key l cmd callback,
        (key, l) ∈ items -> is_device_key key = true ->
        cmd ∈ contents lists l -> last cmd = Some (IStr callback) ->
        dict_in (callbacks g) callback = true)
  /\ ((device_address g' = device_address g
       /\ forall key l, (key, l) ∈ items -> String.prefix "device@" key = false)
      \/ exists before key l behind group address,
           items = before ++ (key, l) :: behind
           /\ String.prefix "device@" key = true
           /\ (forall key' l', (key', l') ∈ behind ->
                 String.prefix "device@" key' = false)
           /\ device_addr_search key = Some group
           /\ int_base0 group = Ok address
           /\ 0 <= address <= 254
           /\ device_address g' = Some address).
Proof.
  induction items as [|[key value] rest IH]; intros g sigma sigma' g' Hshape H;
    cbn [process_items] in H.
  - injection H as _ <-. split; [exact Hshape|]. split; [lia|].
    split; [cbn; lia|]. split.
    + intros key l cmd callback Hl. apply elem_of_nil in Hl. contradiction.
    + left. split; [reflexivity|]. intros key l Hl.
      apply elem_of_nil in Hl. contradiction.
  - destruct (if (key =? "device")%string then _ else _)
      as [sigma1 [g1|e]] eqn:H1; [|discriminate H].
    destruct (if String.prefix "device@" key then _ else _)
      as [sigma2 [g2|e]] eqn:H2; [|discriminate H].
    (* the branch of the key [device] *)
    assert (Hstep1 :
      graph_shape g1 /\ g1 = set_states g (states g1)
      /\ (List.length (states g) <= List.length (states g1))%nat
      /\ List.length (operation_states g1)
         = (List.length (operation_states g)
            + (if (key =? "device")%string
               then List.length (contents lists value) else 0))%nat
      /\ ((key =? "device")%string = true ->
          forall cmd callback, cmd ∈ contents lists value ->
            last cmd = Some (IStr callback) ->
            dict_in (callbacks g) callback = true)).
    { destruct (key =? "device")%string.
      - apply process_runtime_device_shape in H1 as (A & B & C & D & E);
          [|exact Hshape].
        split; [exact A|]. split; [exact B|]. split; [exact C|].
        split; [exact D|]. intros _. exact E.
      - injection H1 as _ <-. split; [exact Hshape|].
        split; [destruct g; reflexivity|]. split; [lia|]. split; [lia|].
        discriminate. }
    destruct Hstep1 as (Hs1 & Hf1 & Hl1 & Ho1 & Hc1).
    (* the branch of a key that starts with [device@] *)
    assert (Hstep2 :
      graph_shape g2
      /\ callbacks g2 = callbacks g1
      /\ (List.length (states g1) <= List.length (states g2))%nat
      /\ List.length (operation_states g2)
         = (List.length (operation_states g1)
            + (if String.prefix "device@" key
               then List.length (contents lists value) else 0))%nat
      /\ (String.prefix "device@" key = true ->
          forall cmd callback, cmd ∈ contents lists value ->
            last cmd = Some (IStr callback) ->
            dict_in (callbacks g1) callback = true)
      /\ (if String.prefix "device@" key
          then exists group address,
                 device_addr_search key = Some group
                 /\ int_base0 group = Ok address /\ 0 <= address <= 254
                 /\ device_address g2 = Some address
          else device_address g2 = device_address g1)).
    { destruct (String.prefix "device@" key).
      - apply process_addressed_device_shape in H2
          as (group & address & A & B & C & D & E & F & G & I); [|exact Hs1].
        split; [exact D|]. split; [rewrite E; reflexivity|].
        split; [exact F|]. split; [exact G|]. split; [intros _; exact I|].
        exists group, address. rewrite E. repeat split; assumption || lia.
      - injection H2 as _ <-. split; [exact Hs1|]. split; [reflexivity|].
        split; [lia|]. split; [lia|]. split; [discriminate|reflexivity]. }
    destruct Hstep2 as (Hs2 & Hcb2 & Hl2 & Ho2 & Hc2 & Ha2).
    destruct (IH _ _ _ _ Hs2 H) as (Hs' & Hl' & Ho' & Hc' & Ha').
    assert (Hcb1 : callbacks g1 = callbacks g) by (rewrite Hf1; reflexivity).
    split; [exact Hs'|]. split; [lia|]. split; [|split].
    + rewrite Ho', Ho2, Ho1. cbn [count_commands]. unfold is_device_key.
      destruct (key =? "device")%string eqn:Ek.
      * rewrite (prefix_device_at_not_device key Ek). cbn. lia.
      * cbn. destruct (String.prefix "device@" key); lia.
    + intros key' l cmd callback Hl Hkey Hcmd Hlast.
      apply elem_of_cons in Hl as [Heq|Hl].
      * injection Heq as -> ->. unfold is_device_key in Hkey.
        apply orb_true_iff in Hkey as [Hkey|Hkey].
        -- exact (Hc1 Hkey cmd callback Hcmd Hlast).
        -- rewrite <- Hcb1. exact (Hc2 Hkey cmd callback Hcmd Hlast).
      * rewrite <- Hcb1, <- Hcb2. exact (Hc' key' l cmd callback Hl Hkey Hcmd Hlast).
    + assert (Hd1 : device_address g1 = device_address g)
        by (rewrite Hf1; reflexivity).
      destruct Ha' as [[Heq Hnone]|(before & k & l & behind & group & address
                                    & -> & Hk & Hbehind & Hg & Ha & Hr & Hd)].
      * destruct (String.prefix "device@" key) eqn:Ep.
        -- destruct Ha2 as (group & address & Hg & Ha & Hr & Hd).
           right. exists [], key, value, rest, group, address.
           repeat split; try assumption; try lia. congruence.
        -- left. split; [congruence|]. intros k l Hl.
           apply elem_of_cons in Hl as [Heq'|Hl]; [congruence|eauto].
      * right. exists ((key, value) :: before), k, l, behind, group, address.
        repeat split; try assumption; lia.
Qed.

(** The graph as [process_devices] finds it: the initial state alone. *)
Lemma graph_shape_initial (g : CodeGenerator) (name : string) :
  states g = [] ->
  graph_shape (append_state g (mkState name [] 0 (mode g) None)).
Proof.
  intros Hnil. split; cbn [append_state set_states states]; rewrite Hnil; cbn.
  - eexists. split; [reflexivity|]. split; reflexivity.
  - intros [|i] s t Hs Ht; [|discriminate Hs]. injection Hs as <-.
    apply elem_of_nil in Ht. contradiction.
  - intros [|i] j s s' k k' t t' Hs Hs' Hk; [|discriminate Hs].
    injection Hs as <-. discriminate Hk.
  - intros [|i] s t s' Hs Ht; [|discriminate Hs]. injection Hs as <-.
    apply elem_of_nil in Ht. contradiction.
  - intros [|i] s t s' op Hs Ht; [|discriminate Hs]. injection Hs as <-.
    apply elem_of_nil in Ht. contradiction.
  - intros [|i] s op Hs Hop; [|discriminate Hs]. injection Hs as <-.
    discriminate Hop.
  - intros [|i] [|j] s s' Hs Hs'; try discriminate. reflexivity.
Qed.

(** A generator that the constructor returned: its graph has the shape,
    with one state of a call for every command of every device; the
    commands that name a callback name one it holds; its device address is
    that of the last key that starts with [device@]. *)
Lemma CodeGenerator_init_shape (tree : Tree) (s s' : Store) (g : CodeGenerator) :
  CodeGenerator_init tree s = (s', Ok g) ->
  graph_shape g
  /\ List.length (operation_states g)
     = count_commands (st_lists s') (t_items tree)
  /\ (forall key l cmd callback,
        (key, l) ∈ t_items tree -> is_device_key key = true ->
        cmd ∈ contents (st_lists s') l -> last cmd = Some (IStr callback) ->
        dict_in (callbacks g) callback = true)
  /\ ((device_address g = None
       /\ forall key l, (key, l) ∈ t_items tree ->
            String.prefix "device@" key = false)
      \/ exists before key l behind group address,
           t_items tree = before ++ (key, l) :: behind
           /\ String.prefix "device@" key = true
           /\ (forall key' l', (key', l') ∈ behind ->
                 String.prefix "device@" key' = false)
           /\ device_addr_search key = Some group
           /\ int_base0 group = Ok address
           /\ 0 <= address <= 254
           /\ device_address g = Some address).
Proof.
  intros Hinit.
  destruct (CodeGenerator_init_Ok _ _ _ _ Hinit)
    as (cl & cbs & s1 & g1 & _ & _ & Hid & Hdev & Hlists & _).
  assert (Hg1 : states g1 = [] /\ device_address g1 = None).
  { destruct (identification_active tree).
    - unfold inject_identification in Hid.
      destruct (identification_device tree); [|discriminate Hid].
      cbn [set_callbacks mode identification conformity_level] in Hid.
      destruct (conformity_loop _ _ _); [|discriminate Hid].
      injection Hid as _ <-. split; reflexivity.
    - injection Hid as _ <-. split; reflexivity. }
  destruct Hg1 as [Hnil Hnone].
  pose proof (process_devices_settings _ _ _ _ _ _ Hdev) as Hset.
  unfold settings in Hset. injection Hset as Hcb _ _ _ _ _ _ _.
  unfold process_devices, new_state in Hdev. rewrite Hnil in Hdev.
  cbn [List.length] in Hdev.
  apply process_items_shape in Hdev as (Hshape & _ & Hops & Hdecl & Haddr);
    [|apply graph_shape_initial; exact Hnil].
  rewrite Hlists. split; [exact Hshape|]. split; [|split].
  - rewrite Hops. unfold operation_states.
    cbn [append_state set_states states]. rewrite Hnil. reflexivity.
  - intros key l cmd callback Hl Hkey Hcmd Hlast. rewrite Hcb.
    exact (Hdecl key l cmd callback Hl Hkey Hcmd Hlast).
  - destruct Haddr as [[Heq Hno]|Hsome]; [left|right; exact Hsome].
    split; [|exact Hno]. rewrite Heq. exact Hnone.
Qed.

(** ** The automaton that the constructor returns *)

(** X4.  The automaton is a forest grown in creation order: a transition
    leads from a state to a state created after it, which exists, and no
    two transitions lead to the same state; so there is no cycle and a
    state is reached along one path at most. *)
Theorem automaton_is_forest (tree : Tree) (s s' : Store) (g : CodeGenerator) :
  CodeGenerator_init tree s = (s', Ok g) ->
  (forall i st t, states g !! i = Some st -> t ∈ s_transition st ->
     (i < t_next t < List.length (states g))%nat)
  /\ (forall i j st st' k k' t t',
        states g !! i = Some st -> states g !! j = Some st' ->
        s_transition st !! k = Some t -> s_transition st' !! k' = Some t' ->
        t_next t = t_next t' -> i = j /\ k = k').
Proof.
  intros Hinit. destruct (CodeGenerator_init_shape _ _ _ _ Hinit) as [Hshape _].
  split; [apply (shape_forward g Hshape)|apply (shape_incoming g Hshape)].
Qed.

(** The theorem on scenario S2: the transition out of the state of the
    device leads to a later state. *)
Lemma automaton_is_forest_witness :
  exists s' g st t,
    CodeGenerator_init shared_prefix_tree (mkStore ∅ ∅ 6) = (s', Ok g)
    /\ states g !! 1%nat = Some st /\ s_transition st !! 0%nat = Some t
    /\ (1 < t_next t < List.length (states g))%nat.
Proof.
  destruct (CodeGenerator_init shared_prefix_tree (mkStore ∅ ∅ 6))
    as [s' [g|e]] eqn:Hinit; [|vm_compute in Hinit; discriminate Hinit].
  pose proof (proj1 (automaton_is_forest _ _ _ _ Hinit)) as Hfwd.
  assert (Hst : exists st t, states g !! 1%nat = Some st
                             /\ s_transition st !! 0%nat = Some t).
  { vm_compute in Hinit. injection Hinit as _ <-. do 2 eexists.
    split; reflexivity. }
  destruct Hst as (st & t & Hst & Ht).
  exists s', g, st, t. split; [reflexivity|]. split; [exact Hst|].
  split; [exact Ht|]. apply (Hfwd 1%nat st t Hst).
  apply list_elem_of_lookup. eauto.
Defined.

(** X5.  Positions count the bytes consumed: the initial state is at
    position 0, and a transition into a state that is not the state of a
    call leads to the position of its source plus the size of its
    matcher. *)
Theorem state_positions (tree : Tree) (s s' : Store) (g : CodeGenerator) :
  CodeGenerator_init tree s = (s', Ok g) ->
  (exists root, states g !! 0%nat = Some root /\ s_pos root = 0)
  /\ forall i st t st',
       states g !! i = Some st -> t ∈ s_transition st ->
       states g !! t_next t = Some st' -> s_op st' = None ->
       s_pos st' = s_pos st + m_size (t_matcher t).
Proof.
  intros Hinit. destruct (CodeGenerator_init_shape _ _ _ _ Hinit) as [Hshape _].
  split; [|apply (shape_pos g Hshape)].
  destruct (shape_root g Hshape) as (root & Hroot & Hpos & _). eauto.
Qed.

(** The theorem on scenario S2: the initial state is at position 0. *)
Lemma state_positions_witness :
  exists s' g root,
    CodeGenerator_init shared_prefix_tree (mkStore ∅ ∅ 6) = (s', Ok g)
    /\ states g !! 0%nat = Some root /\ s_pos root = 0.
Proof.
  destruct (CodeGenerator_init shared_prefix_tree (mkStore ∅ ∅ 6))
    as [s' [g|e]] eqn:Hinit; [|vm_compute in Hinit; discriminate Hinit].
  destruct (proj1 (state_positions _ _ _ _ Hinit)) as (root & Hroot & Hpos).
  exists s', g, root. split; [reflexivity|]. split; assumption.
Defined.

(** X6.  The states of calls: such a state sits at position 0 in slave
    mode and is named [RDY_TO_CALL__] followed by the callback in upper
    case; its operation is the no-op, or the call of that callback with
    the prototype that the generator holds for it; and every transition
    into it carries the CRC matcher. *)
Theorem call_states (tree : Tree) (s s' : Store) (g : CodeGenerator) :
  CodeGenerator_init tree s = (s', Ok g) ->
  (forall i st op,
     states g !! i = Some st -> s_op st = Some op ->
     s_pos st = 0 /\ s_mode st = "slave"
     /\ exists command_name,
          s_name st = "RDY_TO_CALL__" +:+ upper command_name
          /\ (op = NoOperation
              \/ exists prototype chain,
                   op = Operation command_name prototype chain
                   /\ dict_get (callbacks g) command_name = Some prototype))
  /\ (forall i st t st' op,
        states g !! i = Some st -> t ∈ s_transition st ->
        states g !! t_next t = Some st' -> s_op st' = Some op ->
        t_matcher t = crc_tail).
Proof.
  intros Hinit. destruct (CodeGenerator_init_shape _ _ _ _ Hinit) as [Hshape _].
  split; [apply (shape_terminal g Hshape)|apply (shape_crc g Hshape)].
Qed.

(** The theorem on scenario S2: the state of the call of [on_a]. *)
Lemma call_states_witness :
  exists s' g st op,
    CodeGenerator_init shared_prefix_tree (mkStore ∅ ∅ 6) = (s', Ok g)
    /\ states g !! 5%nat = Some st /\ s_op st = Some op /\ s_pos st = 0.
Proof.
  destruct (CodeGenerator_init shared_prefix_tree (mkStore ∅ ∅ 6))
    as [s' [g|e]] eqn:Hinit; [|vm_compute in Hinit; discriminate Hinit].
  pose proof (proj1 (call_states _ _ _ _ Hinit)) as Hcall.
  assert (Hst : exists st op, states g !! 5%nat = Some st /\ s_op st = Some op).
  { vm_compute in Hinit. injection Hinit as _ <-. do 2 eexists.
    split; reflexivity. }
  destruct Hst as (st & op & Hst & Hop).
  exists s', g, st, op. split; [reflexivity|]. split; [exact Hst|].
  split; [exact Hop|]. exact (proj1 (Hcall 5%nat st op Hst Hop)).
Defined.

(** X7.  The states that are not states of calls have pairwise different
    names. *)
Theorem plain_state_names_distinct (tree : Tree) (s s' : Store)
    (g : CodeGenerator) :
  CodeGenerator_init tree s = (s', Ok g) ->
  forall i j st st',
    states g !! i = Some st -> states g !! j = Some st' ->
    s_op st = None -> s_op st' = None -> s_name st = s_name st' -> i = j.
Proof.
  intros Hinit. destruct (CodeGenerator_init_shape _ _ _ _ Hinit) as [Hshape _].
  apply (shape_names g Hshape).
Qed.

(** The theorem on the tree with two commands of one callback: the two
    CRC states have different names, so a state named like the first is
    the first. *)
Lemma plain_state_names_distinct_witness :
  exists s' g st,
    CodeGenerator_init shared_callback_tree (mkStore ∅ ∅ 2) = (s', Ok g)
    /\ states g !! 2%nat = Some st
    /\ forall j st', states g !! j = Some st' -> s_op st' = None ->
         s_name st = s_name st' -> 2%nat = j.
Proof.
  destruct (CodeGenerator_init shared_callback_tree (mkStore ∅ ∅ 2))
    as [s' [g|e]] eqn:Hinit; [|vm_compute in Hinit; discriminate Hinit].
  pose proof (plain_state_names_distinct _ _ _ _ Hinit) as Hnames.
  assert (Hst : exists st, states g !! 2%nat = Some st /\ s_op st = None).
  { vm_compute in Hinit. injection Hinit as _ <-. eexists. split; reflexivity. }
  destruct Hst as (st & Hst & Hop).
  exists s', g, st. split; [reflexivity|]. split; [exact Hst|].
  intros j st' Hst' Hop' Heq. exact (Hnames 2%nat j st st' Hst Hst' Hop Hop' Heq).
Defined.

(** X8.  One state of a call per command: the generator has as many
    states of calls as the lists under the keys of devices hold commands,
    the lists taken as they are after the constructor. *)
Theorem one_call_state_per_command (tree : Tree) (s s' : Store)
    (g : CodeGenerator) :
  CodeGenerator_init tree s = (s', Ok g) ->
  List.length (operation_states g) = count_commands (st_lists s') (t_items tree).
Proof.
  intros Hinit. exact (proj1 (proj2 (CodeGenerator_init_shape _ _ _ _ Hinit))).
Qed.

(** The theorem on the tree with one short command and identification:
    four commands, the three appended included, and four states of
    calls. *)
Lemma one_call_state_per_command_witness :
  exists s' g,
    CodeGenerator_init small_identified_tree (mkStore ∅ ∅ 1) = (s', Ok g)
    /\ List.length (operation_states g) = 4%nat.
Proof.
  destruct (CodeGenerator_init small_identified_tree (mkStore ∅ ∅ 1))
    as [s' [g|e]] eqn:Hinit; [|vm_compute in Hinit; discriminate Hinit].
  exists s', g. split; [reflexivity|].
  rewrite (one_call_state_per_command _ _ _ _ Hinit).
  vm_compute in Hinit. injection Hinit as <- _. reflexivity.
Defined.

(** X9.  A generator is returned only if every command of every device
    that ends in a string names a callback that the generator holds. *)
Theorem command_callbacks_declared (tree : Tree) (s s' : Store)
    (g : CodeGenerator) :
  CodeGenerator_init tree s = (s', Ok g) ->
  forall key l cmd callback,
    (key, l) ∈ t_items tree -> is_device_key key = true ->
    cmd ∈ contents (st_lists s') l -> last cmd = Some (IStr callback) ->
    dict_in (callbacks g) callback = true.
Proof.
  intros Hinit.
  exact (proj1 (proj2 (proj2 (CodeGenerator_init_shape _ _ _ _ Hinit)))).
Qed.

(** The theorem on the tree with identification: the generator holds
    [on_diagnostics], the callback of the last command appended. *)
Lemma command_callbacks_declared_witness :
  exists s' g,
    CodeGenerator_init small_identified_tree (mkStore ∅ ∅ 1) = (s', Ok g)
    /\ dict_in (callbacks g) "on_diagnostics" = true.
Proof.
  destruct (CodeGenerator_init small_identified_tree (mkStore ∅ ∅ 1))
    as [s' [g|e]] eqn:Hinit; [|vm_compute in Hinit; discriminate Hinit].
  exists s', g. split; [reflexivity|].
  apply (command_callbacks_declared _ _ _ _ Hinit "device@1" small_list
           (diagnostics_command 1)).
  - apply list_elem_of_here.
  - reflexivity.
  - vm_compute in Hinit. injection Hinit as <- _.
    do 3 apply list_elem_of_further. apply list_elem_of_here.
  - reflexivity.
Defined.

(** X10.  The device address of a generator: none when no key of the tree
    starts with [device@]; else the address read from the last such key,
    which is between 0 and 254. *)
Theorem device_address_of_generator (tree : Tree) (s s' : Store)
    (g : CodeGenerator) :
  CodeGenerator_init tree s = (s', Ok g) ->
  (device_address g = None
   /\ forall key l, (key, l) ∈ t_items tree ->
        String.prefix "device@" key = false)
  \/ exists before key l behind group address,
       t_items tree = before ++ (key, l) :: behind
       /\ String.prefix "device@" key = true
       /\ (forall key' l', (key', l') ∈ behind ->
             String.prefix "device@" key' = false)
       /\ device_addr_search key = Some group
       /\ int_base0 group = Ok address
       /\ 0 <= address <= 254
       /\ device_address g = Some address.
Proof.
  intros Hinit.
  exact (proj2 (proj2 (proj2 (CodeGenerator_init_shape _ _ _ _ Hinit)))).
Qed.

(** The theorem on the tree with the key [device@0x17]: the address
    is 23. *)
Lemma device_address_of_generator_witness :
  exists s' g,
    CodeGenerator_init hex_key_tree (mkStore ∅ ∅ 2) = (s', Ok g)
    /\ device_address g = Some 23.
Proof.
  destruct (CodeGenerator_init hex_key_tree (mkStore ∅ ∅ 2))
    as [s' [g|e]] eqn:Hinit; [|vm_compute in Hinit; discriminate Hinit].
  exists s', g. split; [reflexivity|].
  destruct (device_address_of_generator _ _ _ _ Hinit)
    as [[_ Hno]|(before & key & l & behind & group & address & Hitems & _ & _
                 & Hgroup & Haddress & _ & Hdev)].
  - specialize (Hno "device@0x17" hex_key_list (list_elem_of_here _ _)).
    discriminate Hno.
  - destruct before as [|x before].
    + injection Hitems as <- <- <-. vm_compute in Hgroup.
      injection Hgroup as <-. vm_compute in Haddress. injection Haddress as <-.
      exact Hdev.
    + destruct before; discriminate Hitems.
Defined.

(** ** What the matcher constructors accept *)

Lemma check_range (c : MatcherClass) (lo hi v : Z) :
  cls_min c = Ok lo -> cls_max c = Ok hi ->
  check c v = bool_decide (lo <= v <= hi).
Proof.
  intros Hlo Hhi. apply eq_true_iff_eq. rewrite bool_decide_eq_true.
  destruct c; cbn in Hlo, Hhi; try discriminate Hlo;
    injection Hlo as <-; injection Hhi as <-; unfold check; cbn;
    rewrite andb_true_iff, Z.leb_le, Z.ltb_lt; lia.
Qed.

(** X11.  For a class with a range [lo..hi] (every class but [f32]): the
    constructor takes a single integer exactly when it is within
    [lo..hi], and a pair of integers exactly when both are, in whatever
    order they come; the elements of a list are not checked at all. *)
Theorem Matcher_init_validates (c : MatcherClass) (lo hi : Z) :
  cls_min c = Ok lo -> cls_max c = Ok hi ->
  (forall v alias,
     Matcher_init c [AInt v] alias
     = if bool_decide (lo <= v <= hi) then Ok (mkMatcher c (VInt v) alias)
       else Raise ValueError)
  /\ (forall a b alias,
        Matcher_init c [AInt a; AInt b] alias
        = if bool_decide (lo <= a <= hi) && bool_decide (lo <= b <= hi)
          then Ok (mkMatcher c (VRange a b) alias)
          else Raise ValueError)
  /\ (forall l alias,
        Matcher_init c [AList l] alias = Ok (mkMatcher c (VList l) alias)).
Proof.
  intros Hlo Hhi. split; [|split].
  - intros v alias. cbn [Matcher_init cast].
    rewrite (check_range c lo hi v Hlo Hhi).
    destruct (bool_decide (lo <= v <= hi)); reflexivity.
  - intros a b alias. cbn [Matcher_init cast].
    rewrite (check_range c lo hi a Hlo Hhi), (check_range c lo hi b Hlo Hhi).
    destruct (bool_decide (lo <= a <= hi)), (bool_decide (lo <= b <= hi));
      reflexivity.
  - reflexivity.
Qed.

(** The theorem at [u8]: the range [u8(5, 3)], which no byte is in, and
    the list [u8([300])] are taken; [u8(256)] is not. *)
Lemma Matcher_init_validates_witness :
  Matcher_init U8 [AInt 5; AInt 3] None = Ok (mkMatcher U8 (VRange 5 3) None)
  /\ Matcher_init U8 [AList [300]] None = Ok (mkMatcher U8 (VList [300]) None)
  /\ Matcher_init U8 [AInt 256] None = Raise ValueError.
Proof.
  destruct (Matcher_init_validates U8 0 255 eq_refl eq_refl)
    as (Hexact & Hrange & Hlist).
  split; [exact (Hrange 5 3 None)|]. split; [exact (Hlist [300] None)|].
  exact (Hexact 256 None).
Defined.

(** ** When [to_code] returns *)

Lemma to_code_loop_Ok (name : string) (nargs : Z) (rprototype : list Param) :
  forall (rchain : list ChainItem) (pos : Z) (acc vs : list string),
  to_code_loop name nargs pos rprototype rchain acc = Ok vs ->
  forall i param, rprototype !! i = Some param ->
    exists m, rchain !! i = Some (CMatcher m)
              /\ fits m (param_cls param) = Ok true.
Proof.
  induction rprototype as [|p rest IH]; intros rchain pos acc vs H i param Hi;
    [discriminate Hi|].
  cbn [to_code_loop] in H.
  destruct (to_code_param name nargs pos p rchain acc) as [[chain' acc']|e] eqn:Hp;
    [|discriminate H].
  cbn [bind fst snd] in H.
  unfold to_code_param in Hp.
  destruct rchain as [|item chain]; [discriminate Hp|].
  destruct (Matcher_init (param_cls p) [AInt 0] None) as [v|]; [|discriminate Hp].
  cbn [bind] in Hp.
  destruct item as [m|s]; [|discriminate Hp].
  destruct (fits m (param_cls p)) as [[|]|] eqn:Hfit; try discriminate Hp.
  cbn [bind negb] in Hp. injection Hp as <- <-.
  destruct i as [|i].
  - injection Hi as <-. exists m. split; [reflexivity|exact Hfit].
  - exact (IH _ _ _ _ H i param Hi).
Qed.

(** X12.  [Operation.to_code] returns only when the prototype is no
    longer than the capture chain and every parameter meets, in the tail
    of the chain, a matcher that fits it; so no call is emitted that reads
    a parameter from a field that does not fit. *)
Theorem to_code_returns_only_fitting (name : string) (prototype : list Param)
    (chain : list ChainItem) (text : string) :
  Op_to_code (Operation name prototype chain) = Ok text ->
  (List.length prototype <= List.length chain)%nat
  /\ forall k param, prototype !! k = Some param ->
       exists m,
         chain !! (List.length chain - List.length prototype + k)%nat
         = Some (CMatcher m)
         /\ fits m (param_cls param) = Ok true.
Proof.
  unfold Op_to_code. intros H.
  destruct (to_code_loop name (llen prototype) 0 (reverse prototype)
              (reverse chain) []) as [vs|] eqn:Hloop; [|discriminate H].
  pose proof (to_code_loop_Ok _ _ _ _ _ _ _ Hloop) as Hall.
  assert (Hlen : (List.length prototype <= List.length chain)%nat).
  { destruct prototype as [|p0 prototype'] eqn:Hproto; [cbn; lia|].
    rewrite <- Hproto in *.
    assert (Hlast : (List.length prototype - 1 < List.length (reverse prototype))%nat)
      by (rewrite length_reverse, Hproto; cbn; lia).
    apply lookup_lt_is_Some in Hlast as [param Hparam].
    destruct (Hall _ _ Hparam) as (m & Hm & _).
    apply lookup_lt_Some in Hm. rewrite length_reverse in Hm. lia. }
  split; [exact Hlen|].
  intros k param Hk.
  assert (Hklt : (k < List.length prototype)%nat)
    by (apply lookup_lt_is_Some; eauto).
  destruct (Hall (List.length prototype - S k)%nat param) as (m & Hm & Hfit).
  { apply reverse_lookup_Some. split; [|lia]. rewrite <- Hk. f_equal. lia. }
  exists m. split; [|exact Hfit].
  apply reverse_lookup_Some in Hm as [Hm _]. rewrite <- Hm. f_equal. lia.
Qed.

(** The theorem at the call of [on_read] of the device at address 1: it
    is rendered, so the [u16] parameter meets a matcher that fits. *)
Lemma to_code_returns_only_fitting_witness :
  exists m,
    [CMatcher (mkMatcher U8 (VInt 1) (Some "DEVICE_1"));
     CMatcher (mkMatcher U8 (VInt 3) None);
     CMatcher (mkMatcher U16 (VRange 0 0xFF) None)] !! 2%nat = Some (CMatcher m)
    /\ fits m U16 = Ok true.
Proof.
  exact (proj2 (to_code_returns_only_fitting "on_read" [PType U16]
                  [CMatcher (mkMatcher U8 (VInt 1) (Some "DEVICE_1"));
                   CMatcher (mkMatcher U8 (VInt 3) None);
                   CMatcher (mkMatcher U16 (VRange 0 0xFF) None)]
                  "on_read(ntoh(2));" eq_refl) 0%nat (PType U16) eq_refl).
Defined.

(** ** Names of callbacks *)

Lemma span_app (p : ascii -> bool) (s : string) :
  forall a b, span p s = (a, b) -> s = a +:+ b /\ all_chars p a = true.
Proof.
  induction s as [|c s IH]; intros a b H; cbn [span] in H.
  - injection H as <- <-. split; reflexivity.
  - destruct (p c) eqn:Hc.
    + destruct (span p s) as [a' b'] eqn:Hs. injection H as <- <-.
      destruct (IH a' b' eq_refl) as [-> Ha']. split; [reflexivity|].
      cbn [all_chars]. rewrite Hc, Ha'. reflexivity.
    + injection H as <- <-. split; reflexivity.
Qed.

Lemma span_all (p : ascii -> bool) (a b : string) :
  all_chars p a = true ->
  match b with EmptyString => True | String c _ => p c = false end ->
  span p (a +:+ b) = (a, b).
Proof.
  intros Ha Hb. induction a as [|c a IH].
  - change ("" +:+ b) with b. destruct b as [|c b]; [reflexivity|].
    cbn [span]. rewrite Hb. reflexivity.
  - cbn [all_chars] in Ha. apply andb_true_iff in Ha as [Hc Ha].
    change (String c a +:+ b) with (String c (a +:+ b)).
    cbn [span]. rewrite Hc, (IH Ha). reflexivity.
Qed.

(** X13.  The names that [VALID_C_FUNCTION_NAME] lets through: a letter or
    an underscore, then letters, digits and underscores, and, because [$]
    also matches in front of a last line feed, possibly one line feed at
    the end. *)
Theorem valid_c_function_name_spec (cb : string) :
  valid_c_function_name cb = true <->
  exists c rest,
    is_ident_start c = true /\ all_chars is_ident_char rest = true
    /\ (cb = String c rest \/ cb = String c rest +:+ newline).
Proof.
  split.
  - destruct cb as [|c s]; [discriminate|]. cbn [valid_c_function_name].
    intros H. apply andb_true_iff in H as [Hc Hend].
    destruct (span is_ident_char s) as [a b] eqn:Hs.
    destruct (span_app _ _ _ _ Hs) as [-> Ha]. cbn [snd] in Hend.
    exists c, a. split; [exact Hc|]. split; [exact Ha|].
    unfold at_end in Hend. apply orb_true_iff in Hend as [Hb|Hb];
      apply String.eqb_eq in Hb; subst b.
    + left. rewrite append_empty_r. reflexivity.
    + right. reflexivity.
  - intros (c & rest & Hc & Hrest & [->| ->]).
    + cbn [valid_c_function_name]. rewrite Hc.
      rewrite <- (append_empty_r rest), (span_all _ rest "" Hrest I).
      reflexivity.
    + change (String c rest +:+ newline) with (String c (rest +:+ newline)).
      cbn [valid_c_function_name]. rewrite Hc.
      rewrite (span_all _ rest newline Hrest eq_refl). reflexivity.
Qed.

Lemma dict_get_notin {V : Type} (d : list (string * V)) (k : string) :
  k ∉ (fst <$> d) -> dict_get d k = None.
Proof.
  induction d as [|[k' v] d IH]; intros H; [reflexivity|].
  cbn [dict_get]. rewrite fmap_cons in H. cbn [fst] in H.
  apply not_elem_of_cons in H as [Hne Hd].
  destruct (decide (k' = k)) as [->|_]; [contradiction|]. exact (IH Hd).
Qed.

Lemma dict_set_notin {V : Type} (d : list (string * V)) (k : string) (v : V) :
  k ∉ (fst <$> d) -> dict_set d k v = d ++ [(k, v)].
Proof.
  induction d as [|[k' v'] d IH]; intros H; [reflexivity|].
  cbn [dict_set]. rewrite fmap_cons in H. cbn [fst] in H.
  apply not_elem_of_cons in H as [Hne Hd].
  destruct (decide (k' = k)) as [->|_]; [contradiction|].
  rewrite (IH Hd). reflexivity.
Qed.

Lemma process_callbacks_app (callback_list : list (string * list Param)) :
  forall acc,
  NoDup (fst <$> (acc ++ callback_list)) ->
  process_callbacks callback_list acc
  = if forallb (fun kv => valid_c_function_name (fst kv)) callback_list
    then Ok (acc ++ callback_list)
    else Raise (ParsingException "Callback name is not a valid C function name").
Proof.
  induction callback_list as [|[cb proto] rest IH]; intros acc Hnd.
  - cbn. rewrite app_nil_r. reflexivity.
  - cbn [process_callbacks forallb fst].
    destruct (valid_c_function_name cb); [|reflexivity]. cbn [negb andb].
    assert (Hcb : cb ∉ (fst <$> acc)).
    { rewrite fmap_app in Hnd. apply NoDup_app in Hnd as (_ & Hdis & _).
      intros Hin. apply (Hdis cb Hin). rewrite fmap_cons. apply list_elem_of_here. }
    rewrite (dict_set_notin acc cb proto Hcb).
    rewrite IH by (rewrite <- app_assoc; exact Hnd).
    rewrite <- app_assoc. reflexivity.
Qed.

(** X14.  The callbacks of a tree, a dictionary and so without a name
    twice, are taken over as they are and in their order when every name
    is let through; else [process_callbacks] raises the
    [ParsingException] on the name. *)
Theorem process_callbacks_outcome (callback_list : list (string * list Param)) :
  NoDup (fst <$> callback_list) ->
  process_callbacks callback_list []
  = if forallb (fun kv => valid_c_function_name (fst kv)) callback_list
    then Ok callback_list
    else Raise (ParsingException "Callback name is not a valid C function name").
Proof. intros Hnd. exact (process_callbacks_app callback_list [] Hnd). Qed.

(** The theorem on two callbacks, the second of which ends in a line
    feed: both are taken over. *)
Lemma process_callbacks_outcome_witness :
  process_callbacks [("on_a", []); ("on_b" +:+ newline, [PType U8])] []
  = Ok [("on_a", []); ("on_b" +:+ newline, [PType U8])].
Proof.
  apply (process_callbacks_outcome
           [("on_a", []); ("on_b" +:+ newline, [PType U8])]).
  cbn [fmap list_fmap fst]. apply NoDup_cons. split; [|apply NoDup_singleton].
  intros H. apply list_elem_of_singleton in H. discriminate H.
Defined.

(** ** Device keys written in decimal *)

Lemma append_assoc_str (a b c : string) : (a +:+ b) +:+ c = a +:+ (b +:+ c).
Proof.
  induction a as [|x a IH]; [reflexivity|].
  change (String x ((a +:+ b) +:+ c) = String x (a +:+ (b +:+ c))).
  rewrite IH. reflexivity.
Qed.

Lemma all_chars_app (p : ascii -> bool) (a b : string) :
  all_chars p (a +:+ b) = all_chars p a && all_chars p b.
Proof.
  induction a as [|x a IH]; [reflexivity|].
  change (all_chars p (String x (a +:+ b))
          = all_chars p (String x a) && all_chars p b).
  cbn [all_chars]. rewrite IH, andb_assoc. reflexivity.
Qed.

Lemma all_chars_impl (p q : ascii -> bool) (s : string) :
  (forall c, p c = true -> q c = true) ->
  all_chars p s = true -> all_chars q s = true.
Proof.
  intros Hpq. induction s as [|c s IH]; [reflexivity|]. cbn [all_chars].
  intros H. apply andb_true_iff in H as [Hc Hs].
  rewrite (Hpq c Hc), (IH Hs). reflexivity.
Qed.

Lemma digits_value_app (base : Z) (a b : string) :
  forall acc,
  digits_value base acc (a +:+ b) = digits_value base (digits_value base acc a) b.
Proof.
  induction a as [|x a IH]; intros acc; [reflexivity|].
  change (digits_value base acc (String x (a +:+ b))
          = digits_value base (digits_value base acc (String x a)) b).
  cbn [digits_value]. apply IH.
Qed.

Lemma len_app (a b : string) : len (a +:+ b) = len a + len b.
Proof.
  unfold len. induction a as [|x a IH]; [reflexivity|].
  change (Z.of_nat (S (String.length (a +:+ b)))
          = Z.of_nat (S (String.length a)) + Z.of_nat (String.length b)).
  lia.
Qed.

Lemma pretty_N_char_digit (x : N) :
  (x < 10)%N ->
  is_digit (pretty_N_char x) = true
  /\ digit_value (pretty_N_char x) = Z.of_N x
  /\ ((0 < x)%N -> pretty_N_char x <> "0"%char).
Proof.
  intros Hx.
  assert (x = 0 \/ x = 1 \/ x = 2 \/ x = 3 \/ x = 4 \/ x = 5 \/ x = 6 \/ x = 7
          \/ x = 8 \/ x = 9)%N as H by lia.
  repeat (destruct H as [->|H]); try subst x;
    (split; [reflexivity|split; [reflexivity|]]); intros H0;
    try discriminate; lia.
Qed.

(** The digits that [pretty_N_go] writes in front of [s]: decimal digits,
    the first of which is not [0], that read back as [x]. *)
Lemma pretty_N_go_digits (x : N) :
  forall s,
  exists d,
    pretty_N_go x s = d +:+ s /\ all_chars is_digit d = true
    /\ (forall acc, digits_value 10 acc d = acc * 10 ^ len d + Z.of_N x)
    /\ ((0 < x)%N -> exists c d', d = String c d' /\ c <> "0"%char).
Proof.
  induction (N.lt_wf_0 x) as [x _ IH]. intros s.
  destruct (N.eq_dec x 0) as [->|Hx].
  - exists "". rewrite pretty_N_go_0. split; [reflexivity|].
    split; [reflexivity|]. split; [|lia].
    intros acc. cbn [digits_value]. change (len "") with 0. lia.
  - assert (Hpos : (0 < x)%N) by lia.
    rewrite (pretty_N_go_step x s Hpos).
    assert (Hmod : (x `mod` 10 < 10)%N) by (apply N.mod_lt; lia).
    destruct (pretty_N_char_digit _ Hmod) as (Hdig & Hval & Hnz).
    set (c := pretty_N_char (x `mod` 10)) in *.
    assert (Hdm : Z.of_N x = 10 * Z.of_N (x `div` 10) + Z.of_N (x `mod` 10)).
    { rewrite <- (N2Z.inj_mul 10), <- N2Z.inj_add. f_equal. apply N.div_mod. lia. }
    destruct (N.eq_dec (x `div` 10) 0) as [Hdiv|Hdiv].
    + rewrite Hdiv, pretty_N_go_0 in *.
      exists (String c ""). split; [reflexivity|].
      split; [cbn [all_chars]; rewrite Hdig; reflexivity|].
      split.
      * intros acc. cbn [digits_value]. rewrite Hval.
        change (len (String c "")) with 1. lia.
      * intros _. exists c, "". split; [reflexivity|].
        apply Hnz. destruct (N.eq_dec (x `mod` 10) 0) as [H0|H0]; [|lia].
        exfalso. rewrite H0 in Hdm. lia.
    + destruct (IH (x `div` 10)%N (N.div_lt x 10 Hpos eq_refl) (String c s))
        as (d' & Hd' & Hall & Hvalue & Hlead).
      exists (d' +:+ String c ""). split; [|split; [|split]].
      * rewrite Hd', append_assoc_str. reflexivity.
      * rewrite all_chars_app, Hall. cbn [all_chars]. rewrite Hdig. reflexivity.
      * intros acc. rewrite digits_value_app, Hvalue. cbn [digits_value].
        rewrite Hval, len_app. change (len (String c "")) with 1.
        rewrite Z.pow_add_r by (unfold len; lia). lia.
      * intros _. destruct Hlead as (c0 & d0 & -> & Hc0); [lia|].
        exists c0, (d0 +:+ String c ""). split; [reflexivity|exact Hc0].
Qed.

(** [str(n)] for [n >= 0]: decimal digits that read back as [n], with a
    leading [0] for [n = 0] only. *)
Lemma str_decimal (n : Z) :
  0 <= n ->
  exists c d,
    str n = String c d /\ all_chars is_digit (String c d) = true
    /\ digits_value 10 0 (String c d) = n
    /\ (c = "0"%char -> d = "").
Proof.
  intros Hn. destruct n as [|p|p]; [| |lia].
  - exists "0"%char, "". repeat split; reflexivity.
  - destruct (pretty_N_go_digits (N.pos p) "") as (d & Hd & Hall & Hval & Hlead).
    destruct Hlead as (c & d' & -> & Hc); [lia|].
    exists c, d'. unfold str, pretty, pretty_Z, pretty, pretty_positive, pretty,
      pretty_N.
    destruct (decide (N.pos p = 0%N)) as [H0|_]; [discriminate H0|].
    rewrite Hd, append_empty_r. split; [reflexivity|]. split; [exact Hall|].
    split; [rewrite Hval; reflexivity|]. intros ->. contradiction.
Qed.

Lemma is_digit_cases (c : ascii) :
  is_digit c = true ->
  c = "0"%char \/ c = "1"%char \/ c = "2"%char \/ c = "3"%char \/ c = "4"%char
  \/ c = "5"%char \/ c = "6"%char \/ c = "7"%char \/ c = "8"%char
  \/ c = "9"%char.
Proof.
  destruct c as [[] [] [] [] [] [] [] []]; intros H; try discriminate H; tauto.
Qed.

Lemma int_base0_decimal (c : ascii) (d : string) :
  all_chars is_digit (String c d) = true -> (c = "0"%char -> d = "") ->
  len (String c d) <= int_max_str_digits ->
  int_base0 (String c d) = Ok (digits_value 10 0 (String c d)).
Proof.
  intros Hall Hzero Hlen. apply Z.leb_le in Hlen.
  assert (Hc : is_digit c = true)
    by (cbn [all_chars] in Hall; apply andb_true_iff in Hall as [Hc _]; exact Hc).
  apply is_digit_cases in Hc.
  destruct Hc as [->|Hc]; [rewrite (Hzero eq_refl); reflexivity|].
  repeat (destruct Hc as [->|Hc]); try subst c; unfold int_base0;
    rewrite Hall, Hlen; reflexivity.
Qed.

(** A text of decimal digits is worth at least what its digits shift the
    accumulator by. *)
Lemma digits_value_lower (s : string) :
  forall acc,
  all_chars is_digit s = true -> 0 <= acc ->
  acc * 10 ^ len s <= digits_value 10 acc s.
Proof.
  induction s as [|c s IH]; intros acc Hall Hacc.
  - change (len "") with 0. cbn [digits_value]. lia.
  - cbn [all_chars] in Hall. apply andb_true_iff in Hall as [Hc Hs].
    cbn [digits_value].
    assert (Hd : 0 <= digit_value c).
    { apply is_digit_cases in Hc.
      repeat (destruct Hc as [->|Hc]); try subst c; vm_compute; intros H;
        discriminate H. }
    specialize (IH (acc * 10 + digit_value c) Hs ltac:(lia)).
    replace (len (String c s)) with (len s + 1) by (unfold len; cbn; lia).
    rewrite Z.pow_add_r by (unfold len; lia).
    assert (Hp : 0 <= 10 ^ len s) by (apply Z.pow_nonneg; lia).
    nia.
Qed.

(** A number below [10 ^ k] is written with [k] digits at most. *)
Lemma decimal_length (c : ascii) (d : string) (k : Z) :
  all_chars is_digit (String c d) = true -> (c = "0"%char -> d = "") ->
  0 < k -> digits_value 10 0 (String c d) < 10 ^ k ->
  len (String c d) <= k.
Proof.
  intros Hall Hzero Hk Hlt.
  destruct (ascii_dec c "0") as [->|Hc].
  - rewrite (Hzero eq_refl). change (len "0") with 1. lia.
  - cbn [all_chars] in Hall. apply andb_true_iff in Hall as [Hdig Hd].
    cbn [digits_value] in Hlt.
    assert (H1 : 1 <= digit_value c).
    { apply is_digit_cases in Hdig.
      destruct Hdig as [->|Hdig]; [contradiction|].
      repeat (destruct Hdig as [->|Hdig]); try subst c; vm_compute; intros H;
        discriminate H. }
    pose proof (digits_value_lower d (0 * 10 + digit_value c) Hd ltac:(lia))
      as Hlow.
    replace (len (String c d)) with (len d + 1) by (unfold len; cbn; lia).
    destruct (Z.le_gt_cases (len d + 1) k) as [Hle|Hgt]; [exact Hle|].
    exfalso.
    assert (Hpow : 10 ^ k <= 10 ^ len d) by (apply Z.pow_le_mono_r; lia).
    assert (Hp : 0 < 10 ^ len d) by (apply Z.pow_pos_nonneg; unfold len; lia).
    nia.
Qed.

Lemma strip_prefix_app (p s : string) : strip_prefix p (p +:+ s) = Some s.
Proof.
  induction p as [|c p IH]; [reflexivity|].
  change (strip_prefix (String c p) (String c (p +:+ s)) = Some s).
  cbn [strip_prefix]. rewrite Ascii.eqb_refl. exact IH.
Qed.

Lemma is_digit_is_hex (c : ascii) : is_digit c = true -> is_hex c = true.
Proof. unfold is_hex. intros ->. reflexivity. Qed.

Lemma span_whole (p : ascii -> bool) (s : string) :
  all_chars p s = true -> span p s = (s, "").
Proof.
  intros H. rewrite <- (append_empty_r s) at 1. apply span_all; [exact H|exact I].
Qed.

(** X15.  A key [device@<n>] with [n >= 0] written in decimal, as [str]
    writes it, and within the limit of the interpreter on the digits of
    a decimal text ([n < 10 ^ 4300]): the key counts for the size of the
    buffer, the address read back from it is [n], and a device with
    [n > 254] is refused with the [ParsingException] on the address. *)
Theorem decimal_device_key (n : Z) :
  0 <= n < 10 ^ int_max_str_digits ->
  let key := "device@" +:+ str n in
  String.prefix "device@" key = true
  /\ is_sized_device_key key = true
  /\ device_addr_search key = Some (str n)
  /\ int_base0 (str n) = Ok n
  /\ (254 < n ->
      forall current_state value g sigma,
        process_addressed_device current_state key value g sigma
        = (sigma, Raise (ParsingException "device address must be <= 254"))).
Proof.
  intros [Hn Hlimit] key.
  destruct (str_decimal n Hn) as (c & d & Hstr & Hall & Hval & Hzero).
  assert (Hlen : len (String c d) <= int_max_str_digits).
  { apply decimal_length; [exact Hall|exact Hzero|reflexivity|].
    rewrite Hval. exact Hlimit. }
  assert (Hint : int_base0 (str n) = Ok n)
    by (rewrite Hstr, (int_base0_decimal c d Hall Hzero Hlen), Hval; reflexivity).
  assert (Hsearch : device_addr_search key = Some (str n)).
  { assert (Hat : device_addr_at key = Some (str n)).
    { unfold device_addr_at, key. rewrite strip_prefix_app, Hstr.
      rewrite (span_whole is_hex (String c d))
        by (eapply all_chars_impl; [apply is_digit_is_hex|exact Hall]).
      cbn [fst].
      assert (Hx : strip_prefix "0x" (String c d) = None).
      { cbn [strip_prefix]. destruct (Ascii.eqb_spec "0" c) as [<-|_];
          [|reflexivity]. rewrite (Hzero eq_refl). reflexivity. }
      rewrite Hx. reflexivity. }
    destruct key; cbn [device_addr_search]; rewrite Hat; reflexivity. }
  split; [apply prefix_append|].
  split.
  { unfold is_sized_device_key, key.
    change ("device@" +:+ str n) with ("device" +:+ String "@" (str n)).
    rewrite strip_prefix_app, Hstr, (span_whole is_digit _ Hall). reflexivity. }
  split; [exact Hsearch|]. split; [exact Hint|].
  intros Hbig current_state value g sigma.
  unfold process_addressed_device. fold key. rewrite Hsearch, Hint.
  destruct (Z.ltb_spec 254 n) as [_|Hle]; [reflexivity|lia].
Qed.

(** The theorem at 255: the key [device@255] is refused. *)
Lemma decimal_device_key_witness :
  int_base0 "255" = Ok 255
  /\ process_addressed_device 0 "device@255" []
       (mkCodeGenerator [] [] 4 None None [] 255 "slave" "slave" 0) ∅
     = (∅, Raise (ParsingException "device address must be <= 254")).
Proof.
  assert (Hrange : 0 <= 255 < 10 ^ int_max_str_digits)
    by (split; [lia|vm_compute; reflexivity]).
  destruct (decimal_device_key 255 Hrange) as (_ & _ & _ & Hint & Hrefused).
  split; [exact Hint|].
  assert (Hbig : 254 < 255) by lia.
  exact (Hrefused Hbig 0%nat []
           (mkCodeGenerator [] [] 4 None None [] 255 "slave" "slave" 0) ∅).
Defined.

(** A decimal text of 4301 digits is beyond the limit. *)
Example int_base0_limit :
  int_base0 (repeat_str "1" 4300) = Ok (digits_value 10 0 (repeat_str "1" 4300))
  /\ int_base0 (repeat_str "1" 4301) = Raise ValueError.
Proof. split; vm_compute; reflexivity. Qed.

(** ** A command along the path of an earlier one *)

Lemma leading_matchers_last (cmd : Command) (callback : string) :
  last cmd = Some (IStr callback) ->
  (List.length (leading_matchers cmd) < List.length cmd)%nat.
Proof.
  induction cmd as [|[oid m|s] cmd IH]; intros H; [discriminate H| |cbn; lia].
  destruct cmd as [|x cmd]; [discriminate H|].
  change (last (IMatcher oid m :: x :: cmd)) with (last (x :: cmd)) in H.
  specialize (IH H). cbn [leading_matchers List.length] in *. lia.
Qed.

(** The loop on a command whose leading matchers all have their
    transitions: it follows them and then meets the string. *)
Lemma process_loop_along_path (address_matcher : Matcher) (cmd rest : Command) :
  forall pos state g sigma p,
  walk g state (leading_matchers rest) = Some p ->
  (List.length (leading_matchers rest) < List.length rest)%nat ->
  exists sigma',
    process_loop address_matcher cmd rest pos state g sigma
    = (sigma', Raise AttributeError).
Proof.
  induction rest as [|[oid m|s] rest IH]; intros pos state g sigma p Hwalk Hlen.
  - cbn in Hlen. lia.
  - cbn [leading_matchers walk List.length] in Hwalk, Hlen.
    destruct (get_next_state_of (state_at g state) m) as [n|] eqn:Hn;
      [|discriminate Hwalk].
    destruct (walk g n (leading_matchers rest)) as [p'|] eqn:Hp';
      [|discriminate Hwalk].
    cbn [process_loop].
    destruct (has (state_at g state) m) eqn:Hhas.
    + rewrite Hn. apply (IH _ _ _ _ p' Hp'). lia.
    + apply has_get_next_state_of in Hhas. congruence.
  - eexists. reflexivity.
Qed.

Lemma process_commands_app (address_matcher : Matcher) (device_state : nat)
    (value rest : list Command) :
  forall g sigma sigma1 g1,
  process_commands address_matcher device_state value g sigma = (sigma1, Ok g1) ->
  process_commands address_matcher device_state (value ++ rest) g sigma
  = process_commands address_matcher device_state rest g1 sigma1.
Proof.
  induction value as [|command value IH]; intros g sigma sigma1 g1 H.
  - injection H as <- <-. reflexivity.
  - cbn [process_commands app] in *.
    change ((command :: value) ++ rest) with (command :: (value ++ rest)).
    cbn [process_commands].
    destruct (process_sequence address_matcher device_state command g sigma)
      as [sigma' [g'|e]]; [|discriminate H].
    exact (IH _ _ _ _ H).
Qed.

(** X16.  A command whose matchers equal, one by one, the first matchers
    of an earlier command of the same device (the same command again, or
    its beginning) is not refused with a [ParsingException]: the insertion
    follows the path of the earlier command, reaches the callback name
    where it expects a matcher, and raises [AttributeError]. *)
Theorem repeated_command_raises (address_matcher : Matcher) (d : nat)
    (value rest : list Command) (earlier cmd : Command) (callback : string)
    (ms : list Matcher) (g g1 : CodeGenerator) (sigma sigma1 : gmap nat Z) :
  graph_ok g -> (0 < d < List.length (states g))%nat ->
  process_commands address_matcher d value g sigma = (sigma1, Ok g1) ->
  earlier ∈ value ->
  ms `prefix_of` leading_matchers earlier ->
  Forall2 same_matcher (leading_matchers cmd) ms ->
  last cmd = Some (IStr callback) ->
  dict_in (callbacks g) callback = true ->
  exists sigma',
    process_commands address_matcher d (value ++ cmd :: rest) g sigma
    = (sigma', Raise AttributeError).
Proof.
  intros Hok Hd Hvalue Hearlier [k Hk] Hsame Hlast Hcb.
  rewrite (process_commands_app _ _ _ _ _ _ _ _ Hvalue).
  destruct (process_commands_sharing _ _ _ _ _ _ _ Hok Hd Hvalue)
    as (_ & _ & Hwalk).
  destruct (Hwalk earlier Hearlier) as [p Hp]. rewrite Hk in Hp.
  apply walk_prefix in Hp as [p' Hp'].
  rewrite <- (walk_same g1 _ _ Hsame) in Hp'.
  pose proof (process_commands_settings _ _ _ _ _ _ _ Hvalue) as Hset.
  unfold settings in Hset. injection Hset as Hcbs _ _ _ _ _ _ _.
  destruct (process_loop_along_path address_matcher cmd cmd 1 d g1 sigma1 p' Hp'
              (leading_matchers_last cmd callback Hlast)) as [sigma' Hloop].
  exists sigma'. cbn [process_commands]. unfold process_sequence.
  rewrite Hlast, Hcbs, Hcb. cbn [negb]. rewrite Hloop. reflexivity.
Qed.

Lemma device_1_generator_ok : graph_ok device_1_generator.
Proof.
  split.
  - cbn. lia.
  - intros [|[|i]] s t Hs Ht; cbn in Hs; try discriminate Hs;
      injection Hs as <-; cbn [s_transition] in Ht.
    + apply list_elem_of_singleton in Ht as ->. cbn. lia.
    + apply elem_of_nil in Ht. contradiction.
  - intros [|[|i]] s Hs Hi; cbn in Hs; try discriminate Hs; [contradiction|].
    injection Hs as <-. intros a b ta tb Ha. discriminate Ha.
Qed.

(** The theorem on the device at address 1 and the command [(u8(3), "cb")]
    given twice. *)
Lemma repeated_command_raises_witness :
  exists sigma',
    process_commands device_1_matcher 1
      ([[IMatcher 0 (mkMatcher U8 (VInt 3) None); IStr "cb"]]
       ++ [IMatcher 1 (mkMatcher U8 (VInt 3) None); IStr "cb"] :: [])
      device_1_generator ∅
    = (sigma', Raise AttributeError).
Proof.
  destruct (process_commands device_1_matcher 1
              [[IMatcher 0 (mkMatcher U8 (VInt 3) None); IStr "cb"]]
              device_1_generator ∅) as [sigma1 [g1|e]] eqn:Hvalue;
    [|vm_compute in Hvalue; discriminate Hvalue].
  apply (repeated_command_raises device_1_matcher 1
           [[IMatcher 0 (mkMatcher U8 (VInt 3) None); IStr "cb"]] []
           [IMatcher 0 (mkMatcher U8 (VInt 3) None); IStr "cb"]
           [IMatcher 1 (mkMatcher U8 (VInt 3) None); IStr "cb"] "cb"
           [mkMatcher U8 (VInt 3) None] device_1_generator g1 ∅ sigma1).
  - exact device_1_generator_ok.
  - cbn. lia.
  - exact Hvalue.
  - apply list_elem_of_here.
  - exists []. reflexivity.
  - constructor; [reflexivity|constructor].
  - reflexivity.
  - reflexivity.
Defined.

(** The constructor on the tree with the repeated command. *)
Example repeated_command_constructor :
  snd (CodeGenerator_init repeated_command_tree (mkStore ∅ ∅ 2))
  = Raise AttributeError.
Proof. vm_compute. reflexivity. Qed.

(** ** The prototypes of the callbacks *)

Lemma prototype_loop_outcome (proto_len : Z) (proto : list Param) :
  forall cnt retval,
  if forallb (fun p => negb (bool_decide (param_cls p = F32))) proto
  then exists text, Emit.prototype_loop proto_len cnt proto retval = Ok text
  else Emit.prototype_loop proto_len cnt proto retval = Raise ValueError.
Proof.
  induction proto as [|param rest IH]; intros cnt retval; cbn [forallb].
  - eexists. reflexivity.
  - cbn [Emit.prototype_loop].
    destruct (decide (param_cls param = F32)) as [Hf|Hf].
    + rewrite (bool_decide_eq_true_2 _ Hf), Hf. reflexivity.
    + rewrite (bool_decide_eq_false_2 _ Hf), (param_instance _ Hf).
      cbn [negb andb bind]. apply IH.
Qed.

Lemma prototypes_loop_outcome (tab : string) (l : list (string * list Param)) :
  forall retval,
  if forallb
       (fun kv => forallb (fun p => negb (bool_decide (param_cls p = F32)))
                    (snd kv)) l
  then exists text, Emit.prototypes_loop tab l retval = Ok text
  else Emit.prototypes_loop tab l retval = Raise ValueError.
Proof.
  induction l as [|[name proto] rest IH]; intros retval; cbn [forallb snd].
  - eexists. reflexivity.
  - cbn [Emit.prototypes_loop].
    pose proof (prototype_loop_outcome (llen proto) proto 0
                  (retval +:+ (tab +:+ "void " +:+ name +:+ "("))) as Hp.
    destruct (forallb _ proto).
    + destruct Hp as [text ->]. cbn [andb bind]. apply IH.
    + rewrite Hp. reflexivity.
Qed.

(** X17.  [get_prototypes] returns when no callback of the generator has
    a parameter of type [f32], and raises [ValueError] as soon as one has:
    it instantiates every parameter type with [0], which [f32] refuses. *)
Theorem get_prototypes_outcome (INDENT : string) (g : CodeGenerator)
    (indent : nat) :
  ((forall name proto param,
      (name, proto) ∈ callbacks g -> param ∈ proto -> param_cls param <> F32) ->
   exists text, Emit.get_prototypes INDENT g indent = Ok text)
  /\ (forall name proto param,
        (name, proto) ∈ callbacks g -> param ∈ proto -> param_cls param = F32 ->
        Emit.get_prototypes INDENT g indent = Raise ValueError).
Proof.
  unfold Emit.get_prototypes.
  pose proof (prototypes_loop_outcome (repeat_str INDENT indent) (callbacks g) "")
    as Hloop.
  destruct (forallb _ (callbacks g)) eqn:Hall.
  - destruct Hloop as [text ->]. cbn [bind]. split.
    + intros _.
      destruct (on_ready_reply_callback g) as [[|c name]|]; eexists; reflexivity.
    + intros name proto param Hin Hp Hf. exfalso.
      rewrite forallb_forall in Hall.
      specialize (Hall (name, proto) (proj1 (list_elem_of_In _ _) Hin)).
      cbn [snd] in Hall. rewrite forallb_forall in Hall.
      specialize (Hall param (proj1 (list_elem_of_In _ _) Hp)).
      rewrite (bool_decide_eq_true_2 _ Hf) in Hall. discriminate Hall.
  - rewrite Hloop. cbn [bind]. split; [|reflexivity].
    intros Hnone. exfalso.
    assert (Htrue : forallb
              (fun kv => forallb (fun p => negb (bool_decide (param_cls p = F32)))
                           (snd kv)) (callbacks g) = true).
    { apply forallb_forall. intros [name proto] Hin. cbn [snd].
      apply forallb_forall. intros param Hp.
      apply negb_true_iff, bool_decide_eq_false_2.
      exact (Hnone name proto param (proj2 (list_elem_of_In _ _) Hin)
               (proj2 (list_elem_of_In _ _) Hp)). }
    congruence.
Qed.

(** The theorem on a generator whose callback [cb] takes an [f32]. *)
Lemma get_prototypes_outcome_witness :
  Emit.get_prototypes "    "
    (mkCodeGenerator [] [("cb", [PType U8; PNamed F32 "x"])] 4 None None [] 255
       "slave" "slave" 0) 1
  = Raise ValueError.
Proof.
  apply (proj2 (get_prototypes_outcome "    "
                  (mkCodeGenerator [] [("cb", [PType U8; PNamed F32 "x"])] 4 None
                     None [] 255 "slave" "slave" 0) 1)
           "cb" [PType U8; PNamed F32 "x"] (PNamed F32 "x")).
  - apply list_elem_of_here.
  - apply list_elem_of_further, list_elem_of_here.
  - reflexivity.
Defined.

(** ** The calls of the callbacks *)

Lemma callbacks_text_loop_outcome (INDENT : string) (indent : nat)
    (l : list State) :
  forall state_code,
  ((forall state op, state ∈ l -> s_op state = Some op ->
      exists code, Op_to_code op = Ok code) ->
   exists text, Emit.callbacks_text_loop INDENT indent l state_code = Ok text)
  /\ (forall text,
        Emit.callbacks_text_loop INDENT indent l state_code = Ok text ->
        forall state op, state ∈ l -> s_op state = Some op ->
          exists code, Op_to_code op = Ok code)
  /\ (forall e,
        Emit.callbacks_text_loop INDENT indent l state_code = Raise e ->
        exists state op,
          state ∈ l /\ s_op state = Some op /\ Op_to_code op = Raise e).
Proof.
  induction l as [|state rest IH]; intros state_code.
  - split; [intros _; eexists; reflexivity|]. split.
    + intros text _ state op Hstate. apply elem_of_nil in Hstate. contradiction.
    + intros e H. discriminate H.
  - cbn [Emit.callbacks_text_loop].
    destruct (s_op state) as [op|] eqn:Hop.
    + unfold Emit.OperationState_to_code.
      destruct (Op_to_code op) as [code|e0] eqn:Hcode; cbn [bind].
      * match goal with
        | |- context [Emit.callbacks_text_loop _ _ rest ?sc] =>
            destruct (IH sc) as (Hok & Hall' & Hraise)
        end.
        split; [|split].
        -- intros Hall. apply Hok. intros st o Hst Ho.
           apply (Hall st o); [apply list_elem_of_further; exact Hst|exact Ho].
        -- intros text Htext st o Hst Ho.
           apply elem_of_cons in Hst as [->|Hst].
           ++ exists code. congruence.
           ++ exact (Hall' text Htext st o Hst Ho).
        -- intros e He. destruct (Hraise e He) as (st & o & Hst & Ho & Hr).
           exists st, o. split; [apply list_elem_of_further; exact Hst|].
           split; assumption.
      * split; [|split].
        -- intros Hall. destruct (Hall state op (list_elem_of_here _ _) Hop)
             as [code Hc]. congruence.
        -- intros text Htext. discriminate Htext.
        -- intros e He. injection He as <-. exists state, op.
           split; [apply list_elem_of_here|]. split; assumption.
    + destruct (IH state_code) as (Hok & Hall' & Hraise). split; [|split].
      * intros Hall. apply Hok. intros st o Hst Ho.
        apply (Hall st o); [apply list_elem_of_further; exact Hst|exact Ho].
      * intros text Htext st o Hst Ho.
        apply elem_of_cons in Hst as [->|Hst]; [congruence|].
        exact (Hall' text Htext st o Hst Ho).
      * intros e He. destruct (Hraise e He) as (st & o & Hst & Ho & Hr).
        exists st, o. split; [apply list_elem_of_further; exact Hst|].
        split; assumption.
Qed.

(** X18.  [get_callbacks_text] returns exactly when the operation of every
    state of a call renders, and an exception that leaves it is one that
    the operation of such a state raised. *)
Theorem get_callbacks_text_outcome (INDENT : string) (g : CodeGenerator)
    (indent : nat) :
  ((exists text, Emit.get_callbacks_text INDENT g indent = Ok text) <->
   (forall state op, state ∈ states g -> s_op state = Some op ->
      exists code, Op_to_code op = Ok code))
  /\ (forall e,
        Emit.get_callbacks_text INDENT g indent = Raise e ->
        exists state op,
          state ∈ states g /\ s_op state = Some op /\ Op_to_code op = Raise e).
Proof.
  unfold Emit.get_callbacks_text.
  destruct (callbacks_text_loop_outcome INDENT indent (states g) "")
    as (Hok & Hall & Hraise).
  split; [|exact Hraise]. split; [|exact Hok].
  intros [text Htext]. exact (Hall text Htext).
Qed.

(** The theorem at the name [on_b] followed by a line feed. *)
Lemma valid_c_function_name_spec_witness :
  valid_c_function_name ("on_b" +:+ newline) = true.
Proof.
  apply (proj2 (valid_c_function_name_spec ("on_b" +:+ newline))).
  exists "o"%char, "n_b". split; [reflexivity|]. split; [reflexivity|].
  right. reflexivity.
Defined.

(** The theorem on a generator with the state of one call that takes no
    parameter. *)
Lemma get_callbacks_text_outcome_witness :
  exists text,
    Emit.get_callbacks_text "    "
      (mkCodeGenerator
         [mkState "RDY_TO_CALL__CB" [] 0 "slave"
            (Some (Operation "cb" [] [CMatcher device_1_matcher]))]
         [("cb", [])] 4 None None [] 255 "slave" "slave" 0) 1
    = Ok text.
Proof.
  apply (proj1 (get_callbacks_text_outcome "    " _ 1)).
  intros state op Hstate Hop. cbn [states] in Hstate.
  apply list_elem_of_singleton in Hstate. subst state.
  injection Hop as <-. eexists. reflexivity.
Defined.

(** ** The conformity level *)

Lemma conformity_loop_spec (mode : string) (keys : list Z) :
  forall level0 level,
  conformity_loop mode keys level0 = Ok level ->
  level0 <= level
  /\ (forall k, k ∈ keys ->
        exists c, MEI_OBJECT_CATEGORY k = Some c /\ c <= level)
  /\ (level = level0 \/ exists k, k ∈ keys /\ MEI_OBJECT_CATEGORY k = Some level).
Proof.
  induction keys as [|k rest IH]; intros level0 level H; cbn [conformity_loop] in H.
  - injection H as <-. split; [lia|]. split; [|left; reflexivity].
    intros k Hk. apply elem_of_nil in Hk. contradiction.
  - destruct (MEI_OBJECT_CATEGORY k) as [c|] eqn:Hc; [|discriminate H].
    destruct (IH _ _ H) as (Hle & Hall & Hmax).
    split; [lia|]. split.
    + intros k' Hk'. apply elem_of_cons in Hk' as [->|Hk'].
      * exists c. split; [exact Hc|lia].
      * exact (Hall k' Hk').
    + destruct Hmax as [->|(k' & Hk' & Hlevel)].
      * destruct (Z.max_spec level0 c) as [[_ ->]|[_ ->]].
        -- right. exists k. split; [apply list_elem_of_here|exact Hc].
        -- left. reflexivity.
      * right. exists k'. split; [apply list_elem_of_further; exact Hk'|exact Hlevel].
Qed.

Lemma CodeGenerator_init_conformity (tree : Tree) (s s' : Store)
    (g : CodeGenerator) :
  CodeGenerator_init tree s = (s', Ok g) ->
  identification g = default [] (t_identification tree)
  /\ if identification_active tree
     then conformity_loop (default "slave" (t_mode tree))
            (fst <$> default [] (t_identification tree)) 0
          = Ok (conformity_level g)
     else conformity_level g = 0.
Proof.
  intros H.
  destruct (CodeGenerator_init_Ok _ _ _ _ H)
    as (cl & cbs & s1 & g1 & _ & _ & Hid & Hdev & _).
  apply process_devices_settings in Hdev.
  unfold settings in Hdev. injection Hdev as _ _ _ Hident _ _ _ Hlevel.
  rewrite Hident, Hlevel.
  destruct (identification_active tree).
  - unfold inject_identification in Hid.
    destruct (identification_device tree); [|discriminate Hid].
    cbn [set_callbacks mode identification conformity_level
           generator_before_identification] in Hid.
    destruct (conformity_loop _ _ _) as [level|]; [|discriminate Hid].
    injection Hid as _ <-. split; reflexivity.
  - injection Hid as _ <-. split; reflexivity.
Qed.

Lemma dict_get_elem {K V : Type} `{EqDecision K} (d : list (K * V)) (k : K) (v : V) :
  dict_get d k = Some v -> (k, v) ∈ d.
Proof.
  induction d as [|[k' v'] d IH]; intros H; [discriminate H|].
  cbn [dict_get] in H. destruct (decide (k' = k)) as [->|_].
  - injection H as ->. apply list_elem_of_here.
  - apply list_elem_of_further, IH, H.
Qed.

Lemma dict_in_elem {K V : Type} `{EqDecision K} (d : list (K * V)) (k : K) (v : V) :
  (k, v) ∈ d -> dict_in d k = true.
Proof.
  unfold dict_in. intros H. apply bool_decide_eq_true_2.
  induction d as [|[k' v'] d IH]; [apply elem_of_nil in H; contradiction|].
  cbn [dict_get]. destruct (decide (k' = k)) as [_|Hne]; [eexists; reflexivity|].
  apply elem_of_cons in H as [Heq|H]; [injection Heq as -> ->; contradiction|].
  exact (IH H).
Qed.

Lemma has_category_spec (i : list (Z * string)) (c : Z) :
  has_category i c = true <->
  exists key, dict_in i key = true /\ MEI_OBJECT_CATEGORY key = Some c.
Proof.
  unfold has_category. rewrite existsb_exists. split.
  - intros ([key text] & Hin & Hc). apply bool_decide_eq_true_1 in Hc.
    exists key. split; [|exact Hc].
    apply (dict_in_elem i key text), list_elem_of_In, Hin.
  - intros (key & Hin & Hc). unfold dict_in in Hin.
    apply bool_decide_eq_true_1 in Hin as [text Htext].
    exists (key, text). split.
    + apply list_elem_of_In, dict_get_elem, Htext.
    + apply bool_decide_eq_true_2. exact Hc.
Qed.

(** X19.  The conformity level of a generator: 0 when identification is
    not active (the mode is not slave, or the product code is not
    declared); else the highest category among the declared objects,
    between 1 and 3, every declared key being a known object code. *)
Theorem conformity_level_of_generator (tree : Tree) (s s' : Store)
    (g : CodeGenerator) :
  CodeGenerator_init tree s = (s', Ok g) ->
  let declared := default [] (t_identification tree) in
  if identification_active tree
  then 1 <= conformity_level g <= 3
       /\ has_category declared (conformity_level g) = true
       /\ forall key text, (key, text) ∈ declared ->
            exists c, MEI_OBJECT_CATEGORY key = Some c /\ c <= conformity_level g
  else conformity_level g = 0.
Proof.
  intros Hinit declared.
  destruct (CodeGenerator_init_conformity _ _ _ _ Hinit) as [_ Hlevel].
  destruct (identification_active tree) eqn:Hactive; [|exact Hlevel].
  destruct (conformity_loop_spec _ _ _ _ Hlevel) as (_ & Hall & Hmax).
  fold declared in Hall, Hmax.
  assert (Hkeys : forall key text, (key, text) ∈ declared ->
            exists c, MEI_OBJECT_CATEGORY key = Some c /\ c <= conformity_level g).
  { intros key text Hin. apply Hall, list_elem_of_fmap.
    exists (key, text). split; [reflexivity|exact Hin]. }
  unfold identification_active in Hactive.
  apply andb_true_iff in Hactive as [_ Hpc]. fold declared in Hpc.
  unfold dict_in in Hpc. apply bool_decide_eq_true_1 in Hpc as [text Hpc].
  destruct (Hkeys PRODUCT_CODE text (dict_get_elem _ _ _ Hpc)) as (c & Hc & Hle).
  injection Hc as <-.
  assert (Hattained : exists k, k ∈ (fst <$> declared)
                                /\ MEI_OBJECT_CATEGORY k = Some (conformity_level g)).
  { destruct Hmax as [H0|Hk]; [|exact Hk].
    rewrite H0 in Hle. unfold BASIC_DEVICE_IDENTIFICATION in Hle. lia. }
  destruct Hattained as (k & Hk & Hcat).
  split; [|split; [|exact Hkeys]].
  - split; [exact Hle|]. unfold MEI_OBJECT_CATEGORY in Hcat.
    repeat match type of Hcat with
           | (if ?b then _ else _) = _ => destruct b
           end; try discriminate Hcat; injection Hcat as <-;
      unfold BASIC_DEVICE_IDENTIFICATION, REGULAR_DEVICE_IDENTIFICATION,
        EXTENDED_DEVICE_IDENTIFICATION; lia.
  - apply has_category_spec. exists k. split; [|exact Hcat].
    apply list_elem_of_fmap in Hk as ([key text'] & -> & Hin).
    exact (dict_in_elem _ _ _ Hin).
Qed.

(** The theorem on scenario S5: the level is 2, that of the model name. *)
Lemma conformity_level_of_generator_witness :
  exists s' g,
    CodeGenerator_init s5_tree (mkStore ∅ ∅ 0) = (s', Ok g)
    /\ 1 <= conformity_level g <= 3
    /\ has_category [(PRODUCT_CODE, "PC"); (MODEL_NAME, "MX")]
         (conformity_level g) = true.
Proof.
  destruct (CodeGenerator_init s5_tree (mkStore ∅ ∅ 0)) as [s' [g|e]] eqn:Hinit;
    [|vm_compute in Hinit; discriminate Hinit].
  exists s', g. split; [reflexivity|].
  pose proof (conformity_level_of_generator _ _ _ _ Hinit) as H.
  change (identification_active s5_tree) with true in H.
  cbn iota in H. destruct H as (Hrange & Hcat & _).
  split; [exact Hrange|exact Hcat].
Defined.

(** ** The reply to function 43/14 *)

Lemma dict_get_set {K V : Type} `{EqDecision K} (d : list (K * V)) (k k' : K)
    (v : V) :
  dict_get (dict_set d k v) k'
  = if decide (k = k') then Some v else dict_get d k'.
Proof.
  induction d as [|[k0 v0] d IH]; cbn [dict_set dict_get].
  - reflexivity.
  - destruct (decide (k0 = k)) as [->|Hne]; cbn [dict_get].
    + destruct (decide (k = k')); reflexivity.
    + rewrite IH. destruct (decide (k0 = k')) as [->|_]; [|reflexivity].
      destruct (decide (k = k')) as [->|_]; [contradiction|reflexivity].
Qed.

Lemma MEI_OBJECT_CATEGORY_items_spec (key c : Z) :
  (key, c) ∈ MEI_OBJECT_CATEGORY_items <-> MEI_OBJECT_CATEGORY key = Some c.
Proof.
  split.
  - unfold MEI_OBJECT_CATEGORY_items. intros H.
    repeat (apply elem_of_cons in H as [H|H];
            [injection H as -> ->; reflexivity|]).
    apply elem_of_nil in H. contradiction.
  - unfold MEI_OBJECT_CATEGORY.
    destruct ((0 <=? key) && (key <=? 2)) eqn:H1.
    { intros H. injection H as <-. apply andb_true_iff in H1 as [Hlo Hhi].
      apply Z.leb_le in Hlo, Hhi.
      assert (key = 0 \/ key = 1 \/ key = 2) as Hk by lia.
      repeat (destruct Hk as [->|Hk]); try subst key;
        unfold MEI_OBJECT_CATEGORY_items;
        repeat first [apply list_elem_of_here|apply list_elem_of_further]. }
    destruct ((3 <=? key) && (key <=? 6)) eqn:H2.
    { intros H. injection H as <-. apply andb_true_iff in H2 as [Hlo Hhi].
      apply Z.leb_le in Hlo, Hhi.
      assert (key = 3 \/ key = 4 \/ key = 5 \/ key = 6) as Hk by lia.
      repeat (destruct Hk as [->|Hk]); try subst key;
        unfold MEI_OBJECT_CATEGORY_items;
        repeat first [apply list_elem_of_here|apply list_elem_of_further]. }
    destruct ((128 <=? key) && (key <=? 135)) eqn:H3; [|discriminate].
    intros H. injection H as <-. apply andb_true_iff in H3 as [Hlo Hhi].
    apply Z.leb_le in Hlo, Hhi.
    assert (key = 128 \/ key = 129 \/ key = 130 \/ key = 131 \/ key = 132
            \/ key = 133 \/ key = 134 \/ key = 135) as Hk by lia.
    repeat (destruct Hk as [->|Hk]); try subst key;
      unfold MEI_OBJECT_CATEGORY_items;
      repeat first [apply list_elem_of_here|apply list_elem_of_further].
Qed.

(** The categories that the loop over the object codes fills in: those it
    had, and those of the codes it met that are declared and within the
    conformity level. *)
Lemma collect_fold (g : CodeGenerator) (t2 : string) (l : list (Z * Z)) :
  forall all_objects device_id_count all_objects' device_id_count',
  foldl (Emit.collect_step g t2) (all_objects, device_id_count) l
  = (all_objects', device_id_count') ->
  forall c,
    let met :=
      exists key, (key, c) ∈ l /\ c <= conformity_level g
                  /\ dict_in (identification g) key = true in
    (is_Some (dict_get all_objects' c)
     <-> is_Some (dict_get all_objects c) \/ met)
    /\ (is_Some (dict_get device_id_count' c)
        <-> is_Some (dict_get device_id_count c) \/ met).
Proof.
  induction l as [|[key category] rest IH];
    intros ao dc ao' dc' H c met; subst met; cbn [foldl] in H.
  - injection H as <- <-.
    split; (split; [intros Hs; left; exact Hs|]);
      (intros [Hs|(key & Hin & _)]; [exact Hs|]);
      apply elem_of_nil in Hin; contradiction.
  - unfold Emit.collect_step at 2 in H.
    destruct ((category <=? conformity_level g)
              && dict_in (identification g) key) eqn:Hcond.
    + apply andb_true_iff in Hcond as [Hle Hin]. apply Z.leb_le in Hle.
      destruct (IH _ _ _ _ H c) as [Hao Hdc].
      rewrite !dict_get_set in Hao. rewrite !dict_get_set in Hdc.
      split.
      * rewrite Hao. destruct (decide (category = c)) as [->|Hne].
        -- split; [|intros _; left; eexists; reflexivity].
           intros _. right. exists key.
           split; [apply list_elem_of_here|]. split; assumption.
        -- split.
           ++ intros [Hs|(k & Hk & Hrest)]; [left; exact Hs|].
              right. exists k. split; [apply list_elem_of_further; exact Hk|exact Hrest].
           ++ intros [Hs|(k & Hk & Hrest)]; [left; exact Hs|].
              apply elem_of_cons in Hk as [Heq|Hk];
                [injection Heq as -> ->; contradiction|].
              right. exists k. split; assumption.
      * rewrite Hdc. destruct (decide (category = c)) as [->|Hne].
        -- split; [|intros _; left; eexists; reflexivity].
           intros _. right. exists key.
           split; [apply list_elem_of_here|]. split; assumption.
        -- split.
           ++ intros [Hs|(k & Hk & Hrest)]; [left; exact Hs|].
              right. exists k. split; [apply list_elem_of_further; exact Hk|exact Hrest].
           ++ intros [Hs|(k & Hk & Hrest)]; [left; exact Hs|].
              apply elem_of_cons in Hk as [Heq|Hk];
                [injection Heq as -> ->; contradiction|].
              right. exists k. split; assumption.
    + destruct (IH _ _ _ _ H c) as [Hao Hdc].
      assert (Hskip : forall k, (k, c) ∈ (key, category) :: rest ->
                c <= conformity_level g ->
                dict_in (identification g) k = true -> (k, c) ∈ rest).
      { intros k Hk Hle Hin. apply elem_of_cons in Hk as [Heq|Hk]; [|exact Hk].
        injection Heq as -> ->. apply Z.leb_le in Hle.
        rewrite Hle, Hin in Hcond. discriminate Hcond. }
      split.
      * rewrite Hao. split.
        -- intros [Hs|(k & Hk & Hrest)]; [left; exact Hs|].
           right. exists k. split; [apply list_elem_of_further; exact Hk|exact Hrest].
        -- intros [Hs|(k & Hk & Hle & Hin)]; [left; exact Hs|].
           right. exists k. split; [exact (Hskip k Hk Hle Hin)|]. split; assumption.
      * rewrite Hdc. split.
        -- intros [Hs|(k & Hk & Hrest)]; [left; exact Hs|].
           right. exists k. split; [apply list_elem_of_further; exact Hk|exact Hrest].
        -- intros [Hs|(k & Hk & Hle & Hin)]; [left; exact Hs|].
           right. exists k. split; [exact (Hskip k Hk Hle Hin)|]. split; assumption.
Qed.

Lemma collect_objects_spec (g : CodeGenerator) (t2 : string)
    (all_objects : list (Z * list string)) (device_id_count : list (Z * Z)) :
  Emit.collect_objects g t2 = (all_objects, device_id_count) ->
  forall c,
    (is_Some (dict_get all_objects c)
     <-> c <= conformity_level g /\ has_category (identification g) c = true)
    /\ (is_Some (dict_get device_id_count c)
        <-> c <= conformity_level g /\ has_category (identification g) c = true).
Proof.
  unfold Emit.collect_objects. intros H c.
  destruct (collect_fold g t2 _ _ _ _ _ H c) as [Hao Hdc].
  assert (Hmet : (exists key, (key, c) ∈ MEI_OBJECT_CATEGORY_items
                              /\ c <= conformity_level g
                              /\ dict_in (identification g) key = true)
                 <-> c <= conformity_level g
                     /\ has_category (identification g) c = true).
  { rewrite has_category_spec. split.
    - intros (key & Hin & Hle & Hd). split; [exact Hle|].
      exists key. split; [exact Hd|]. apply MEI_OBJECT_CATEGORY_items_spec, Hin.
    - intros (Hle & key & Hd & Hc). exists key.
      split; [apply MEI_OBJECT_CATEGORY_items_spec, Hc|]. split; assumption. }
  split.
  - rewrite Hao, <- Hmet. split; [|intros Hm; right; exact Hm].
    intros [[x Hx]|Hm]; [discriminate Hx|exact Hm].
  - rewrite Hdc, <- Hmet. split; [|intros Hm; right; exact Hm].
    intros [[x Hx]|Hm]; [discriminate Hx|exact Hm].
Qed.

Lemma dict_item_Some {V : Type} (d : list (Z * V)) (k : Z) :
  is_Some (dict_get d k) -> exists v, dict_item d k = Ok v.
Proof. unfold dict_item. intros [v ->]. exists v. reflexivity. Qed.

Lemma dict_item_None {V : Type} (d : list (Z * V)) (k : Z) :
  ~ is_Some (dict_get d k) -> dict_item d k = Raise KeyError.
Proof.
  unfold dict_item. intros H. destruct (dict_get d k) as [v|]; [|reflexivity].
  exfalso. apply H. eexists. reflexivity.
Qed.

(** X20.  The routine for function 43/14 of a generator that the
    constructor returned.  It is the empty text when identification is not
    active.  When the tree declares the product code and a private object
    (extended category) but no object of the regular category,
    [get_read_device_identification] raises [KeyError]: it reads the count
    of regular objects, which was never set.  In every other case it
    returns a text. *)
Theorem read_device_identification_outcome (INDENT : string) (tree : Tree)
    (s s' : Store) (g : CodeGenerator) (level : nat) :
  CodeGenerator_init tree s = (s', Ok g) ->
  let declared := default [] (t_identification tree) in
  (identification_active tree = false ->
   Emit.get_read_device_identification INDENT g level = Ok "")
  /\ if identification_active tree
        && has_category declared EXTENDED_DEVICE_IDENTIFICATION
        && negb (has_category declared REGULAR_DEVICE_IDENTIFICATION)
     then Emit.get_read_device_identification INDENT g level = Raise KeyError
     else exists text,
            Emit.get_read_device_identification INDENT g level = Ok text.
Proof.
  intros Hinit declared.
  destruct (CodeGenerator_init_conformity _ _ _ _ Hinit) as [Hident Hloop].
  fold declared in Hident, Hloop.
  destruct (identification_active tree) eqn:Hactive.
  2:{ unfold Emit.get_read_device_identification. rewrite Hloop.
      split; [reflexivity|]. cbn [andb]. eexists. reflexivity. }
  split; [discriminate|]. cbn [andb].
  destruct (conformity_loop_spec _ _ _ _ Hloop) as (_ & Hall & Hmax).
  assert (Hpc : has_category declared BASIC_DEVICE_IDENTIFICATION = true).
  { unfold identification_active in Hactive.
    apply andb_true_iff in Hactive as [_ Hpc]. fold declared in Hpc.
    apply has_category_spec. exists PRODUCT_CODE. split; [exact Hpc|reflexivity]. }
  assert (Hattained : has_category declared (conformity_level g) = true
                      /\ 1 <= conformity_level g <= 3).
  { destruct (proj1 (has_category_spec _ _) Hpc) as (k0 & Hk0 & Hc0).
    unfold dict_in in Hk0. apply bool_decide_eq_true_1 in Hk0 as [t0 Ht0].
    destruct (Hall k0) as (c0 & Hc0' & Hle0).
    { apply list_elem_of_fmap. exists (k0, t0).
      split; [reflexivity|exact (dict_get_elem _ _ _ Ht0)]. }
    rewrite Hc0 in Hc0'. injection Hc0' as <-.
    unfold BASIC_DEVICE_IDENTIFICATION in Hle0.
    destruct Hmax as [H0|(k & Hk & Hcat)]; [lia|].
    split.
    - apply has_category_spec. exists k. split; [|exact Hcat].
      apply list_elem_of_fmap in Hk as ([key text'] & -> & Hin).
      exact (dict_in_elem _ _ _ Hin).
    - split; [lia|]. unfold MEI_OBJECT_CATEGORY in Hcat.
      repeat match type of Hcat with
             | (if ?b then _ else _) = _ => destruct b
             end; try discriminate Hcat; injection Hcat as <-;
        unfold BASIC_DEVICE_IDENTIFICATION, REGULAR_DEVICE_IDENTIFICATION,
          EXTENDED_DEVICE_IDENTIFICATION; lia. }
  destruct Hattained as [Hattained Hrange].
  assert (Hbelow : forall c, conformity_level g < c -> has_category declared c = false).
  { intros c Hc. destruct (has_category declared c) eqn:Hhas; [|reflexivity].
    exfalso. apply has_category_spec in Hhas as (k & Hk & Hcat).
    unfold dict_in in Hk. apply bool_decide_eq_true_1 in Hk as [t Ht].
    destruct (Hall k) as (c' & Hc' & Hle).
    { apply list_elem_of_fmap. exists (k, t).
      split; [reflexivity|exact (dict_get_elem _ _ _ Ht)]. }
    rewrite Hcat in Hc'. injection Hc' as <-. lia. }
  unfold Emit.get_read_device_identification.
  destruct (Z.eqb_spec (conformity_level g) 0) as [H0|_]; [lia|].
  destruct (Emit.collect_objects g (repeat_str INDENT (level + 2)))
    as [all_objects device_id_count] eqn:Hcollect.
  pose proof (collect_objects_spec g _ _ _ Hcollect) as Hspec.
  rewrite Hident in Hspec.
  assert (Hbasic : exists v, dict_item all_objects BASIC_DEVICE_IDENTIFICATION = Ok v).
  { apply dict_item_Some, (proj1 (Hspec _)). split; [|exact Hpc].
    unfold BASIC_DEVICE_IDENTIFICATION. lia. }
  assert (Hbasic' : exists v,
            dict_item device_id_count BASIC_DEVICE_IDENTIFICATION = Ok v).
  { apply dict_item_Some, (proj2 (Hspec _)). split; [|exact Hpc].
    unfold BASIC_DEVICE_IDENTIFICATION. lia. }
  destruct Hbasic as [basic Hbasic]. destruct Hbasic' as [l1c Hl1c].
  assert (Hcases : conformity_level g = 1 \/ conformity_level g = 2
                   \/ conformity_level g = 3) by lia.
  destruct Hcases as [H1|[H2|H3]].
  - rewrite (Hbelow EXTENDED_DEVICE_IDENTIFICATION)
      by (unfold EXTENDED_DEVICE_IDENTIFICATION; lia).
    cbn [andb]. rewrite H1. cbn [Z.eqb Pos.eqb]. rewrite Hbasic. cbn [bind].
    eexists. reflexivity.
  - rewrite (Hbelow EXTENDED_DEVICE_IDENTIFICATION)
      by (unfold EXTENDED_DEVICE_IDENTIFICATION; lia).
    cbn [andb]. rewrite H2 in *.
    change (2 =? BASIC_DEVICE_IDENTIFICATION) with false.
    change (2 =? REGULAR_DEVICE_IDENTIFICATION) with true. cbn iota.
    destruct (dict_item_Some device_id_count REGULAR_DEVICE_IDENTIFICATION)
      as [count ->].
    { apply (proj2 (Hspec _)). split; [reflexivity|exact Hattained]. }
    destruct (dict_item_Some all_objects REGULAR_DEVICE_IDENTIFICATION)
      as [regular ->].
    { apply (proj1 (Hspec _)). split; [reflexivity|exact Hattained]. }
    rewrite Hbasic. cbn [bind]. eexists. reflexivity.
  - rewrite H3 in *.
    change (has_category declared EXTENDED_DEVICE_IDENTIFICATION)
      with (has_category declared 3).
    rewrite Hattained. cbn [andb].
    change (3 =? BASIC_DEVICE_IDENTIFICATION) with false.
    change (3 =? REGULAR_DEVICE_IDENTIFICATION) with false.
    change (3 =? EXTENDED_DEVICE_IDENTIFICATION) with true. cbn iota.
    rewrite Hl1c. cbn [bind].
    destruct (has_category declared REGULAR_DEVICE_IDENTIFICATION) eqn:Hreg;
      cbn [negb].
    + destruct (dict_item_Some device_id_count REGULAR_DEVICE_IDENTIFICATION)
        as [l2c ->].
      { apply (proj2 (Hspec _)).
        split; [unfold REGULAR_DEVICE_IDENTIFICATION; lia|exact Hreg]. }
      destruct (dict_item_Some device_id_count EXTENDED_DEVICE_IDENTIFICATION)
        as [l3c ->].
      { apply (proj2 (Hspec _)). split; [reflexivity|exact Hattained]. }
      destruct (dict_item_Some all_objects REGULAR_DEVICE_IDENTIFICATION)
        as [regular ->].
      { apply (proj1 (Hspec _)).
        split; [unfold REGULAR_DEVICE_IDENTIFICATION; lia|exact Hreg]. }
      destruct (dict_item_Some all_objects EXTENDED_DEVICE_IDENTIFICATION)
        as [extended ->].
      { apply (proj1 (Hspec _)). split; [reflexivity|exact Hattained]. }
      rewrite Hbasic. cbn [bind]. eexists. reflexivity.
    + rewrite (dict_item_None device_id_count REGULAR_DEVICE_IDENTIFICATION).
      * reflexivity.
      * intros Hs. apply (proj2 (Hspec _)) in Hs as [_ Hs]. congruence.
Qed.

(** The theorem on the tree that declares the product code and the
    private object [0x80]: the constructor returns a generator, and the
    routine cannot be rendered. *)
Lemma read_device_identification_outcome_witness :
  exists s' g,
    CodeGenerator_init private_object_tree (mkStore ∅ ∅ 1) = (s', Ok g)
    /\ Emit.get_read_device_identification "    " g 1 = Raise KeyError.
Proof.
  destruct (CodeGenerator_init private_object_tree (mkStore ∅ ∅ 1))
    as [s' [g|e]] eqn:Hinit; [|vm_compute in Hinit; discriminate Hinit].
  exists s', g. split; [reflexivity|].
  exact (proj2 (read_device_identification_outcome "    " _ _ _ g 1 Hinit)).
Defined.

(** The routine on scenario S5, at the regular level. *)
Example read_device_identification_s5 :
  exists s' g text,
    CodeGenerator_init s5_tree (mkStore ∅ ∅ 0) = (s', Ok g)
    /\ Emit.get_read_device_identification "    " g 1 = Ok text
    /\ Emit.pack g "        " 1 1
       = "        Datagram::pack<uint8_t>(0x01); // Object code" +:+ newline
         +:+ "        Datagram::pack<uint8_t>(2); // Length of the object"
         +:+ newline
         +:+ "        Datagram::pack(" +:+ dquote +:+ "PC" +:+ dquote +:+ ");"
         +:+ newline.
Proof. do 3 eexists. split; [vm_compute; reflexivity|]. split; reflexivity. Qed.

(** ** The declaration of the device address *)

(** X21.  What the generated code declares for the address.  When a key
    of the tree starts with [device@], the address is a constant between 0
    and 254 and no setter is emitted, also when the tree has a [device] key
    as well; else the address is a variable that starts at 255 and the
    setter is emitted. *)
Theorem device_address_declaration (INDENT : string) (tree : Tree)
    (s s' : Store) (g : CodeGenerator) (indent : nat) :
  CodeGenerator_init tree s = (s', Ok g) ->
  let tab := repeat_str INDENT indent in
  if existsb (fun kv => String.prefix "device@" (fst kv)) (t_items tree)
  then Emit.set_device_address INDENT g indent = ""
       /\ exists address,
            0 <= address <= 254
            /\ Emit.get_device_address INDENT g indent
               = "///< Device ID" +:+ newline +:+ tab
                 +:+ "static constexpr auto device_address = uint8_t{"
                 +:+ str address +:+ "};"
  else Emit.set_device_address INDENT g indent
       = "///< Set the device address" +:+ newline
         +:+ (tab +:+ "static inline void set_device_address(uint8_t new_address) {"
              +:+ newline)
         +:+ (tab +:+ INDENT +:+ "device_address = new_address;" +:+ newline)
         +:+ (tab +:+ "}")
       /\ Emit.get_device_address INDENT g indent
          = "///< Runtime ID. Set-up before starting the modbus" +:+ newline
            +:+ tab +:+ "inline static uint8_t device_address = 255;".
Proof.
  intros Hinit tab.
  destruct (CodeGenerator_init_shape _ _ _ _ Hinit) as (_ & _ & _ & Haddr).
  unfold Emit.set_device_address, Emit.get_device_address. fold tab.
  destruct (existsb _ (t_items tree)) eqn:Hex.
  - destruct Haddr as [[_ Hno]|(before & key & l & behind & group & address & _
                                & _ & _ & _ & _ & Hrange & ->)].
    + exfalso. apply existsb_exists in Hex as ([key l] & Hin & Hp).
      cbn [fst] in Hp. rewrite (Hno key l (proj2 (list_elem_of_In _ _) Hin)) in Hp.
      discriminate Hp.
    + split; [reflexivity|]. exists address. split; [exact Hrange|reflexivity].
  - destruct Haddr as [[-> _]|(before & key & l & behind & group & address & Hitems
                               & Hp & _)].
    + split; reflexivity.
    + exfalso.
      assert (Htrue : existsb (fun kv => String.prefix "device@" (fst kv))
                        (t_items tree) = true).
      { apply existsb_exists. exists (key, l). split; [|exact Hp].
        rewrite Hitems. apply in_or_app. right. left. reflexivity. }
      congruence.
Qed.

(** The theorem on the tree with the key [device@0x17]: no setter. *)
Lemma device_address_declaration_witness :
  exists s' g,
    CodeGenerator_init hex_key_tree (mkStore ∅ ∅ 2) = (s', Ok g)
    /\ Emit.set_device_address "    " g 2 = "".
Proof.
  destruct (CodeGenerator_init hex_key_tree (mkStore ∅ ∅ 2))
    as [s' [g|e]] eqn:Hinit; [|vm_compute in Hinit; discriminate Hinit].
  exists s', g. split; [reflexivity|].
  exact (proj1 (device_address_declaration "    " _ _ _ g 2 Hinit)).
Defined.

(** ** The exceptions of the constructor *)

Lemma process_loop_raises (address_matcher : Matcher) (cmd rest : Command) :
  forall pos state g sigma sigma' e,
  (forall name, last cmd = Some (IStr name) ->
     (name =? "NOTHING")%string = false ->
     is_Some (dict_get (callbacks g) name)) ->
  process_loop address_matcher cmd rest pos state g sigma = (sigma', Raise e) ->
  constructor_exception e.
Proof.
  induction rest as [|[oid m|text] rest IH];
    intros pos state g sigma sigma' e Hcb H; cbn [process_loop] in H.
  - discriminate H.
  - destruct (has (state_at g state) m) eqn:Hhas.
    + destruct (get_next_state_of (state_at g state) m) as [next|] eqn:Hnext.
      * exact (IH _ _ _ _ _ _ Hcb H).
      * apply has_get_next_state_of in Hnext. congruence.
    + destruct rest as [|[oid' m'|text] rest'].
      * injection H as _ <-. exact I.
      * unfold new_state in H. eapply IH; [|exact H]. exact Hcb.
      * destruct (last cmd) as [[oid' m'|command_name]|] eqn:Hlast;
          try (injection H as _ <-; exact I).
        unfold new_state in H.
        cbn [callbacks add_transition append_state set_states] in H.
        destruct (negb (command_name =? "NOTHING")%string) eqn:Hname;
          [|discriminate H].
        apply negb_true_iff in Hname.
        destruct (Hcb command_name eq_refl Hname) as [prototype Hp].
        rewrite Hp in H. discriminate H.
  - injection H as _ <-. exact I.
Qed.

Lemma process_sequence_raises (address_matcher : Matcher) (state : nat)
    (cmd : Command) (g : CodeGenerator) (sigma sigma' : gmap nat Z) (e : Exn) :
  process_sequence address_matcher state cmd g sigma = (sigma', Raise e) ->
  constructor_exception e.
Proof.
  unfold process_sequence. intros H.
  destruct (last cmd) as [[oid m|callback]|] eqn:Hlast.
  - eapply process_loop_raises; [|exact H].
    intros name Hname Hnot. rewrite last_snoc in Hname.
    injection Hname as <-. discriminate Hnot.
  - destruct (dict_in (callbacks g) callback) eqn:Hin; cbn [negb] in H.
    + eapply process_loop_raises; [|exact H].
      intros name Hname _. rewrite Hlast in Hname. injection Hname as <-.
      unfold dict_in in Hin. apply bool_decide_eq_true_1 in Hin. exact Hin.
    + injection H as _ <-. exact I.
  - injection H as _ <-. exact I.
Qed.

Lemma process_commands_raises (address_matcher : Matcher) (device_state : nat)
    (value : list Command) :
  forall g sigma sigma' e,
  process_commands address_matcher device_state value g sigma = (sigma', Raise e) ->
  constructor_exception e.
Proof.
  induction value as [|command rest IH]; intros g sigma sigma' e H;
    cbn [process_commands] in H; [discriminate H|].
  destruct (process_sequence address_matcher device_state command g sigma)
    as [sigma1 [g1|e1]] eqn:Hseq.
  - exact (IH _ _ _ _ H).
  - injection H as _ <-. exact (process_sequence_raises _ _ _ _ _ _ _ Hseq).
Qed.

Lemma int_base0_raises (text : string) (e : Exn) :
  int_base0 text = Raise e -> e = ValueError.
Proof.
  unfold int_base0. intros H.
  repeat match type of H with
         | match ?x with _ => _ end = _ => destruct x
         | (if ?b then _ else _) = _ => destruct b
         end; try discriminate H; injection H as <-; reflexivity.
Qed.

Lemma process_items_raises (lists : gmap nat (list Command))
    (current_state : nat) (items : list (string * ListObj)) :
  forall g sigma sigma' e,
  process_items lists current_state items g sigma = (sigma', Raise e) ->
  constructor_exception e.
Proof.
  induction items as [|[key value] rest IH]; intros g sigma sigma' e H;
    cbn [process_items] in H; [discriminate H|].
  destruct (if (key =? "device")%string then _ else _)
    as [sigma1 [g1|e1]] eqn:H1.
  2:{ injection H as _ <-. destruct (key =? "device")%string; [|discriminate H1].
      unfold process_runtime_device, new_state in H1.
      exact (process_commands_raises _ _ _ _ _ _ _ H1). }
  destruct (if String.prefix "device@" key then _ else _)
    as [sigma2 [g2|e2]] eqn:H2.
  - exact (IH _ _ _ _ H).
  - injection H as _ <-.
    destruct (String.prefix "device@" key); [|discriminate H2].
    unfold process_addressed_device in H2.
    destruct (device_addr_search key) as [group|];
      [|injection H2 as _ <-; exact I].
    destruct (int_base0 group) as [address|e0] eqn:Hint.
    2:{ injection H2 as _ <-. rewrite (int_base0_raises _ _ Hint). exact I. }
    destruct (254 <? address); [injection H2 as _ <-; exact I|].
    unfold new_state in H2.
    destruct (Matcher_init U8 [AInt address] _) as [address_matcher|e0] eqn:Hm.
    + exact (process_commands_raises _ _ _ _ _ _ _ H2).
    + injection H2 as _ <-. cbn [Matcher_init cast] in Hm.
      destruct (check U8 address); [discriminate Hm|].
      injection Hm as <-. exact I.
Qed.

(** X22.  The exceptions that can leave the constructor on a tree of the
    expected types: a [ParsingException], or one of [ValueError] (an
    address that [int(x, 0)] refuses), [AttributeError] (a string where a
    matcher is expected) and [IndexError] (an empty command).  The failed
    assertion of [get_next_state_of] and the [KeyError] of
    [self.callbacks[command_name]] are never reached. *)
Theorem constructor_exceptions (tree : Tree) (s s' : Store) (e : Exn) :
  CodeGenerator_init tree s = (s', Raise e) ->
  (exists message, e = ParsingException message)
  \/ e = ValueError \/ e = AttributeError \/ e = IndexError.
Proof.
  intros H.
  assert (He : constructor_exception e).
  { unfold CodeGenerator_init in H.
    destruct (t_callbacks tree) as [callback_list|];
      [|injection H as _ <-; exact I].
    destruct (process_callbacks callback_list []) as [callbacks|e0] eqn:Hcb.
    2:{ injection H as _ <-. clear -Hcb. revert Hcb. generalize (@nil (string * list Param)).
        induction callback_list as [|[cb proto] rest IH]; intros acc Hcb;
          cbn [process_callbacks] in Hcb; [discriminate Hcb|].
        destruct (negb (valid_c_function_name cb));
          [injection Hcb as <-; exact I|exact (IH _ Hcb)]. }
    destruct (negb _); [injection H as _ <-; exact I|].
    destruct (if _ && _ then _ else _) as [s1 [g1|e1]] eqn:Hid.
    - destruct (process_devices (st_lists s1) tree g1 (st_pos s1))
        as [sigma r] eqn:Hdev.
      injection H as _ ->. unfold process_devices, new_state in Hdev.
      exact (process_items_raises _ _ _ _ _ _ _ Hdev).
    - injection H as _ <-.
      destruct (_ && _); [|discriminate Hid].
      unfold inject_identification in Hid.
      destruct (identification_device tree) as [device|e0] eqn:Hdevice.
      + cbn [set_callbacks mode identification conformity_level] in Hid.
        destruct (conformity_loop _ _ _) as [level|e0] eqn:Hloop;
          [discriminate Hid|].
        injection Hid as _ <-. clear -Hloop. revert Hloop.
        generalize 0.
        induction (fst <$> default [] (t_identification tree)) as [|k rest IH];
          intros level Hloop; cbn [conformity_loop] in Hloop;
          [discriminate Hloop|].
        destruct (MEI_OBJECT_CATEGORY k);
          [exact (IH _ Hloop)|injection Hloop as <-; exact I].
      + injection Hid as _ <-. unfold identification_device in Hdevice.
        destruct (List.find _ _) as [[k v]|]; [discriminate Hdevice|].
        destruct (dict_get _ _); [discriminate Hdevice|].
        injection Hdevice as <-. exact I. }
  destruct e; try contradiction; eauto.
Qed.

(** The theorem on the tree with the repeated command. *)
Lemma constructor_exceptions_witness :
  exists s' e,
    CodeGenerator_init repeated_command_tree (mkStore ∅ ∅ 2) = (s', Raise e)
    /\ ((exists message, e = ParsingException message)
        \/ e = ValueError \/ e = AttributeError \/ e = IndexError).
Proof.
  destruct (CodeGenerator_init repeated_command_tree (mkStore ∅ ∅ 2))
    as [s' [g|e]] eqn:Hinit; [vm_compute in Hinit; discriminate Hinit|].
  exists s', e. split; [reflexivity|].
  exact (constructor_exceptions _ _ _ _ Hinit).
Defined.

(** Each of the four is raised: an unknown callback, a key with a
    superfluous zero, a command given twice, an empty command. *)
Example constructor_exceptions_raised :
  snd (CodeGenerator_init
         (mkTree (Some []) None None None None None None
            [("device", mkListObj 0 [[IStr "cb"]])]) (mkStore ∅ ∅ 0))
  = Raise (ParsingException "Unknown callback cb: Callback must be declared first")
  /\ snd (CodeGenerator_init leading_zero_tree (mkStore ∅ ∅ 0)) = Raise ValueError
  /\ snd (CodeGenerator_init repeated_command_tree (mkStore ∅ ∅ 2))
     = Raise AttributeError
  /\ snd (CodeGenerator_init
            (mkTree (Some []) None None None None None None
               [("device", mkListObj 0 [[]])]) (mkStore ∅ ∅ 0))
     = Raise IndexError.
Proof. repeat split; vm_compute; reflexivity. Qed.

(** ** The callbacks of the identification commands *)

(** X23.  When identification is active, the generator holds the three
    callbacks of the identification commands with the prototypes of the
    constructor, whatever the tree declares under these names:
    [on_report_slave_id] and [on_diagnostics] without parameter,
    [on_read_device_identification] with the two [u8] parameters
    [device_id] and [object_id]. *)
Theorem identification_callbacks (tree : Tree) (s s' : Store)
    (g : CodeGenerator) :
  CodeGenerator_init tree s = (s', Ok g) ->
  identification_active tree = true ->
  dict_get (callbacks g) "on_report_slave_id" = Some []
  /\ dict_get (callbacks g) "on_read_device_identification"
     = Some [PNamed U8 "device_id"; PNamed U8 "object_id"]
  /\ dict_get (callbacks g) "on_diagnostics" = Some [].
Proof.
  intros Hinit Hactive.
  destruct (CodeGenerator_init_Ok _ _ _ _ Hinit)
    as (cl & cbs & s1 & g1 & _ & _ & Hid & Hdev & _).
  apply process_devices_settings in Hdev.
  unfold settings in Hdev. injection Hdev as Hcbs _ _ _ _ _ _ _.
  rewrite Hcbs. rewrite Hactive in Hid.
  unfold inject_identification in Hid.
  destruct (identification_device tree); [|discriminate Hid].
  cbn [set_callbacks mode identification conformity_level callbacks
         generator_before_identification] in Hid.
  destruct (conformity_loop _ _ _); [|discriminate Hid].
  injection Hid as _ <-. cbn [callbacks set_callbacks].
  rewrite !dict_get_set. repeat split.
Qed.

(** The theorem on the tree that declares [on_diagnostics] with a [u16]
    parameter: the generator holds it without parameter. *)
Lemma identification_callbacks_witness :
  exists s' g,
    CodeGenerator_init own_diagnostics_tree (mkStore ∅ ∅ 1) = (s', Ok g)
    /\ dict_get (callbacks g) "on_diagnostics" = Some [].
Proof.
  destruct (CodeGenerator_init own_diagnostics_tree (mkStore ∅ ∅ 1))
    as [s' [g|e]] eqn:Hinit; [|vm_compute in Hinit; discriminate Hinit].
  exists s', g. split; [reflexivity|].
  exact (proj2 (proj2 (identification_callbacks _ _ _ _ Hinit eq_refl))).
Defined.
